(** * RAG chat server: retrieval, prompt assembly, session store, realtime gateway

    Shallow embedding of
      - server/services/openai.ts   (generateChatResponse, generateEmbedding)
      - server/services/pinecone.ts (initializePinecone, upsertDocumentChunks,
                                     searchSimilarChunks)
      - server/storage.ts           (MemStorage: documents, chat sessions
                                     and messages)
      - server/services/langchain.ts (processDocument, generateContextFromQuery)
      - server/routes.ts            (the upload with its multer stage, the
                                     session routes and the WebSocket
                                     [message] handler)

    JavaScript numbers that carry a similarity score are IEEE-754 binary64
    values, so they are embedded as primitive floats; identifiers, counters,
    page numbers and timestamps are integers and are embedded in [Z].
    A JavaScript string is a sequence of UTF-16 code units.  It is held as
    the [string] of the bytes of its UTF-8 form, which is how the text sits
    in an uploaded file and in an inbound frame; a surrogate that stands
    alone is held as the three bytes of its own value.  An ASCII literal of
    the source is then the same literal here, and [+] is [++] wherever one
    side of the joint is ASCII, as it is at every joint in this server.
    Length, [substring] and [trim] count and cut in code units and
    characters, not in bytes. *)

From Stdlib Require Import ZArith NArith String Ascii List Bool Lia Floats DecimalString.
From Stdlib Require Import Sorting.Permutation Sorting.Sorted.
Import ListNotations.
Open Scope string_scope.
Open Scope Z_scope.

Set Implicit Arguments.
Set Warnings "-inexact-float".

(* ====================================================================== *)
(** ** JavaScript primitives used by the server                            *)
(* ====================================================================== *)

Module Js.

(** *** Strings as characters and code units *)

Definition byte (b : ascii) : N := N_of_ascii b.

Definition bytes (l : list N) : string :=
  fold_right (fun n s => String (ascii_of_N n) s) EmptyString l.

(** A byte [10xxxxxx] continues the character begun before it. *)
Definition isContinuation (b : ascii) : bool :=
  ((128 <=? byte b) && (byte b <? 192))%N.

(** The characters of a string: each lead byte with the continuation bytes
    that follow it. *)
Fixpoint characters (s : string) : list string :=
  match s with
  | EmptyString => []
  | String b rest =>
      match characters rest with
      | String c tail :: more =>
          if isContinuation c then String b (String c tail) :: more
          else String b EmptyString :: String c tail :: more
      | other => String b EmptyString :: other
      end
  end.

(** [WhiteSpace] and [LineTerminator] of ECMAScript, which
    [String.prototype.trim] removes, in UTF-8. *)
Definition whiteSpace : list string :=
  map bytes
    [ [9]; [10]; [11]; [12]; [13]; [32];      (* TAB LF VT FF CR SP *)
      [194; 160];                             (* U+00A0 *)
      [225; 154; 128];                        (* U+1680 *)
      [226; 128; 128]; [226; 128; 129]; [226; 128; 130]; [226; 128; 131];
      [226; 128; 132]; [226; 128; 133]; [226; 128; 134]; [226; 128; 135];
      [226; 128; 136]; [226; 128; 137]; [226; 128; 138];  (* U+2000-200A *)
      [226; 128; 168]; [226; 128; 169];       (* U+2028 U+2029 *)
      [226; 128; 175];                        (* U+202F *)
      [226; 129; 159];                        (* U+205F *)
      [227; 128; 128];                        (* U+3000 *)
      [239; 187; 191] ]%N.                    (* U+FEFF *)

Definition isWhiteSpace (c : string) : bool :=
  existsb (String.eqb c) whiteSpace.

Fixpoint dropWhile {A} (p : A -> bool) (l : list A) : list A :=
  match l with
  | [] => []
  | x :: l' => if p x then dropWhile p l' else l
  end.

Definition dropEndWhile {A} (p : A -> bool) (l : list A) : list A :=
  fold_right (fun x acc => match acc with
                           | [] => if p x then [] else [x]
                           | _ => x :: acc
                           end) [] l.

Definition trimStart (s : string) : string :=
  String.concat "" (dropWhile isWhiteSpace (characters s)).

Definition trimEnd (s : string) : string :=
  String.concat "" (dropEndWhile isWhiteSpace (characters s)).

(** [s.trim()] *)
Definition trim (s : string) : string :=
  String.concat ""
    (dropEndWhile isWhiteSpace (dropWhile isWhiteSpace (characters s))).

(** Every character of [s] is white space. *)
Definition blank (s : string) : bool := forallb isWhiteSpace (characters s).

(** The low six bits of the byte at position [i] of [rest]. *)
Definition tail6 (i : nat) (rest : string) : N :=
  match String.get i rest with
  | Some b => (byte b mod 64)%N
  | None => 0%N
  end.

(** The code point that the bytes of one character stand for. *)
Definition codePoint (c : string) : N :=
  match c with
  | EmptyString => 0
  | String b rest =>
      let n := byte b in
      if n <? 192 then n
      else if n <? 224 then (n - 192) * 64 + tail6 0 rest
      else if n <? 240 then
        (n - 224) * 4096 + tail6 0 rest * 64 + tail6 1 rest
      else
        (n - 240) * 262144 + tail6 0 rest * 4096 + tail6 1 rest * 64
        + tail6 2 rest
  end%N.

(** A character of four bytes lies beyond U+FFFF and takes two code
    units, a high and a low surrogate. *)
Definition isAstral (c : string) : bool :=
  match c with
  | String b _ => (240 <=? byte b)%N
  | EmptyString => false
  end.

Definition highSurrogateOf (c : string) : N :=
  (55296 + (codePoint c - 65536) / 1024)%N.

Definition lowSurrogateOf (c : string) : N :=
  (56320 + (codePoint c - 65536) mod 1024)%N.

Definition codeUnitsOf (c : string) : list N :=
  if isAstral c then [highSurrogateOf c; lowSurrogateOf c]
  else [codePoint c].

(** The UTF-16 code units of [s]. *)
Definition codeUnits (s : string) : list N :=
  flat_map codeUnitsOf (characters s).

(** [s.length] *)
Definition length (s : string) : nat := List.length (codeUnits s).

(** The three bytes of a code unit that stands alone. *)
Definition loneSurrogate (u : N) : string :=
  bytes [224 + u / 4096; 128 + (u / 64) mod 64; 128 + u mod 64]%N.

(** The characters that make up the first [n] code units; a cut between
    the two surrogates of a character leaves the high one. *)
Fixpoint takeUnits (n : nat) (cs : list string) : list string :=
  match cs with
  | [] => []
  | c :: cs' =>
      match n with
      | O => []
      | S O => [if isAstral c then loneSurrogate (highSurrogateOf c) else c]
      | S (S n'' as n') =>
          c :: takeUnits (if isAstral c then n'' else n') cs'
      end
  end.

(** [s.substring(0, n)] *)
Definition substring0 (n : nat) (s : string) : string :=
  String.concat "" (takeUnits n (characters s)).

(** Truthiness of a string: only the empty string is falsy. *)
Definition truthy (s : string) : bool :=
  match s with EmptyString => false | _ => true end.

(** [x || d] where [x : string | undefined | null]. *)
Definition or_string (x : option string) (d : string) : string :=
  match x with
  | Some s => if truthy s then s else d
  | None => d
  end.

(** Truthiness of a number: [0], [-0] and [NaN] are falsy. *)
Definition truthy_number (x : float) : bool :=
  negb (PrimFloat.is_zero x || PrimFloat.is_nan x).

(** [x || d] where [x : number | undefined]. *)
Definition or_number (x : option float) (d : float) : float :=
  match x with
  | Some f => if truthy_number f then f else d
  | None => d
  end.

(** [`${n}`] for an integer-valued number. *)
Definition number_to_string (n : Z) : string :=
  NilZero.string_of_int (Z.to_int n).

(** [Array.prototype.join]. *)
Definition join (sep : string) (l : list string) : string :=
  String.concat sep l.

(** [hay.includes(needle)]. *)
Fixpoint includes (hay needle : string) : bool :=
  if prefix needle hay then true
  else match hay with
       | EmptyString => false
       | String _ hay' => includes hay' needle
       end.

(** [l.slice(-n)]: the last [n] elements. *)
Definition slice_last {A : Type} (n : nat) (l : list A) : list A :=
  skipn (List.length l - n) l.

(** [l.some(p)] is [existsb p l]; [l.filter(p)] is [filter p l]. *)

End Js.

(** [needle] occurs in [hay] as a contiguous run of code units. *)
Definition occurs_in (needle hay : string) : Prop :=
  exists pre post, hay = pre ++ needle ++ post.

(* ====================================================================== *)
(** ** Results of fallible code and the effect monad                       *)
(* ====================================================================== *)

(** A thrown [Error]; the server only ever inspects [error.message]. *)
Record Error := mkError { message : string }.

Inductive Res (A : Type) : Type :=
| Ok (a : A)
| Throw (e : Error).
Arguments Ok {A} a.
Arguments Throw {A} e.

(* ====================================================================== *)
(** ** Data                                                                *)
(* ====================================================================== *)

(** *** openai.ts *)

Inductive Role := system | user | assistant.

(** [interface ChatMessage] *)
Record ChatMessage := mkChatMessage {
  role : Role;
  content : string
}.

Record Usage := mkUsage {
  prompt_tokens : Z;
  completion_tokens : Z;
  total_tokens : Z
}.

(** [interface ChatResponse] *)
Record ChatResponse := mkChatResponse {
  response_content : string;
  response_usage : option Usage
}.

(** Argument of [openai.chat.completions.create]. *)
Record ChatCompletionRequest := mkChatCompletionRequest {
  req_model : string;
  req_messages : list ChatMessage;
  req_temperature : float;
  req_max_tokens : Z
}.

(** What the completion endpoint answers: [choices[i].message.content] may be
    [null], [usage] may be missing. *)
Record ChatCompletion := mkChatCompletion {
  choices : list (option string);
  usage : option Usage
}.

(** *** pinecone.ts *)

(** The [metadata] object of [DocumentChunk] and [SearchResult]. *)
Record Metadata := mkMetadata {
  documentId : Z;
  documentName : string;
  userId : Z;
  chunkIndex : Z;
  pageNumber : option Z
}.

(** [interface DocumentChunk] *)
Record DocumentChunk := mkDocumentChunk {
  chunk_id : string;
  chunk_text : string;
  chunk_metadata : Metadata
}.

(** Metadata as stored with a vector: [{...chunk.metadata, text: chunk.text}].
    Records written by other means may lack [text]. *)
Record RecordMetadata := mkRecordMetadata {
  fields : Metadata;
  text : option string
}.

(** One vector of the index, as passed to [index.upsert]. *)
Record VectorRecord := mkVectorRecord {
  vec_id : string;
  vec_values : list float;
  vec_metadata : option RecordMetadata
}.

(** One element of [response.matches]: [score] and [metadata] are optional
    in the client's type. *)
Record Match := mkMatch {
  match_id : string;
  match_score : option float;
  match_metadata : option RecordMetadata
}.

(** Argument of [index.query]; [filter: { userId }] is an equality
    condition on the metadata field [userId]. *)
Record QueryRequest := mkQueryRequest {
  q_vector : list float;
  q_topK : nat;
  q_filter_userId : Z;
  q_includeMetadata : bool
}.

Record QueryResponse := mkQueryResponse {
  matches : option (list Match)
}.

(** [interface SearchResult].  [metadata] is [match.metadata as any]: the cast
    checks nothing, so it is [undefined] whenever the match had none. *)
Record SearchResult := mkSearchResult {
  result_id : string;
  score : float;
  metadata : option Metadata;
  result_text : string
}.

(** A collection of the hosted vector index. *)
Record IndexModel := mkIndexModel {
  ix_name : string;
  ix_dimension : Z;
  ix_metric : string;
  ix_ready_at : Z;   (* instant from which the collection reports ready *)
  ix_records : list VectorRecord
}.

(** *** langchain.ts *)

(** [interface ProcessedDocument] *)
Record ProcessedDocument := mkProcessedDocument {
  chunks : list DocumentChunk;
  pageCount : option Z
}.

(** *** Rows of the session store *)

(** Modelled from the spec: the row types [ChatSession], [InsertChatSession],
    [Message] and [InsertMessage] are declared in [@shared/schema], which is
    not part of the sources at hand.  Section 3 gives a chat session an
    identity, an owning user, a title, an optional cached last-message
    preview and created/updated timestamps, and a message an identity, a
    parent session, a role, text content, an optional sources marker and a
    creation timestamp. *)
Record ChatSession := mkChatSession {
  session_id : Z;
  session_userId : Z;
  session_title : string;
  lastMessage : option string;
  session_createdAt : Z;
  updatedAt : Z
}.

Record InsertChatSession := mkInsertChatSession {
  ins_session_userId : Z;
  ins_session_title : string;
  ins_lastMessage : option string
}.

(** [Partial<ChatSession>]: every field may be left out. *)
Record PartialChatSession := mkPartialChatSession {
  upd_id : option Z;
  upd_userId : option Z;
  upd_title : option string;
  upd_lastMessage : option (option string);
  upd_createdAt : option Z;
  upd_updatedAt : option Z
}.

(** The sources marker: [{ hasContext: true }] or [null]. *)
Record Sources := mkSources { hasContext : bool }.

Record Message := mkMessage {
  msg_id : Z;
  sessionId : Z;
  msg_role : Role;
  msg_content : string;
  sources : option Sources;
  createdAt : Z
}.

Record InsertMessage := mkInsertMessage {
  ins_sessionId : Z;
  ins_role : Role;
  ins_content : string;
  ins_sources : option Sources
}.

(* ====================================================================== *)
(** ** [Map<number, V>] with insertion order                               *)
(* ====================================================================== *)

Module JsMap.
Section Ops.
Variable V : Type.

(** Entries in insertion order. *)
Definition t := list (Z * V).

Definition empty : t := [].

Definition get (k : Z) (m : t) : option V :=
  option_map snd (find (fun p => fst p =? k) m).

Definition has (k : Z) (m : t) : bool :=
  existsb (fun p => fst p =? k) m.

(** [set] keeps the position of a key that is present and appends a
    new key. *)
Definition set (k : Z) (v : V) (m : t) : t :=
  if has k m
  then map (fun p => if fst p =? k then (k, v) else p) m
  else (m ++ [(k, v)])%list.

Definition delete (k : Z) (m : t) : t :=
  filter (fun p => negb (fst p =? k)) m.

Definition values (m : t) : list V := map snd m.
End Ops.
End JsMap.

(* ====================================================================== *)
(** ** The server's state and its surroundings                             *)
(* ====================================================================== *)

(** [class MemStorage], restricted to the chat tables (users and documents
    are handled the same way and play no part below). *)
Record MemStorage := mkMemStorage {
  chatSessions : JsMap.t ChatSession;
  messages : JsMap.t Message;
  currentSessionId : Z;
  currentMessageId : Z
}.

(** One vector of an [index.upsert] call: [values] is [embeddings[i]], which
    is [undefined] past the end of [embeddings]. *)
Record UpsertVector := mkUpsertVector {
  up_id : string;
  up_values : option (list float);
  up_metadata : RecordMetadata
}.

(** Calls that leave the process, in the order they are made. *)
Inductive Event :=
| EvReadFile (path : string)
| EvEmbeddingsCreate (model input : string)
| EvChatCompletionsCreate (req : ChatCompletionRequest)
| EvListIndexes
| EvCreateIndex (name : string) (dimension : Z) (metric cloud region : string)
| EvSleep (ms : Z)
| EvUpsert (index : string) (ready : bool) (vectors : list UpsertVector)
| EvQuery (index : string) (req : QueryRequest).

Inductive PineconeOp := OpListIndexes | OpCreateIndex | OpUpsert | OpQuery.

(** [ws.readyState] *)
Inductive ReadyState := CONNECTING | OPEN | CLOSING | CLOSED.

(** What the gateway sends: [{type:'error', message}] or
    [{type:'chat_response', userMessage, aiMessage}]. *)
Inductive ServerMessage :=
| error_message (msg : string)
| chat_response (userMessage aiMessage : Message).

(** What [JSON.parse(data.toString())] yields for an inbound frame. *)
Inductive Inbound :=
| Malformed                                            (* the parse throws *)
| OtherMessage (type : string)                         (* type !== 'chat_message' *)
| ChatMessageIn (sessionId : Z) (content : string) (userId : Z).

(** The collaborators: file system, text splitter, the two model endpoints
    and the hosted vector index.  [None] is a failed request. *)
Record Env := mkEnv {
  PINECONE_INDEX_NAME : option string;
  readFileSync : string -> Res string;
  splitText : string -> list string;
  embeddings_create : string -> string -> option (list (list float));
  chat_completions_create : ChatCompletionRequest -> option ChatCompletion;
  pinecone_fails : PineconeOp -> bool;
  (* the score of a stored vector against the query; [None] when the
     service leaves [score] out of the match *)
  similarity : list float -> list float -> option float;
  provisioning_ms : Z   (* time a new collection needs to become ready *)
}.

Record Sys := mkSys {
  storage : MemStorage;
  indexes : list IndexModel;
  clock : Z;
  trace : list Event;
  console : list string;
  readyState : ReadyState;
  sent : list ServerMessage
}.

Definition set_storage (st : MemStorage) (s : Sys) : Sys :=
  mkSys st (indexes s) (clock s) (trace s) (console s) (readyState s) (sent s).

Definition set_indexes (l : list IndexModel) (s : Sys) : Sys :=
  mkSys (storage s) l (clock s) (trace s) (console s) (readyState s) (sent s).

Definition advance (ms : Z) (s : Sys) : Sys :=
  mkSys (storage s) (indexes s) (clock s + ms) (trace s) (console s)
        (readyState s) (sent s).

Definition record_event (e : Event) (s : Sys) : Sys :=
  mkSys (storage s) (indexes s) (clock s) (trace s ++ [e])%list (console s)
        (readyState s) (sent s).

Definition record_console (l : string) (s : Sys) : Sys :=
  mkSys (storage s) (indexes s) (clock s) (trace s) (console s ++ [l])%list
        (readyState s) (sent s).

Definition record_sent (m : ServerMessage) (s : Sys) : Sys :=
  mkSys (storage s) (indexes s) (clock s) (trace s) (console s)
        (readyState s) (sent s ++ [m])%list.

(** *** The monad: state of the process and its surroundings, plus [throw] *)

Definition M (A : Type) : Type := Sys -> Res A * Sys.

Definition ret {A} (a : A) : M A := fun s => (Ok a, s).

Definition bind {A B} (m : M A) (k : A -> M B) : M B :=
  fun s => match m s with
           | (Ok a, s') => k a s'
           | (Throw e, s') => (Throw e, s')
           end.

Definition throw {A} (e : Error) : M A := fun s => (Throw e, s).

(** [try { m } catch (error) { h error }] *)
Definition try_catch {A} (m : M A) (h : Error -> M A) : M A :=
  fun s => match m s with
           | (Ok a, s') => (Ok a, s')
           | (Throw e, s') => h e s'
           end.

Definition gets {A} (f : Sys -> A) : M A := fun s => (Ok (f s), s).
Definition modify (f : Sys -> Sys) : M unit := fun s => (Ok tt, f s).

Declare Scope js_scope.
Delimit Scope js_scope with js.
Notation "x <- m ;; k" := (bind m (fun x => k))
  (at level 100, m at next level, right associativity) : js_scope.
Notation "m ;;; k" := (bind m (fun _ => k))
  (at level 100, right associativity) : js_scope.
Open Scope js_scope.

(** [Promise.all(ps)]: every promise of [ps] has been started when the
    array is built, so every call is made; the result is the first
    rejection, if any. *)
Fixpoint promise_all {A} (ps : list (M A)) : M (list A) :=
  fun s =>
    match ps with
    | [] => (Ok [], s)
    | p :: ps' =>
        let (r, s1) := p s in
        let (rs, s2) := promise_all ps' s1 in
        (match r, rs with
         | Throw e, _ => Throw e
         | Ok _, Throw e => Throw e
         | Ok a, Ok l => Ok (a :: l)
         end, s2)
    end.

(** [l.map((x, i) => f x i)] *)
Fixpoint mapi_from {A B} (i : Z) (f : A -> Z -> B) (l : list A) : list B :=
  match l with
  | [] => []
  | x :: l' => f x i :: mapi_from (i + 1) f l'
  end.

Definition mapi {A B} (f : A -> Z -> B) (l : list A) : list B :=
  mapi_from 0 f l.

Definition console_error (label : string) : M unit :=
  modify (record_console label).

(** [new Date()] *)
Definition new_Date : M Z := gets clock.

(** [await new Promise(resolve => setTimeout(resolve, ms))] *)
Definition sleep (ms : Z) : M unit :=
  modify (fun s => advance ms (record_event (EvSleep ms) s)).

(** [ws.send(JSON.stringify(m))] *)
Definition ws_send (m : ServerMessage) : M unit :=
  modify (record_sent m).

(** *** Waiting for a remote service

    The event loop runs a handler without interruption from one wait for a
    remote service to the next.  While the handler waits, other frames and
    requests are served and the connection may change state.  A
    [Meanwhile] is what all of that has come to when the wait is over: what
    has become of the store and of the socket, and how much more time has
    passed. *)
Record Meanwhile := mkMeanwhile {
  store_then : MemStorage -> MemStorage;
  socket_then : ReadyState -> ReadyState;
  elapsed : Z
}.

Definition undisturbed : Meanwhile :=
  mkMeanwhile (fun st => st) (fun r => r) 0.

Definition meanwhile (w : Meanwhile) (s : Sys) : Sys :=
  mkSys (store_then w (storage s)) (indexes s) (clock s + elapsed w)
        (trace s) (console s) (socket_then w (readyState s)) (sent s).

(** [await m] where [m] waits for a remote service: when [m] settles,
    with a value or with an error, [w] has happened. *)
Definition awaiting {A} (w : Meanwhile) (m : M A) : M A :=
  fun s => let (r, s1) := m s in (r, meanwhile w s1).

(** What happens around one handled frame: during its wait for the
    retrieval and during its wait for the completion. *)
Record Others := mkOthers {
  whileRetrieving : Meanwhile;
  whileCompleting : Meanwhile
}.

(** No other frame or request, and a connection that stays as it is. *)
Definition alone : Others := mkOthers undisturbed undisturbed.

(* ====================================================================== *)
(** ** The hosted vector index (collaborator, by its contract)             *)
(* ====================================================================== *)

Module Pinecone.

Definition service_error : Error := mkError "PineconeError".

(** The filter [{ userId }] holds of a record exactly when its metadata
    has the field with that value. *)
Definition satisfies_filter (uid : Z) (r : VectorRecord) : bool :=
  match vec_metadata r with
  | Some md => userId (fields md) =? uid
  | None => false
  end.

Definition score_of (m : Match) : float :=
  match match_score m with Some f => f | None => 0%float end.

(** Ranking by descending score. *)
Fixpoint insert_desc (m : Match) (l : list Match) : list Match :=
  match l with
  | [] => [m]
  | x :: l' =>
      if PrimFloat.ltb (score_of x) (score_of m) then m :: l
      else x :: insert_desc m l'
  end.

Definition rank (l : list Match) : list Match :=
  fold_right insert_desc [] l.

Fixpoint upsert_record (v : VectorRecord) (l : list VectorRecord)
  : list VectorRecord :=
  match l with
  | [] => [v]
  | r :: l' =>
      if (vec_id r =? vec_id v)%string then v :: l'
      else r :: upsert_record v l'
  end.

(** The records of a batch; a vector without values is refused. *)
Fixpoint to_records (vs : list UpsertVector) : option (list VectorRecord) :=
  match vs with
  | [] => Some []
  | v :: vs' =>
      match up_values v, to_records vs' with
      | Some x, Some rs =>
          Some (mkVectorRecord (up_id v) x (Some (up_metadata v)) :: rs)
      | _, _ => None
      end
  end.

(** A batch must hold at least one record, and every record its values. *)
Definition validate (vs : list UpsertVector) : option (list VectorRecord) :=
  match vs with
  | [] => None
  | _ => to_records vs
  end.

Definition find_index (name : string) (l : list IndexModel)
  : option IndexModel :=
  find (fun ix => (ix_name ix =? name)%string) l.

Definition replace_index (ix : IndexModel) (l : list IndexModel)
  : list IndexModel :=
  map (fun x => if (ix_name x =? ix_name ix)%string then ix else x) l.

Definition ready (now : Z) (ix : IndexModel) : bool := ix_ready_at ix <=? now.

Section Service.
Variable env : Env.

Definition to_match (req : QueryRequest) (r : VectorRecord) : Match :=
  mkMatch (vec_id r)
          (similarity env (q_vector req) (vec_values r))
          (if q_includeMetadata req then vec_metadata r else None).

(** The answer to a query: the [topK] best-scoring records among those
    that satisfy the filter. *)
Definition answer (req : QueryRequest) (ix : IndexModel) : QueryResponse :=
  mkQueryResponse
    (Some (firstn (q_topK req)
             (rank (map (to_match req)
                      (filter (satisfies_filter (q_filter_userId req))
                              (ix_records ix)))))).

(** [pinecone.listIndexes()] *)
Definition listIndexes : M (list IndexModel) :=
  modify (record_event EvListIndexes) ;;;
  if pinecone_fails env OpListIndexes then throw service_error
  else gets indexes.

(** [pinecone.createIndex({name, dimension, metric, spec})]: the new
    collection reports ready [provisioning_ms] later. *)
Definition createIndex (name : string) (dimension : Z)
           (metric cloud region : string) : M unit :=
  modify (record_event (EvCreateIndex name dimension metric cloud region)) ;;;
  if pinecone_fails env OpCreateIndex then throw service_error
  else
    l <- gets indexes ;;
    now <- gets clock ;;
    match find_index name l with
    | Some _ => throw service_error
    | None =>
        modify (set_indexes
                  (l ++ [mkIndexModel name dimension metric
                           (now + provisioning_ms env) []])%list)
    end.

(** [index.upsert(vectors)] on the collection [name]. *)
Definition upsert (name : string) (vectors : list UpsertVector) : M unit :=
  l <- gets indexes ;;
  now <- gets clock ;;
  match find_index name l with
  | None =>
      modify (record_event (EvUpsert name false vectors)) ;;;
      throw service_error
  | Some ix =>
      modify (record_event (EvUpsert name (ready now ix) vectors)) ;;;
      if pinecone_fails env OpUpsert then throw service_error
      else
        match validate vectors with
        | None => throw service_error
        | Some rs =>
            modify (set_indexes
                      (replace_index
                         (mkIndexModel (ix_name ix) (ix_dimension ix)
                            (ix_metric ix) (ix_ready_at ix)
                            (fold_left (fun acc r => upsert_record r acc)
                                       rs (ix_records ix)))
                         l))
        end
  end.

(** [index.query(req)] on the collection [name]. *)
Definition query (name : string) (req : QueryRequest) : M QueryResponse :=
  modify (record_event (EvQuery name req)) ;;;
  if pinecone_fails env OpQuery then throw service_error
  else
    l <- gets indexes ;;
    match find_index name l with
    | None => throw service_error
    | Some ix => ret (answer req ix)
    end.
End Service.
End Pinecone.

(* ====================================================================== *)
(** ** server/services/openai.ts                                           *)
(* ====================================================================== *)

Section Server.
Variable env : Env.

Definition nl : string := String (ascii_of_nat 10) EmptyString.

(** The indentation that the template literal carries on each line. *)
Definition indent : string := "      ".

(** The two arms of [context ? `...` : "..."]; [undefined] and the empty
    string are falsy. *)
Definition withContext (c : string) : string :=
  "Here is relevant context from the user's documents:" ++ nl ++
  indent ++ nl ++
  indent ++ c ++ nl ++
  indent ++ nl ++
  indent ++ "Use this context to provide accurate and relevant responses. If the context doesn't contain relevant information, you can still provide general assistance.".

Definition withoutContext : string :=
  "Provide helpful and accurate responses to user queries.".

Definition contextSection (context : option string) : string :=
  match context with
  | Some c => if Js.truthy c then withContext c else withoutContext
  | None => withoutContext
  end.

(** The [content] of [systemMessage]: the template literal, line by line. *)
Definition systemContent (context : option string) : string :=
  "You are a helpful AI assistant powered by GPT-4. You have access to a knowledge base through RAG (Retrieval-Augmented Generation)." ++ nl ++
  indent ++ nl ++
  indent ++ contextSection context ++ nl ++
  indent ++ nl ++
  indent ++ "Always be concise, helpful, and cite sources when using information from the provided context.".

Definition systemMessage (context : option string) : ChatMessage :=
  mkChatMessage system (systemContent context).

(** [openai.chat.completions.create(req)] *)
Definition chat_create (req : ChatCompletionRequest) : M ChatCompletion :=
  modify (record_event (EvChatCompletionsCreate req)) ;;;
  match chat_completions_create env req with
  | Some r => ret r
  | None => throw (mkError "APIError")
  end.

(** [openai.embeddings.create({model, input})], giving
    [response.data.map(d => d.embedding)]. *)
Definition embeddings (model input : string) : M (list (list float)) :=
  modify (record_event (EvEmbeddingsCreate model input)) ;;;
  match embeddings_create env model input with
  | Some r => ret r
  | None => throw (mkError "APIError")
  end.

Definition TypeError : Error :=
  mkError "TypeError: Cannot read properties of undefined".

Definition generateChatResponse (messages : list ChatMessage)
           (context : option string) : M ChatResponse :=
  try_catch
    (response <- chat_create
                   (mkChatCompletionRequest "gpt-4o"
                      (systemMessage context :: messages) 0.7%float 1000) ;;
     match choices response with
     | c :: _ =>
         ret (mkChatResponse (Js.or_string c "") (usage response))
     | [] => throw TypeError
     end)
    (fun error =>
       console_error "OpenAI API error:" ;;;
       throw (mkError "Failed to generate chat response")).

Definition generateEmbedding (text : string) : M (list float) :=
  try_catch
    (response <- embeddings "text-embedding-ada-002" text ;;
     match response with
     | e :: _ => ret e
     | [] => throw TypeError
     end)
    (fun error =>
       console_error "OpenAI embedding error:" ;;;
       throw (mkError "Failed to generate embedding")).

(* ==================================================================== *)
(** ** server/services/pinecone.ts                                       *)
(* ==================================================================== *)

Definition indexName : string :=
  Js.or_string (PINECONE_INDEX_NAME env) "chatbot-knowledge-base".

(** Returns the handle [pinecone.index(indexName)], which is the name. *)
Definition initializePinecone : M string :=
  try_catch
    (indexes <- Pinecone.listIndexes env ;;
     let indexExists :=
       existsb (fun index => (ix_name index =? indexName)%string) indexes in
     (if negb indexExists then
        Pinecone.createIndex env indexName 1536 "cosine" "aws" "us-east-1" ;;;
        (* Wait for index to be ready *)
        sleep 10000
      else ret tt) ;;;
     ret indexName)
    (fun error =>
       console_error "Pinecone initialization error:" ;;;
       throw (mkError "Failed to initialize Pinecone")).

Definition upsertDocumentChunks (chunks : list DocumentChunk)
           (embeddings : list (list float)) : M unit :=
  try_catch
    (index <- initializePinecone ;;
     let vectors :=
       mapi (fun chunk i =>
               mkUpsertVector (chunk_id chunk)
                 (nth_error embeddings (Z.to_nat i))
                 (mkRecordMetadata (chunk_metadata chunk)
                                   (Some (chunk_text chunk))))
            chunks in
     Pinecone.upsert env index vectors)
    (fun error =>
       console_error "Pinecone upsert error:" ;;;
       throw (mkError "Failed to store document chunks")).

(** One element of [response.matches.map(match => ...)]. *)
Definition toSearchResult (m : Match) : SearchResult :=
  mkSearchResult
    (match_id m)
    (Js.or_number (match_score m) 0%float)
    (option_map fields (match_metadata m))
    (Js.or_string
       (match match_metadata m with Some md => text md | None => None end)
       "").

(** [response.matches?.map(...) || []] *)
Definition toSearchResults (response : QueryResponse) : list SearchResult :=
  match matches response with
  | Some ms => map toSearchResult ms
  | None => []
  end.

Definition searchSimilarChunks (queryEmbedding : list float) (userId : Z)
           (topK : nat) : M (list SearchResult) :=
  try_catch
    (index <- initializePinecone ;;
     response <- Pinecone.query env index
                   (mkQueryRequest queryEmbedding topK userId true) ;;
     ret (toSearchResults response))
    (fun error =>
       console_error "Pinecone search error:" ;;;
       throw (mkError "Failed to search document chunks")).

(* ==================================================================== *)
(** ** server/storage.ts                                                 *)
(* ==================================================================== *)

(** [new MemStorage()] *)
Definition newMemStorage : MemStorage :=
  mkMemStorage (JsMap.empty _) (JsMap.empty _) 1 1.

Definition getChatSession (id : Z) : M (option ChatSession) :=
  gets (fun s => JsMap.get id (chatSessions (storage s))).

Definition createChatSession (insertSession : InsertChatSession)
  : M ChatSession :=
  st <- gets storage ;;
  let id := currentSessionId st in
  now <- new_Date ;;
  let session :=
    mkChatSession id (ins_session_userId insertSession)
      (ins_session_title insertSession)
      (match ins_lastMessage insertSession with
       | Some l => if Js.truthy l then Some l else None
       | None => None
       end)
      now now in
  modify (set_storage
            (mkMemStorage (JsMap.set id session (chatSessions st))
                          (messages st) (id + 1) (currentMessageId st))) ;;;
  ret session.

(** [{ ...session, ...updates, updatedAt: now }] *)
Definition spread (session : ChatSession) (updates : PartialChatSession)
           (now : Z) : ChatSession :=
  let pick {A} (u : option A) (d : A) : A :=
    match u with Some x => x | None => d end in
  mkChatSession (pick (upd_id updates) (session_id session))
                (pick (upd_userId updates) (session_userId session))
                (pick (upd_title updates) (session_title session))
                (pick (upd_lastMessage updates) (lastMessage session))
                (pick (upd_createdAt updates) (session_createdAt session))
                now.

Definition updateChatSession (id : Z) (updates : PartialChatSession)
  : M (option ChatSession) :=
  st <- gets storage ;;
  match JsMap.get id (chatSessions st) with
  | None => ret None
  | Some session =>
      now <- new_Date ;;
      let updated := spread session updates now in
      modify (set_storage
                (mkMemStorage (JsMap.set id updated (chatSessions st))
                              (messages st) (currentSessionId st)
                              (currentMessageId st))) ;;;
      ret (Some updated)
  end.

(** The [forEach] of [deleteChatSession]: one [messages.delete(msg.id)]
    per selected message, in turn. *)
Definition deleteEach (selected : list Message) (m : JsMap.t Message)
  : JsMap.t Message :=
  fold_left (fun acc msg => JsMap.delete (msg_id msg) acc) selected m.

Definition deleteChatSession (id : Z) : M bool :=
  st <- gets storage ;;
  let selected :=
    filter (fun msg => sessionId msg =? id) (JsMap.values (messages st)) in
  let messages' := deleteEach selected (messages st) in
  modify (set_storage
            (mkMemStorage (JsMap.delete id (chatSessions st)) messages'
                          (currentSessionId st) (currentMessageId st))) ;;;
  ret (JsMap.has id (chatSessions st)).

(** Stable insertion in ascending [createdAt], as [Array.prototype.sort]
    with the comparator [a.createdAt - b.createdAt]. *)
Fixpoint insertByCreatedAt (x : Message) (l : list Message) : list Message :=
  match l with
  | [] => [x]
  | y :: l' =>
      if createdAt x <? createdAt y then x :: l
      else y :: insertByCreatedAt x l'
  end.

Definition sortByCreatedAt (l : list Message) : list Message :=
  fold_left (fun acc x => insertByCreatedAt x acc) l [].

Definition getMessagesBySessionId (sid : Z) : M (list Message) :=
  gets (fun s =>
          sortByCreatedAt
            (filter (fun msg => sessionId msg =? sid)
                    (JsMap.values (messages (storage s))))).

Definition createMessage (insertMessage : InsertMessage) : M Message :=
  st <- gets storage ;;
  let id := currentMessageId st in
  now <- new_Date ;;
  let message :=
    mkMessage id (ins_sessionId insertMessage) (ins_role insertMessage)
              (ins_content insertMessage) (ins_sources insertMessage) now in
  modify (set_storage
            (mkMemStorage (chatSessions st)
                          (JsMap.set id message (messages st))
                          (currentSessionId st) (id + 1))) ;;;
  ret message.

(* ==================================================================== *)
(** ** server/services/langchain.ts                                      *)
(* ==================================================================== *)

(** [fs.readFileSync(path, 'utf-8')] *)
Definition fs_readFileSync (path : string) : M string :=
  modify (record_event (EvReadFile path)) ;;;
  match readFileSync env path with
  | Ok t => ret t
  | Throw e => throw e
  end.

Definition emptyDocumentMessage : string :=
  "Document appears to be empty or unreadable".

Definition processDocument (filePath : string) (documentId : Z)
           (documentName : string) (userId : Z) (mimeType : string)
  : M ProcessedDocument :=
  try_catch
    (text <-
       (if (mimeType =? "text/plain")%string then fs_readFileSync filePath
        else if ((mimeType =? "application/pdf")%string
                 || (mimeType =? "application/vnd.openxmlformats-officedocument.wordprocessingml.document")%string)%bool
        then
          try_catch (fs_readFileSync filePath)
            (fun _ => throw (mkError "PDF and DOCX processing requires additional setup. Please upload TXT files for now."))
        else throw (mkError ("Unsupported file type: " ++ mimeType))) ;;
     (if negb (Js.truthy (Js.trim text))
      then throw (mkError emptyDocumentMessage)
      else ret tt) ;;;
     let chunks := splitText env text in
     let documentChunks :=
       mapi (fun chunk index =>
               mkDocumentChunk
                 (Js.number_to_string documentId ++ "-"
                    ++ Js.number_to_string index)
                 chunk
                 (mkMetadata documentId documentName userId index None))
            chunks in
     embeddings <-
       promise_all
         (map (fun chunk => generateEmbedding (chunk_text chunk))
              documentChunks) ;;
     upsertDocumentChunks documentChunks embeddings ;;;
     ret (mkProcessedDocument documentChunks (Some 1)))
    (fun error =>
       console_error "Document processing error:" ;;;
       throw (mkError ("Failed to process document: " ++ message error))).

(** [result.metadata.pageNumber || 'unknown'] *)
Definition pageLabel (p : option Z) : string :=
  match p with
  | Some n => if n =? 0 then "unknown" else Js.number_to_string n
  | None => "unknown"
  end.

(** The template of one context entry; reading [documentName] off a
    missing [metadata] is a [TypeError]. *)
Definition formatResult (result : SearchResult) : Res string :=
  match metadata result with
  | Some md =>
      Ok ("[" ++ documentName md ++ ", page " ++ pageLabel (pageNumber md)
              ++ "]: " ++ result_text result)
  | None => Throw TypeError
  end.

(** [l.map(f)] where [f] may throw: the first throw ends the loop. *)
Fixpoint mapRes {A B} (f : A -> Res B) (l : list A) : Res (list B) :=
  match l with
  | [] => Ok []
  | x :: l' =>
      match f x with
      | Throw e => Throw e
      | Ok y => match mapRes f l' with
                | Throw e => Throw e
                | Ok ys => Ok (y :: ys)
                end
      end
  end.

(** Only include high-confidence results. *)
Definition highConfidence (result : SearchResult) : bool :=
  PrimFloat.ltb 0.7%float (score result).

(** Lines 94 to 104 of [generateContextFromQuery]: from the search results
    to the context string. *)
Definition combineChunks (results : list SearchResult) : Res string :=
  if (List.length results =? 0)%nat then Ok ""
  else
    match mapRes formatResult (filter highConfidence results) with
    | Throw e => Throw e
    | Ok entries => Ok (Js.join (nl ++ nl) entries)
    end.

Definition lift {A} (r : Res A) : M A := fun s => (r, s).

Definition generateContextFromQuery (query : string) (userId : Z)
  : M string :=
  try_catch
    (queryEmbedding <- generateEmbedding query ;;
     results <- searchSimilarChunks queryEmbedding userId 5 ;;
     lift (combineChunks results))
    (fun error =>
       console_error "Context generation error:" ;;;
       ret "").

(* ==================================================================== *)
(** ** server/routes.ts: the WebSocket [message] handler                 *)
(* ==================================================================== *)

(** [!session || session.userId !== userId] *)
Definition unauthorized (session : option ChatSession) (uid : Z) : bool :=
  match session with
  | None => true
  | Some s => negb (session_userId s =? uid)
  end.

(** [content.length > 100 ? content.substring(0, 100) + '...' : content] *)
Definition lastMessagePreview (content : string) : string :=
  if (100 <? Js.length content)%nat
  then Js.substring0 100 content ++ "..."
  else content.

Definition isOpen (r : ReadyState) : bool :=
  match r with OPEN => true | _ => false end.

(** The [try] block of the handler.  The two calls that wait for remote
    services are [generateContextFromQuery] and [generateChatResponse]; the
    store is in memory, and a call to it does not let another frame in. *)
Definition handleFrame (others : Others) (data : Inbound) : M unit :=
  match data with
  | Malformed => throw (mkError "SyntaxError")
  | OtherMessage _ => ret tt
  | ChatMessageIn sessionId content userId =>
      (* Verify user owns the session *)
      session <- getChatSession sessionId ;;
      if unauthorized session userId then
        ws_send (error_message "Unauthorized")
      else
        (* Save user message *)
        userMessage <-
          createMessage (mkInsertMessage sessionId user content None) ;;
        (* Generate context from user's documents *)
        context <-
          awaiting (whileRetrieving others)
                   (generateContextFromQuery content userId) ;;
        (* Generate AI response *)
        messages <- getMessagesBySessionId sessionId ;;
        let chatHistory :=
          map (fun msg => mkChatMessage (msg_role msg) (msg_content msg))
              (Js.slice_last 10 messages) in
        response <-
          awaiting (whileCompleting others)
                   (generateChatResponse chatHistory (Some context)) ;;
        (* Save AI response *)
        aiMessage <-
          createMessage
            (mkInsertMessage sessionId assistant
               (response_content response)
               (if Js.truthy context then Some (mkSources true)
                else None)) ;;
        (* Update session with last message *)
        updateChatSession sessionId
          (mkPartialChatSession None None None
             (Some (Some (lastMessagePreview content))) None None) ;;;
        (* Send response back to client *)
        state <- gets readyState ;;
        if isOpen state then ws_send (chat_response userMessage aiMessage)
        else ret tt
  end.

(** [ws.on('message', async (data) => { try { ... } catch (error) { ... } })] *)
Definition onMessage (others : Others) (data : Inbound) : M unit :=
  try_catch
    (handleFrame others data)
    (fun error =>
       console_error "WebSocket message error:" ;;;
       state <- gets readyState ;;
       if isOpen state
       then ws_send (error_message "Failed to process message")
       else ret tt).

End Server.

(** A file of white space only: a byte order mark, a space, the ideographic
    space U+3000, the line separator U+2028 and a line feed. *)
Definition blankText : string :=
  Js.bytes [239; 187; 191; 32; 227; 128; 128; 226; 128; 168; 10]%N.

(** A small world to run the server in: one readable text file, one blank
    file, a splitter that keeps the text whole, endpoints that answer, and
    an index that scores every stored vector 0.9. *)
Definition exampleEnv : Env :=
  mkEnv None
        (fun p => if (p =? "/uploads/a.txt")%string
                  then Ok "hello world, this is a test document"
                  else if (p =? "/uploads/blank.txt")%string
                       then Ok blankText
                       else Throw (mkError "ENOENT: no such file or directory"))
        (fun t => [t])
        (fun _ _ => Some [[1%float]])
        (fun _ => Some (mkChatCompletion [Some "It says hello."] None))
        (fun _ => false)
        (fun _ _ => Some 0.9%float)
        2000.

Definition exampleSys : Sys :=
  mkSys newMemStorage [] 0 [] [] OPEN [].

Unset Implicit Arguments.

(* ====================================================================== *)
(** ** Facts about the JavaScript primitives                               *)
(* ====================================================================== *)

Lemma append_assoc (a b c : string) : (a ++ b) ++ c = a ++ (b ++ c).
Proof. induction a as [|x a IH]; simpl; [reflexivity | now rewrite IH]. Qed.

Lemma append_empty_r (a : string) : a ++ "" = a.
Proof. induction a as [|x a IH]; simpl; [reflexivity | now rewrite IH]. Qed.

Lemma length_append (a b : string) :
  String.length (a ++ b) = (String.length a + String.length b)%nat.
Proof. induction a as [|x a IH]; simpl; [reflexivity | now rewrite IH]. Qed.

Lemma prefix_spec (needle hay : string) :
  prefix needle hay = true <-> exists post, hay = needle ++ post.
Proof.
  revert hay. induction needle as [|a needle IH]; intros hay.
  - destruct hay; simpl; (split; [intros _; eexists; reflexivity | reflexivity]).
  - destruct hay as [|b hay]; simpl.
    + split; [discriminate | intros [post H]; discriminate].
    + destruct (ascii_dec a b) as [->|Hab].
      * rewrite IH. split; intros [post H]; exists post.
        -- now rewrite H.
        -- now inversion H.
      * split; [discriminate|]. intros [post H]. simpl in H. congruence.
Qed.

Lemma includes_eq (hay needle : string) :
  Js.includes hay needle =
  if prefix needle hay then true
  else match hay with
       | EmptyString => false
       | String _ hay' => Js.includes hay' needle
       end.
Proof. destruct hay; reflexivity. Qed.

Lemma includes_spec (hay needle : string) :
  Js.includes hay needle = true <-> occurs_in needle hay.
Proof.
  split.
  - induction hay as [|a hay IH]; rewrite includes_eq;
      destruct (prefix needle _) eqn:P.
    + intros _. apply prefix_spec in P. destruct P as [post P].
      exists "", post. exact P.
    + discriminate.
    + intros _. apply prefix_spec in P. destruct P as [post P].
      exists "", post. exact P.
    + intros H. destruct (IH H) as (pre & post & E).
      exists (String a pre), post. simpl. now rewrite E.
  - intros (pre & post & E). revert hay E.
    induction pre as [|a pre IH]; intros hay E; rewrite includes_eq.
    + simpl in E.
      assert (P : prefix needle hay = true)
        by (apply prefix_spec; now exists post).
      now rewrite P.
    + simpl in E. subst hay.
      destruct (prefix needle _); [reflexivity|]. now apply IH.
Qed.

Lemma not_includes_spec (hay needle : string) :
  Js.includes hay needle = false -> ~ occurs_in needle hay.
Proof.
  intros H O. apply includes_spec in O. congruence.
Qed.

(** *** Characters *)

Fixpoint allContinuation (s : string) : bool :=
  match s with
  | EmptyString => true
  | String b rest => Js.isContinuation b && allContinuation rest
  end.

(** A lead byte with its continuation bytes. *)
Definition oneCharacter (c : string) : Prop :=
  exists b rest, c = String b rest /\ allContinuation rest = true.

(** [s] is empty or does not begin in the middle of a character. *)
Definition startsClean (s : string) : Prop :=
  match s with
  | EmptyString => True
  | String b _ => Js.isContinuation b = false
  end.

Lemma characters_head (b : ascii) (rest : string) :
  exists tail more, Js.characters (String b rest) = String b tail :: more.
Proof.
  cbn [Js.characters]. destruct (Js.characters rest) as [|[|c tail] more].
  - now exists "", [].
  - now exists "", ("" :: more).
  - destruct (Js.isContinuation c); eexists _, _; reflexivity.
Qed.

Lemma characters_one (c : string) :
  oneCharacter c -> Js.characters c = [c].
Proof.
  intros (b & rest & -> & H). revert b H.
  induction rest as [|x rest IH]; intros b H; [reflexivity|].
  cbn [allContinuation] in H. apply andb_true_iff in H. destruct H as [Hx Hr].
  cbn [Js.characters]. change (Js.characters (String x rest)) with
    (Js.characters (String x rest)).
  pose proof (IH x Hr) as E. cbn [Js.characters] in E. rewrite E.
  now rewrite Hx.
Qed.

Lemma characters_app (a b : string) :
  startsClean b ->
  Js.characters (a ++ b) = (Js.characters a ++ Js.characters b)%list.
Proof.
  intros Hb. induction a as [|x a IH]; [reflexivity|].
  cbn [append Js.characters]. rewrite IH.
  destruct a as [|y a].
  - cbn [Js.characters app]. destruct b as [|z b]; [reflexivity|].
    destruct (characters_head z b) as (tail & more & E). rewrite E.
    cbn in Hb. now rewrite Hb.
  - destruct (characters_head y a) as (tail & more & E). rewrite E.
    cbn [app]. destruct (Js.isContinuation y); reflexivity.
Qed.

Lemma concat_cons (c : string) (l : list string) :
  String.concat "" (c :: l) = c ++ String.concat "" l.
Proof.
  destruct l as [|d l]; cbn [String.concat]; [now rewrite append_empty_r|].
  reflexivity.
Qed.

Definition cleanCharacter (c : string) : Prop :=
  oneCharacter c /\ startsClean c.

Lemma concat_startsClean (l : list string) :
  Forall cleanCharacter l -> startsClean (String.concat "" l).
Proof.
  intros H. destruct H as [|c l [(b & rest & -> & _) Hc] _]; [exact I|].
  rewrite concat_cons. exact Hc.
Qed.

Lemma characters_concat (c : string) (l : list string) :
  oneCharacter c -> Forall cleanCharacter l ->
  Js.characters (String.concat "" (c :: l)) = c :: l.
Proof.
  revert c. induction l as [|d l IH]; intros c Hc Hl.
  - cbn [String.concat]. now apply characters_one.
  - rewrite concat_cons, characters_app by now apply concat_startsClean.
    rewrite (characters_one c Hc).
    inversion Hl as [|? ? [Hd _] Hl']. subst.
    now rewrite (IH d Hd Hl').
Qed.

Lemma characters_split (s : string) :
  match Js.characters s with
  | [] => s = ""
  | c :: l => oneCharacter c /\ Forall cleanCharacter l
  end.
Proof.
  induction s as [|b s IH]; [reflexivity|].
  cbn [Js.characters].
  destruct (Js.characters s) as [|[|c tail] more].
  - split; [now exists b, ""|constructor].
  - destruct IH as [(x & r & E & _) _]. discriminate E.
  - destruct IH as [(x & r & E & Hr) Hm]. injection E as <- <-.
    destruct (Js.isContinuation c) eqn:C.
    + split; [|exact Hm]. exists b, (String c tail). split; [reflexivity|].
      cbn [allContinuation]. now rewrite C, Hr.
    + split; [now exists b, ""|]. constructor; [|exact Hm].
      split; [now exists c, tail | exact C].
Qed.

Lemma concat_characters (s : string) :
  String.concat "" (Js.characters s) = s.
Proof.
  induction s as [|b s IH]; [reflexivity|].
  cbn [Js.characters].
  destruct (Js.characters s) as [|[|c tail] more].
  - cbn in *. now subst.
  - rewrite concat_cons in IH. rewrite !concat_cons. cbn [append] in *.
    now rewrite IH.
  - rewrite concat_cons in IH.
    destruct (Js.isContinuation c); rewrite !concat_cons;
      cbn [append] in *; now rewrite IH.
Qed.

(** *** [trim] *)

Lemma concat_empty (l : list string) :
  Forall (fun c => c <> "") l -> String.concat "" l = "" -> l = [].
Proof.
  intros H. destruct H as [|c l Hc _]; [reflexivity|].
  rewrite concat_cons. destruct c; [contradiction | discriminate].
Qed.

Lemma characters_nonempty (s : string) :
  Forall (fun c => c <> "") (Js.characters s).
Proof.
  pose proof (characters_split s) as H.
  destruct (Js.characters s) as [|c l]; [constructor|].
  destruct H as [(b & r & -> & _) Hl]. constructor; [discriminate|].
  apply Forall_forall. intros d Hd. rewrite Forall_forall in Hl.
  destruct (Hl d Hd) as [(x & y & -> & _) _]. discriminate.
Qed.

Lemma dropWhile_Forall {A} (P : A -> Prop) (p : A -> bool) (l : list A) :
  Forall P l -> Forall P (Js.dropWhile p l).
Proof.
  induction 1 as [|x l Hx Hl IH]; cbn; [constructor|].
  destruct (p x); [exact IH | now constructor].
Qed.

Lemma dropEndWhile_Forall {A} (P : A -> Prop) (p : A -> bool) (l : list A) :
  Forall P l -> Forall P (Js.dropEndWhile p l).
Proof.
  unfold Js.dropEndWhile.
  induction 1 as [|x l Hx Hl IH]; cbn; [constructor|].
  destruct (fold_right _ [] l); [|now constructor].
  destruct (p x); [constructor | now constructor].
Qed.

Lemma dropEndWhile_nil {A} (p : A -> bool) (l : list A) :
  Js.dropEndWhile p l = [] <-> forallb p l = true.
Proof.
  unfold Js.dropEndWhile. induction l as [|x l IH]; cbn; [tauto|].
  destruct (fold_right _ [] l) eqn:E.
  - destruct (p x); cbn; [tauto|]. split; discriminate.
  - split; [discriminate|]. intros H. apply andb_true_iff in H.
    destruct H as [_ H]. apply IH in H. discriminate H.
Qed.

Lemma forallb_dropWhile {A} (p : A -> bool) (l : list A) :
  forallb p (Js.dropWhile p l) = forallb p l.
Proof.
  induction l as [|x l IH]; cbn; [reflexivity|].
  destruct (p x) eqn:E; cbn; [exact IH | now rewrite E].
Qed.

(** [text.trim()] is the empty string exactly when every character of
    [text] is white space. *)
Lemma trim_empty_iff (s : string) :
  Js.trim s = "" <-> Js.blank s = true.
Proof.
  unfold Js.trim, Js.blank. rewrite <- forallb_dropWhile, <- dropEndWhile_nil.
  split; intros H.
  - apply concat_empty; [|exact H].
    apply dropEndWhile_Forall, dropWhile_Forall, characters_nonempty.
  - now rewrite H.
Qed.

Lemma truthy_false_iff (s : string) : Js.truthy s = false <-> s = "".
Proof. destruct s; simpl; split; congruence. Qed.

Lemma truthy_true_iff (s : string) : Js.truthy s = true <-> s <> "".
Proof. destruct s; simpl; split; congruence. Qed.

(** *** Code units *)

Lemma byte_lt (b : ascii) : (Js.byte b < 256)%N.
Proof. apply N_ascii_bounded. Qed.

Lemma tail6_lt (i : nat) (rest : string) : (Js.tail6 i rest < 64)%N.
Proof.
  unfold Js.tail6. destruct (String.get i rest); [|lia].
  apply N.mod_lt. discriminate.
Qed.

Lemma codePoint_lt (c : string) : (Js.codePoint c < 4194304)%N.
Proof.
  destruct c as [|b rest]; [cbn; lia|]. cbn [Js.codePoint]. cbv zeta.
  pose proof (byte_lt b). pose proof (tail6_lt 0 rest).
  pose proof (tail6_lt 1 rest). pose proof (tail6_lt 2 rest).
  repeat match goal with
         | |- context [(?x <? ?y)%N] => destruct (N.ltb_spec x y)
         end; lia.
Qed.

Lemma highSurrogateOf_lt (c : string) : (Js.highSurrogateOf c < 65536)%N.
Proof.
  unfold Js.highSurrogateOf. pose proof (codePoint_lt c).
  assert ((Js.codePoint c - 65536) / 1024 < 4096)%N; [|lia].
  apply N.Div0.div_lt_upper_bound. lia.
Qed.

Lemma byte_of (n : N) : (n < 256)%N -> Js.byte (ascii_of_N n) = n.
Proof. apply N_ascii_embedding. Qed.

Lemma loneSurrogate_unit (u : N) :
  (u < 65536)%N ->
  cleanCharacter (Js.loneSurrogate u)
  /\ Js.codeUnitsOf (Js.loneSurrogate u) = [u].
Proof.
  intros Hu.
  assert (H1 : (u / 4096 < 16)%N) by (apply N.Div0.div_lt_upper_bound; lia).
  assert (H2 : ((u / 64) mod 64 < 64)%N) by (apply N.mod_lt; discriminate).
  assert (H3 : (u mod 64 < 64)%N) by (apply N.mod_lt; discriminate).
  assert (D : (u = u / 4096 * 4096 + (u / 64) mod 64 * 64 + u mod 64)%N).
  { pose proof (N.div_mod u 64 ltac:(discriminate)) as D1.
    pose proof (N.div_mod (u / 64) 64 ltac:(discriminate)) as D2.
    rewrite N.Div0.div_div in D2. change (64 * 64)%N with 4096%N in D2.
    lia. }
  unfold Js.loneSurrogate, Js.bytes. cbn [fold_right].
  generalize dependent (u / 4096)%N. intros q H1.
  generalize dependent ((u / 64) mod 64)%N. intros m1 H2.
  generalize dependent (u mod 64)%N. intros m0 H3 D.
  set (b0 := ascii_of_N (224 + q)).
  set (b1 := ascii_of_N (128 + m1)).
  set (b2 := ascii_of_N (128 + m0)).
  assert (E0 : Js.byte b0 = (224 + q)%N) by (apply byte_of; lia).
  assert (E1 : Js.byte b1 = (128 + m1)%N) by (apply byte_of; lia).
  assert (E2 : Js.byte b2 = (128 + m0)%N) by (apply byte_of; lia).
  assert (M1 : ((128 + m1) mod 64 = m1)%N).
  { replace (128 + m1)%N with (m1 + 2 * 64)%N by lia.
    rewrite N.Div0.mod_add. now apply N.mod_small. }
  assert (M0 : ((128 + m0) mod 64 = m0)%N).
  { replace (128 + m0)%N with (m0 + 2 * 64)%N by lia.
    rewrite N.Div0.mod_add. now apply N.mod_small. }
  assert (C0 : Js.isContinuation b0 = false).
  { unfold Js.isContinuation. rewrite E0.
    destruct (N.ltb_spec (224 + q) 192); [lia|]. apply andb_false_r. }
  assert (C1 : Js.isContinuation b1 = true).
  { unfold Js.isContinuation. rewrite E1. apply andb_true_iff. split.
    - apply N.leb_le. lia.
    - apply N.ltb_lt. lia. }
  assert (C2 : Js.isContinuation b2 = true).
  { unfold Js.isContinuation. rewrite E2. apply andb_true_iff. split.
    - apply N.leb_le. lia.
    - apply N.ltb_lt. lia. }
  split.
  - split; [|exact C0]. eexists _, _. split; [reflexivity|].
    cbn [allContinuation]. now rewrite C1, C2.
  - unfold Js.codeUnitsOf, Js.isAstral.
    destruct (N.leb_spec 240 (Js.byte b0)); [lia|].
    unfold Js.codePoint. cbv zeta.
    destruct (N.ltb_spec (Js.byte b0) 192); [lia|].
    destruct (N.ltb_spec (Js.byte b0) 224); [lia|].
    destruct (N.ltb_spec (Js.byte b0) 240); [|lia].
    unfold Js.tail6. cbn [String.get]. rewrite E0, E1, E2, M1, M0.
    f_equal. lia.
Qed.

Lemma codeUnitsOf_length (c : string) :
  List.length (Js.codeUnitsOf c) = if Js.isAstral c then 2%nat else 1%nat.
Proof. unfold Js.codeUnitsOf. destruct (Js.isAstral c); reflexivity. Qed.

Lemma takeUnits_units (n : nat) (cs : list string) :
  flat_map Js.codeUnitsOf (Js.takeUnits n cs)
  = firstn n (flat_map Js.codeUnitsOf cs).
Proof.
  revert n. induction cs as [|c cs IH]; intros n.
  - destruct n; reflexivity.
  - destruct n as [|[|n]]; [reflexivity| |].
    + cbn [Js.takeUnits flat_map]. rewrite app_nil_r.
      destruct (Js.isAstral c) eqn:A.
      * rewrite (proj2 (loneSurrogate_unit _ (highSurrogateOf_lt c))).
        unfold Js.codeUnitsOf. now rewrite A.
      * unfold Js.codeUnitsOf. now rewrite A.
    + cbn [Js.takeUnits flat_map]. rewrite IH.
      unfold Js.codeUnitsOf. destruct (Js.isAstral c); reflexivity.
Qed.

Lemma takeUnits_characters (n : nat) (c : string) (cs : list string) :
  oneCharacter c -> Forall cleanCharacter cs ->
  match Js.takeUnits n (c :: cs) with
  | [] => True
  | d :: ds => oneCharacter d /\ Forall cleanCharacter ds
  end.
Proof.
  assert (G : forall cs n, Forall cleanCharacter cs ->
                           Forall cleanCharacter (Js.takeUnits n cs)).
  { induction cs0 as [|x xs IH]; intros m H; [destruct m; constructor|].
    inversion H as [|? ? Hx Hxs]. subst.
    destruct m as [|[|m]]; cbn [Js.takeUnits]; [constructor| |].
    - constructor; [|constructor]. destruct (Js.isAstral x); [|exact Hx].
      exact (proj1 (loneSurrogate_unit _ (highSurrogateOf_lt x))).
    - constructor; [exact Hx | now apply IH]. }
  intros Hc Hcs. destruct n as [|[|n]]; cbn [Js.takeUnits]; [exact I| |].
  - split; [|constructor]. destruct (Js.isAstral c); [|exact Hc].
    exact (proj1 (proj1 (loneSurrogate_unit _ (highSurrogateOf_lt c)))).
  - split; [exact Hc | now apply G].
Qed.

(** [s.substring(0, n)] holds the first [n] code units of [s]. *)
Lemma substring0_units (n : nat) (s : string) :
  Js.codeUnits (Js.substring0 n s) = firstn n (Js.codeUnits s).
Proof.
  unfold Js.codeUnits, Js.substring0. rewrite <- takeUnits_units.
  pose proof (characters_split s) as H.
  destruct (Js.characters s) as [|c cs].
  - destruct n; reflexivity.
  - destruct H as [Hc Hcs].
    pose proof (takeUnits_characters n c cs Hc Hcs) as T.
    destruct (Js.takeUnits n (c :: cs)) as [|d ds]; [reflexivity|].
    destruct T as [Hd Hds]. now rewrite characters_concat.
Qed.

Lemma substring0_length (n : nat) (s : string) :
  (n <= Js.length s)%nat -> Js.length (Js.substring0 n s) = n.
Proof.
  unfold Js.length. rewrite substring0_units, length_firstn. lia.
Qed.

Lemma codeUnits_app (a b : string) :
  startsClean b ->
  Js.codeUnits (a ++ b) = (Js.codeUnits a ++ Js.codeUnits b)%list.
Proof.
  intros H. unfold Js.codeUnits. now rewrite characters_app, flat_map_app.
Qed.

(** Comparison of IEEE values: what is at most a positive finite value is
    not above it. *)
Lemma SFleb_not_SFltb (m0 : positive) (e0 : Z) (X : spec_float) :
  SFleb X (S754_finite false m0 e0) = true ->
  SFltb (S754_finite false m0 e0) X = false.
Proof.
  destruct X as [s|s| |s m e]; unfold SFleb, SFltb, SFcompare.
  - intros _. reflexivity.
  - destruct s; [intros _; reflexivity | intros H; discriminate H].
  - intros H; discriminate H.
  - destruct s; [intros _; reflexivity|].
    rewrite (Z.compare_antisym e e0).
    change (PosDef.Pos.compare_cont Eq m0 m) with (Pos.compare m0 m).
    change (PosDef.Pos.compare_cont Eq m m0) with (Pos.compare m m0).
    rewrite (Pos.compare_antisym m m0).
    destruct (e ?= e0); cbn [CompOpp];
      [destruct (Pos.compare m m0); cbn [CompOpp]| |];
      first [intros _; reflexivity | intros H; discriminate H].
Qed.

(** The threshold comparison, read on the IEEE values. *)
Lemma not_above_threshold (x : float) :
  PrimFloat.leb x 0.7%float = true -> PrimFloat.ltb 0.7%float x = false.
Proof.
  rewrite leb_spec, ltb_spec.
  destruct (Prim2SF 0.7%float) as [s|s| |s m0 e0] eqn:E;
    try (vm_compute in E; discriminate E).
  destruct s; [vm_compute in E; discriminate E|].
  apply SFleb_not_SFltb.
Qed.

(* ====================================================================== *)
(** ** Reasoning about the monad                                           *)
(* ====================================================================== *)

Lemma bind_Ok_inv {A B} (m : M A) (k : A -> M B) (s s' : Sys) (b : B) :
  bind m k s = (Ok b, s') ->
  exists a s1, m s = (Ok a, s1) /\ k a s1 = (Ok b, s').
Proof.
  unfold bind. destruct (m s) as [[a|e] s1]; intros H.
  - now exists a, s1.
  - discriminate.
Qed.

Lemma bind_Ok {A B} (m : M A) (k : A -> M B) (s s1 : Sys) (a : A) :
  m s = (Ok a, s1) -> bind m k s = k a s1.
Proof. unfold bind. now intros ->. Qed.

Lemma bind_Throw {A B} (m : M A) (k : A -> M B) (s s1 : Sys) (e : Error) :
  m s = (Throw e, s1) -> bind m k s = (Throw e, s1).
Proof. unfold bind. now intros ->. Qed.

Lemma try_catch_Ok {A} (m : M A) (h : Error -> M A) (s s1 : Sys) (a : A) :
  m s = (Ok a, s1) -> try_catch m h s = (Ok a, s1).
Proof. unfold try_catch. now intros ->. Qed.

Lemma try_catch_Throw {A} (m : M A) (h : Error -> M A) (s s1 : Sys) (e : Error) :
  m s = (Throw e, s1) -> try_catch m h s = h e s1.
Proof. unfold try_catch. now intros ->. Qed.

(** [m] leaves the observation [f] of the state as it found it. *)
Definition keeps {A B} (f : Sys -> B) (m : M A) : Prop :=
  forall s, f (snd (m s)) = f s.

Section Keeps.
Context {B : Type} (f : Sys -> B).

Lemma keeps_ret {A} (a : A) : keeps f (ret a).
Proof. intros s. reflexivity. Qed.

Lemma keeps_throw {A} (e : Error) : keeps f (@throw A e).
Proof. intros s. reflexivity. Qed.

Lemma keeps_gets {A} (g : Sys -> A) : keeps f (gets g).
Proof. intros s. reflexivity. Qed.

Lemma keeps_lift {A} (r : Res A) : keeps f (lift r).
Proof. intros s. reflexivity. Qed.

Lemma keeps_modify (g : Sys -> Sys) :
  (forall s, f (g s) = f s) -> keeps f (modify g).
Proof. intros H s. apply H. Qed.

Lemma keeps_bind {A C} (m : M A) (k : A -> M C) :
  keeps f m -> (forall a, keeps f (k a)) -> keeps f (bind m k).
Proof.
  intros Hm Hk s. unfold bind. specialize (Hm s).
  destruct (m s) as [[a|e] s1]; simpl in *.
  - now rewrite Hk.
  - exact Hm.
Qed.

Lemma keeps_try_catch {A} (m : M A) (h : Error -> M A) :
  keeps f m -> (forall e, keeps f (h e)) -> keeps f (try_catch m h).
Proof.
  intros Hm Hh s. unfold try_catch. specialize (Hm s).
  destruct (m s) as [[a|e] s1]; simpl in *.
  - exact Hm.
  - now rewrite Hh.
Qed.

Lemma keeps_if {A} (b : bool) (m1 m2 : M A) :
  keeps f m1 -> keeps f m2 -> keeps f (if b then m1 else m2).
Proof. now destruct b. Qed.

Lemma keeps_promise_all {A} (ps : list (M A)) :
  Forall (keeps f) ps -> keeps f (promise_all ps).
Proof.
  induction 1 as [|p ps Hp _ IH]; intros s; simpl; [reflexivity|].
  specialize (Hp s). destruct (p s) as [r s1]. simpl in Hp.
  specialize (IH s1). destruct (promise_all ps s1) as [rs s2]. simpl in *.
  congruence.
Qed.
End Keeps.

Create HintDb keeps.
#[export] Hint Resolve keeps_ret keeps_throw keeps_gets keeps_lift keeps_bind
  keeps_try_catch keeps_if : keeps.

Ltac keeps_step :=
  lazymatch goal with
  | |- keeps _ (ret _) => apply keeps_ret
  | |- keeps _ (throw _) => apply keeps_throw
  | |- keeps _ (gets _) => apply keeps_gets
  | |- keeps _ (lift _) => apply keeps_lift
  | |- keeps _ (bind _ _) => apply keeps_bind; [|intros ?]
  | |- keeps _ (try_catch _ _) => apply keeps_try_catch; [|intros ?]
  | |- keeps _ (modify _) => apply keeps_modify; intros ?; reflexivity
  | |- keeps _ (let _ := _ in _) => cbv zeta
  | |- keeps _ (match ?x with _ => _ end) => destruct x
  end.

Ltac keeps_auto := repeat keeps_step.

(** [m] only ever adds to the record of outside calls. *)
Definition extends {A} (m : M A) : Prop :=
  forall s, exists rest, trace (snd (m s)) = (trace s ++ rest)%list.

Lemma extends_ret {A} (a : A) : extends (ret a).
Proof. intros s. exists []. cbn. now rewrite app_nil_r. Qed.

Lemma extends_throw {A} (e : Error) : extends (@throw A e).
Proof. intros s. exists []. cbn. now rewrite app_nil_r. Qed.

Lemma extends_gets {A} (g : Sys -> A) : extends (gets g).
Proof. intros s. exists []. cbn. now rewrite app_nil_r. Qed.

Lemma extends_modify (g : Sys -> Sys) :
  (forall s, exists rest, trace (g s) = (trace s ++ rest)%list) ->
  extends (modify g).
Proof. intros H s. apply H. Qed.

Lemma extends_bind {A C} (m : M A) (k : A -> M C) :
  extends m -> (forall a, extends (k a)) -> extends (bind m k).
Proof.
  intros Hm Hk s. unfold bind. destruct (Hm s) as [r1 E1].
  destruct (m s) as [[a|e] s1]; cbn [snd] in *.
  - destruct (Hk a s1) as [r2 E2]. exists (r1 ++ r2)%list.
    now rewrite E2, E1, app_assoc.
  - now exists r1.
Qed.

Lemma extends_try_catch {A} (m : M A) (h : Error -> M A) :
  extends m -> (forall e, extends (h e)) -> extends (try_catch m h).
Proof.
  intros Hm Hh s. unfold try_catch. destruct (Hm s) as [r1 E1].
  destruct (m s) as [[a|e] s1]; cbn [snd] in *.
  - now exists r1.
  - destruct (Hh e s1) as [r2 E2]. exists (r1 ++ r2)%list.
    now rewrite E2, E1, app_assoc.
Qed.

Ltac extends_modify_tac :=
  apply extends_modify; intros ?;
  first [ exists []; cbn; now rewrite app_nil_r
        | eexists; cbn; reflexivity ].

Ltac extends_step :=
  lazymatch goal with
  | |- extends (ret _) => apply extends_ret
  | |- extends (throw _) => apply extends_throw
  | |- extends (gets _) => apply extends_gets
  | |- extends (bind _ _) => apply extends_bind; [|intros ?]
  | |- extends (try_catch _ _) => apply extends_try_catch; [|intros ?]
  | |- extends (modify _) => extends_modify_tac
  | |- extends (let _ := _ in _) => cbv zeta
  | |- extends (match ?x with _ => _ end) => destruct x
  end.

Ltac extends_auto := repeat extends_step.

Section Frames.
Variable env : Env.

Lemma console_error_keeps {B} (f : Sys -> B) (l : string) :
  (forall s, f (record_console l s) = f s) -> keeps f (console_error l).
Proof. intros H. now apply keeps_modify. Qed.

(** Nothing in the retrieval or completion path touches the store. *)
Lemma generateEmbedding_keeps_storage (text : string) :
  keeps storage (generateEmbedding env text).
Proof. unfold generateEmbedding, embeddings, console_error. keeps_auto. Qed.

Lemma initializePinecone_keeps_storage :
  keeps storage (initializePinecone env).
Proof.
  unfold initializePinecone, Pinecone.listIndexes, Pinecone.createIndex,
    sleep, console_error.
  keeps_auto.
Qed.

Lemma searchSimilarChunks_keeps_storage (v : list float) (uid : Z) (k : nat) :
  keeps storage (searchSimilarChunks env v uid k).
Proof.
  unfold searchSimilarChunks, Pinecone.query, console_error.
  apply keeps_try_catch; [|intros ?; keeps_auto].
  apply keeps_bind; [apply initializePinecone_keeps_storage|intros ?].
  keeps_auto.
Qed.

Lemma generateContextFromQuery_keeps_storage (query : string) (uid : Z) :
  keeps storage (generateContextFromQuery env query uid).
Proof.
  unfold generateContextFromQuery, console_error.
  apply keeps_try_catch; [|intros ?; keeps_auto].
  apply keeps_bind; [apply generateEmbedding_keeps_storage|intros ?].
  apply keeps_bind; [apply searchSimilarChunks_keeps_storage|intros ?].
  keeps_auto.
Qed.

Lemma generateChatResponse_keeps_storage
      (messages : list ChatMessage) (context : option string) :
  keeps storage (generateChatResponse env messages context).
Proof. unfold generateChatResponse, chat_create, console_error. keeps_auto. Qed.

(** The embedding client never touches the vector index. *)
Lemma generateEmbedding_keeps_indexes (text : string) :
  keeps indexes (generateEmbedding env text).
Proof. unfold generateEmbedding, embeddings, console_error. keeps_auto. Qed.

(** The retriever always answers: its [catch] turns every failure into
    the empty string. *)
Lemma generateContextFromQuery_total (query : string) (uid : Z) (s : Sys) :
  exists ctx s', generateContextFromQuery env query uid s = (Ok ctx, s').
Proof.
  unfold generateContextFromQuery, try_catch.
  match goal with |- context [match ?m s with _ => _ end] =>
    destruct (m s) as [[ctx|e] s1] end.
  - now exists ctx, s1.
  - eexists _, _. reflexivity.
Qed.
End Frames.

(* ====================================================================== *)
(** ** The system instruction of the chat responder                        *)
(* ====================================================================== *)

Section Instruction.
Variable env : Env.

Definition contextHeading : string :=
  "Here is relevant context from the user's documents:".

Definition contextDirective : string := "Use this context".

Lemma systemContent_with_context (c : string) :
  c <> "" ->
  systemContent (Some c) =
  ("You are a helpful AI assistant powered by GPT-4. You have access to a knowledge base through RAG (Retrieval-Augmented Generation)."
     ++ nl ++ indent ++ nl ++ indent ++ contextHeading ++ nl ++ indent ++ nl
     ++ indent)
    ++ c ++
    (nl ++ indent ++ nl ++ indent ++ "Use this context to provide accurate and relevant responses. If the context doesn't contain relevant information, you can still provide general assistance."
        ++ nl ++ indent ++ nl ++ indent
        ++ "Always be concise, helpful, and cite sources when using information from the provided context.").
Proof.
  intros Hc. unfold systemContent, contextSection.
  apply truthy_true_iff in Hc. rewrite Hc.
  unfold withContext, contextHeading.
  repeat rewrite append_assoc. reflexivity.
Qed.

Lemma systemContent_without_context (context : option string) :
  context = None \/ context = Some "" ->
  systemContent context = systemContent None.
Proof. intros [->| ->]; reflexivity. Qed.

(** C5.  Whatever the history and the context, [generateChatResponse]
    makes one completion call whose message list is the system instruction
    followed by the history as given.  With a non-empty context the
    instruction holds the context string verbatim, under its heading; with
    no context, or the empty one, it holds neither the heading nor the
    directive that refers to the context. *)
Theorem generateChatResponse_instruction :
  forall (messages : list ChatMessage) (context : option string) (s : Sys),
    (exists req,
        trace (snd (generateChatResponse env messages context s))
        = (trace s ++ [EvChatCompletionsCreate req])%list
        /\ req_messages req = systemMessage context :: messages
        /\ role (systemMessage context) = system)
    /\ (forall c, context = Some c -> c <> "" ->
                  occurs_in c (content (systemMessage context))
                  /\ occurs_in contextHeading
                               (content (systemMessage context)))
    /\ (context = None \/ context = Some "" ->
        ~ occurs_in contextHeading (content (systemMessage context))
        /\ ~ occurs_in contextDirective (content (systemMessage context))).
Proof.
  intros messages context s. split; [|split].
  - exists (mkChatCompletionRequest "gpt-4o" (systemMessage context :: messages)
                                    0.7%float 1000).
    split; [|split; reflexivity].
    cbv beta iota delta [generateChatResponse try_catch bind chat_create
                           modify console_error throw ret snd].
    destruct (chat_completions_create env _) as [r|].
    + destruct (choices r); reflexivity.
    + reflexivity.
  - intros c -> Hc.
    change (content (systemMessage (Some c))) with (systemContent (Some c)).
    rewrite (systemContent_with_context c Hc). split.
    + eexists _, _. reflexivity.
    + match goal with
      | |- occurs_in _ ((?a ++ ?b ++ ?c ++ ?d ++ ?e ++ ?h ++ ?rest) ++ ?z) =>
          exists (a ++ b ++ c ++ d ++ e), (rest ++ z)
      end.
      repeat rewrite append_assoc. reflexivity.
  - intros H.
    change (content (systemMessage context)) with (systemContent context).
    rewrite (systemContent_without_context context H).
    split; apply not_includes_spec; vm_compute; reflexivity.
Qed.
End Instruction.

Lemma generateChatResponse_instruction_witness :
  occurs_in "[a.txt, page unknown]: hello"
            (content (systemMessage (Some "[a.txt, page unknown]: hello")))
  /\ ~ occurs_in contextHeading (content (systemMessage (Some ""))).
Proof.
  split.
  - apply (@generateChatResponse_instruction exampleEnv
             [] (Some "[a.txt, page unknown]: hello") exampleSys);
      [reflexivity | discriminate].
  - apply (@generateChatResponse_instruction exampleEnv [] (Some "") exampleSys).
    right. reflexivity.
Defined.


(* ====================================================================== *)
(** ** [Map]: lookup after update                                          *)
(* ====================================================================== *)

Section JsMapFacts.
Variable V : Type.
Implicit Types (m : JsMap.t V) (k : Z) (v : V).

Lemma JsMap_get_app_absent m m' k :
  JsMap.has k m = false -> JsMap.get k (m ++ m')%list = JsMap.get k m'.
Proof.
  unfold JsMap.get, JsMap.has.
  induction m as [|p m IH]; simpl; [reflexivity|].
  destruct (fst p =? k); simpl; [discriminate | exact IH].
Qed.

Lemma JsMap_get_set_same m k v : JsMap.get k (JsMap.set k v m) = Some v.
Proof.
  unfold JsMap.set. destruct (JsMap.has k m) eqn:H.
  - unfold JsMap.get, JsMap.has in *.
    induction m as [|p m IH]; simpl in *; [discriminate|].
    destruct (fst p =? k) eqn:E; simpl.
    + now rewrite Z.eqb_refl.
    + rewrite E. now apply IH.
  - rewrite JsMap_get_app_absent by exact H.
    unfold JsMap.get. simpl. now rewrite Z.eqb_refl.
Qed.

Lemma JsMap_get_set_other m k k' v :
  k <> k' -> JsMap.get k' (JsMap.set k v m) = JsMap.get k' m.
Proof.
  intros Hk. assert (Hkb : (k =? k') = false) by now apply Z.eqb_neq.
  unfold JsMap.set. destruct (JsMap.has k m) eqn:H.
  - clear H. unfold JsMap.get.
    induction m as [|p m IH]; simpl; [reflexivity|].
    destruct (fst p =? k) eqn:E; simpl.
    + apply Z.eqb_eq in E. rewrite E, Hkb. exact IH.
    + destruct (fst p =? k'); [reflexivity | exact IH].
  - unfold JsMap.get. clear H.
    induction m as [|p m IH]; simpl.
    + now rewrite Hkb.
    + destruct (fst p =? k'); [reflexivity | exact IH].
Qed.

Lemma JsMap_get_delete_same m k : JsMap.get k (JsMap.delete k m) = None.
Proof.
  unfold JsMap.get, JsMap.delete.
  induction m as [|p m IH]; simpl; [reflexivity|].
  destruct (fst p =? k) eqn:E; simpl; [exact IH | now rewrite E].
Qed.

Lemma JsMap_get_delete_other m k k' :
  k <> k' -> JsMap.get k' (JsMap.delete k m) = JsMap.get k' m.
Proof.
  intros Hk. unfold JsMap.get, JsMap.delete.
  induction m as [|p m IH]; simpl; [reflexivity|].
  destruct (fst p =? k) eqn:E; simpl.
  - apply Z.eqb_eq in E.
    assert ((fst p =? k') = false) as -> by (apply Z.eqb_neq; lia).
    exact IH.
  - destruct (fst p =? k'); [reflexivity | exact IH].
Qed.

Lemma JsMap_has_get m k :
  JsMap.has k m = match JsMap.get k m with Some _ => true | None => false end.
Proof.
  unfold JsMap.has, JsMap.get.
  induction m as [|p m IH]; simpl; [reflexivity|].
  destruct (fst p =? k); simpl; [reflexivity | exact IH].
Qed.
End JsMapFacts.

(* ====================================================================== *)
(** ** The realtime gateway                                                *)
(* ====================================================================== *)

Section Gateway.
Variable env : Env.

(** Number of stored messages of a session. *)
Definition messageCount (sid : Z) (s : Sys) : nat :=
  List.length
    (filter (fun msg => sessionId msg =? sid)
            (JsMap.values (messages (storage s)))).

(** C3.  A [chat_message] whose [userId] does not own [sessionId] (no such
    session, or another owner) is answered with the error message
    [Unauthorized] and nothing else happens: the handler's whole effect is
    that one send, so the store is the same, no call leaves the
    process, and every session has as many messages as before.  The
    handler never waits on this path, so nothing that goes on around it
    comes in between. *)
Theorem unauthorized_chat_message_rejected :
  forall (others : Others) (s : Sys) (sid uid : Z) (content : string),
    (JsMap.get sid (chatSessions (storage s)) = None
     \/ exists sess, JsMap.get sid (chatSessions (storage s)) = Some sess
                     /\ session_userId sess <> uid) ->
    let s' := snd (onMessage env others (ChatMessageIn sid content uid) s) in
    onMessage env others (ChatMessageIn sid content uid) s
    = (Ok tt, record_sent (error_message "Unauthorized") s)
    /\ sent s' = (sent s ++ [error_message "Unauthorized"])%list
    /\ storage s' = storage s
    /\ trace s' = trace s
    /\ (forall id, messageCount id s' = messageCount id s).
Proof.
  intros others s sid uid content H s'.
  assert (E : onMessage env others (ChatMessageIn sid content uid) s
              = (Ok tt, record_sent (error_message "Unauthorized") s)).
  { unfold onMessage, handleFrame.
    apply try_catch_Ok.
    erewrite bind_Ok by (unfold getChatSession, gets; reflexivity).
    assert (U : unauthorized (JsMap.get sid (chatSessions (storage s))) uid
                = true).
    { destruct H as [->|(sess & -> & Hne)]; simpl; [reflexivity|].
      apply negb_true_iff. now apply Z.eqb_neq. }
    rewrite U. reflexivity. }
  subst s'. rewrite E. simpl. repeat split; reflexivity.
Qed.
End Gateway.

Lemma unauthorized_chat_message_rejected_witness :
  let s0 := set_storage
              (mkMemStorage [(1, mkChatSession 1 7 "notes" None 0 0)] [] 2 1)
              exampleSys in
  sent (snd (onMessage exampleEnv alone (ChatMessageIn 1 "hi" 8) s0))
  = [error_message "Unauthorized"]
  /\ storage (snd (onMessage exampleEnv alone (ChatMessageIn 5 "hi" 7) s0))
     = storage s0.
Proof.
  intros s0. split.
  - apply (@unauthorized_chat_message_rejected exampleEnv alone s0 1 8 "hi").
    right. exists (mkChatSession 1 7 "notes" None 0 0).
    split; [reflexivity | discriminate].
  - apply (@unauthorized_chat_message_rejected exampleEnv alone s0 5 7 "hi").
    left. reflexivity.
Defined.


Lemma keeps_run {A B} (f : Sys -> B) (m : M A) (s s1 : Sys) (r : Res A) :
  keeps f m -> m s = (r, s1) -> f s1 = f s.
Proof. intros K E. specialize (K s). now rewrite E in K. Qed.

Section Preview.
Variable env : Env.

Lemma createMessage_keeps_sessions (ins : InsertMessage) :
  keeps (fun s => chatSessions (storage s)) (createMessage ins).
Proof. intros s. reflexivity. Qed.

Lemma updateChatSession_found (id : Z) (updates : PartialChatSession)
      (s : Sys) (session : ChatSession) :
  JsMap.get id (chatSessions (storage s)) = Some session ->
  updateChatSession id updates s
  = (Ok (Some (spread session updates (clock s))),
     set_storage
       (mkMemStorage
          (JsMap.set id (spread session updates (clock s))
                     (chatSessions (storage s)))
          (messages (storage s)) (currentSessionId (storage s))
          (currentMessageId (storage s)))
       s).
Proof.
  intros H. unfold updateChatSession, bind, gets. rewrite H. reflexivity.
Qed.

Lemma updateChatSession_missing (id : Z) (updates : PartialChatSession)
      (s : Sys) :
  JsMap.get id (chatSessions (storage s)) = None ->
  updateChatSession id updates s = (Ok None, s).
Proof.
  intros H. unfold updateChatSession, bind, gets. rewrite H. reflexivity.
Qed.

Lemma lastMessagePreview_short (content : string) :
  (Js.length content <= 100)%nat -> lastMessagePreview content = content.
Proof.
  intros H. unfold lastMessagePreview.
  destruct (Nat.ltb_spec 100 (Js.length content)); [lia | reflexivity].
Qed.

Lemma lastMessagePreview_long (content : string) :
  (100 < Js.length content)%nat ->
  lastMessagePreview content = Js.substring0 100 content ++ "...".
Proof.
  intros H. unfold lastMessagePreview.
  destruct (Nat.ltb_spec 100 (Js.length content)); [reflexivity | lia].
Qed.

Lemma awaiting_inv {A} (w : Meanwhile) (m : M A) (s s' : Sys) (r : Res A) :
  awaiting w m s = (r, s') ->
  exists s1, m s = (r, s1) /\ s' = meanwhile w s1.
Proof.
  unfold awaiting. destruct (m s) as [r1 s1]. intros H. inversion H.
  now exists s1.
Qed.

(** The others leave the row of session [sid] in the table. *)
Definition keepsSession (sid : Z) (w : Meanwhile) : Prop :=
  forall st,
    JsMap.get sid (chatSessions st) <> None ->
    JsMap.get sid (chatSessions (store_then w st)) <> None.

(** What a handled [chat_message] of the session's owner leaves in the
    session row. *)
Lemma handleFrame_sets_preview (others : Others) (s s' : Sys) (sid : Z)
      (content : string) (sess : ChatSession) :
  JsMap.get sid (chatSessions (storage s)) = Some sess ->
  handleFrame env others (ChatMessageIn sid content (session_userId sess)) s
  = (Ok tt, s') ->
  (forall sess',
      JsMap.get sid (chatSessions (storage s')) = Some sess' ->
      lastMessage sess' = Some (lastMessagePreview content))
  /\ (keepsSession sid (whileRetrieving others) ->
      keepsSession sid (whileCompleting others) ->
      JsMap.get sid (chatSessions (storage s')) <> None).
Proof.
  intros Hget H. unfold handleFrame in H.
  rewrite (@bind_Ok _ _ (getChatSession sid) _ s s (Some sess)) in H
    by (unfold getChatSession, gets; now rewrite Hget).
  assert (U : unauthorized (Some sess) (session_userId sess) = false)
    by (simpl; now rewrite Z.eqb_refl).
  rewrite U in H.
  apply bind_Ok_inv in H. destruct H as (um & s1 & E1 & H).
  apply bind_Ok_inv in H. destruct H as (ctx & s2 & E2 & H).
  apply bind_Ok_inv in H. destruct H as (msgs & s3 & E3 & H).
  cbv zeta in H.
  apply bind_Ok_inv in H. destruct H as (resp & s4 & E4 & H).
  apply bind_Ok_inv in H. destruct H as (am & s5 & E5 & H).
  apply bind_Ok_inv in H. destruct H as (upd & s6 & E6 & H).
  apply bind_Ok_inv in H. destruct H as (state & s7 & E7 & H).
  apply awaiting_inv in E2. destruct E2 as (s2' & E2 & ->).
  apply awaiting_inv in E4. destruct E4 as (s4' & E4 & ->).
  assert (S1 : chatSessions (storage s1) = chatSessions (storage s))
    by (apply (@keeps_run _ _ (fun x => chatSessions (storage x)) _ _ _ _
                (@createMessage_keeps_sessions _) E1)).
  assert (S2 : storage s2' = storage s1)
    by (apply (@keeps_run _ _ storage _ _ _ _
                (@generateContextFromQuery_keeps_storage _ _ _) E2)).
  assert (S3 : s3 = meanwhile (whileRetrieving others) s2')
    by (unfold getMessagesBySessionId, gets in E3; congruence).
  assert (S4 : storage s4' = storage s3)
    by (apply (@keeps_run _ _ storage _ _ _ _
                (@generateChatResponse_keeps_storage _ _ _) E4)).
  assert (S5 : chatSessions (storage s5)
               = chatSessions (storage (meanwhile (whileCompleting others) s4')))
    by (apply (@keeps_run _ _ (fun x => chatSessions (storage x)) _ _ _ _
                (@createMessage_keeps_sessions _) E5)).
  assert (S7 : s7 = s6) by (unfold gets in E7; congruence).
  assert (S' : storage s' = storage s7).
  { destruct (isOpen state).
    - unfold ws_send, modify in H. inversion H. reflexivity.
    - unfold ret in H. congruence. }
  rewrite S', S7.
  destruct (JsMap.get sid (chatSessions (storage s5))) as [cur|] eqn:G5.
  - rewrite (@updateChatSession_found _ _ _ _ G5) in E6.
    inversion E6 as [[Eu E6']]. cbn [storage set_storage chatSessions].
    rewrite JsMap_get_set_same. split; [|discriminate].
    intros sess' Hs. injection Hs as <-. reflexivity.
  - rewrite (@updateChatSession_missing _ _ _ G5) in E6.
    injection E6 as _ <-. rewrite G5. split; [discriminate|].
    intros K1 K2. exfalso.
    assert (N : JsMap.get sid (chatSessions (storage s5)) <> None).
    { rewrite S5. cbn [meanwhile storage]. apply K2.
      rewrite S4, S3. cbn [meanwhile storage]. apply K1.
      rewrite S2, S1, Hget. discriminate. }
    contradiction.
Qed.

(** C9.  When the handler has carried a [chat_message] of the session's
    owner through without an error, the session's [lastMessage] is the
    content itself if that is at most 100 code units long, and otherwise
    the first 100 code units of the content followed by three dots.  This
    holds whatever other frames and requests were served meanwhile; the row
    is there to show it unless one of them deleted the session. *)
Theorem lastMessage_preview_truncation :
  forall (others : Others) (s s' : Sys) (sid uid : Z) (content : string)
         (sess : ChatSession),
    JsMap.get sid (chatSessions (storage s)) = Some sess ->
    session_userId sess = uid ->
    handleFrame env others (ChatMessageIn sid content uid) s = (Ok tt, s') ->
    onMessage env others (ChatMessageIn sid content uid) s = (Ok tt, s')
    /\ (forall sess',
           JsMap.get sid (chatSessions (storage s')) = Some sess' ->
           ((Js.length content <= 100)%nat ->
            lastMessage sess' = Some content)
           /\ ((100 < Js.length content)%nat ->
               lastMessage sess' = Some (Js.substring0 100 content ++ "...")
               /\ Js.codeUnits (Js.substring0 100 content ++ "...")
                  = (firstn 100 (Js.codeUnits content)
                       ++ Js.codeUnits "...")%list
               /\ Js.length (Js.substring0 100 content) = 100%nat))
    /\ (keepsSession sid (whileRetrieving others) ->
        keepsSession sid (whileCompleting others) ->
        exists sess', JsMap.get sid (chatSessions (storage s')) = Some sess').
Proof.
  intros others s s' sid uid content sess Hget Hu H. subst uid.
  destruct (@handleFrame_sets_preview _ _ _ _ _ _ Hget H) as [L K].
  split; [|split].
  - unfold onMessage. now apply try_catch_Ok.
  - intros sess' G. split.
    + intros Hlen. now rewrite (L sess' G), lastMessagePreview_short.
    + intros Hlen. rewrite (L sess' G), lastMessagePreview_long by exact Hlen.
      split; [reflexivity|]. split.
      * rewrite codeUnits_app by reflexivity. now rewrite substring0_units.
      * apply substring0_length. lia.
  - intros K1 K2. specialize (K K1 K2).
    destruct (JsMap.get sid (chatSessions (storage s'))) as [sess'|];
      [now exists sess' | contradiction].
Qed.
End Preview.

Definition exampleSession : ChatSession := mkChatSession 1 7 "notes" None 0 0.

Definition exampleStore : Sys :=
  set_storage (mkMemStorage [(1, exampleSession)] [] 2 1) exampleSys.

(** 160 characters of one byte each. *)
Definition longContent : string :=
  "0123456789012345678901234567890123456789012345678901234567890123456789012345678901234567890123456789012345678901234567890123456789012345678901234567890123456789".

(** 40 ideographs U+4E2D: 120 bytes and 40 code units. *)
Definition ideographs : string :=
  String.concat "" (repeat (Js.bytes [228; 184; 173]%N) 40).

Lemma lastMessage_preview_truncation_witness :
  (exists sess',
      JsMap.get 1 (chatSessions
                     (storage (snd (handleFrame exampleEnv alone
                                      (ChatMessageIn 1 longContent 7)
                                      exampleStore))))
      = Some sess'
      /\ lastMessage sess' = Some (Js.substring0 100 longContent ++ "..."))
  /\ (exists sess',
         JsMap.get 1 (chatSessions
                        (storage (snd (handleFrame exampleEnv alone
                                         (ChatMessageIn 1 ideographs 7)
                                         exampleStore))))
         = Some sess'
         /\ lastMessage sess' = Some ideographs).
Proof.
  assert (Hget : JsMap.get 1 (chatSessions (storage exampleStore))
                 = Some exampleSession) by reflexivity.
  assert (Keeps : keepsSession 1 undisturbed) by (intros st H; exact H).
  assert (Hrun : forall content,
             fst (handleFrame exampleEnv alone (ChatMessageIn 1 content 7)
                              exampleStore) = Ok tt ->
             handleFrame exampleEnv alone (ChatMessageIn 1 content 7)
                         exampleStore
             = (Ok tt, snd (handleFrame exampleEnv alone
                              (ChatMessageIn 1 content 7) exampleStore))).
  { intros content E.
    destruct (handleFrame exampleEnv alone (ChatMessageIn 1 content 7)
                          exampleStore) as [r s1].
    cbn in E. now subst r. }
  split.
  - destruct (@lastMessage_preview_truncation exampleEnv alone _ _ 1 7
                longContent exampleSession Hget eq_refl
                (Hrun longContent ltac:(vm_compute; reflexivity)))
      as (_ & L & K).
    destruct (K Keeps Keeps) as (sess' & G). exists sess'. split; [exact G|].
    apply (L sess' G). vm_compute. lia.
  - destruct (@lastMessage_preview_truncation exampleEnv alone _ _ 1 7
                ideographs exampleSession Hget eq_refl
                (Hrun ideographs ltac:(vm_compute; reflexivity)))
      as (_ & L & K).
    destruct (K Keeps Keeps) as (sess' & G). exists sess'. split; [exact G|].
    apply (L sess' G). vm_compute. lia.
Defined.

(* ====================================================================== *)
(** ** The session store                                                   *)
(* ====================================================================== *)

(** The calls that write to the chat tables. *)
Inductive StoreCall :=
| CreateChatSession (ins : InsertChatSession)
| UpdateChatSession (id : Z) (updates : PartialChatSession)
| DeleteChatSession (id : Z)
| CreateMessage (ins : InsertMessage).

Definition runCall (c : StoreCall) : M unit :=
  match c with
  | CreateChatSession ins => createChatSession ins ;;; ret tt
  | UpdateChatSession id updates => updateChatSession id updates ;;; ret tt
  | DeleteChatSession id => deleteChatSession id ;;; ret tt
  | CreateMessage ins => createMessage ins ;;; ret tt
  end.

(** The stores that a [new MemStorage()] can become: the maps are private,
    so only the methods write to them. *)
Inductive reachable : MemStorage -> Prop :=
| reachable_new : reachable newMemStorage
| reachable_call (s : Sys) (c : StoreCall) :
    reachable (storage s) -> reachable (storage (snd (runCall c s))).

(** Every message sits under its own [id]. *)
Definition keyed (st : MemStorage) : Prop :=
  forall k m, In (k, m) (messages st) -> msg_id m = k.

Lemma filter_none {A} (f : A -> bool) (l : list A) :
  (forall x, In x l -> f x = false) -> filter f l = [].
Proof.
  induction l as [|x l IH]; intros H; simpl; [reflexivity|].
  rewrite (H x (or_introl eq_refl)). apply IH. intros y Hy. apply H. now right.
Qed.

Lemma JsMap_in_set {V} (m : JsMap.t V) (k : Z) (v : V) (p : Z * V) :
  In p (JsMap.set k v m) -> p = (k, v) \/ In p m.
Proof.
  unfold JsMap.set. destruct (JsMap.has k m).
  - intros H. apply in_map_iff in H. destruct H as (q & E & Hq).
    destruct (fst q =? k); [left; now symmetry | right; now subst].
  - intros H. apply in_app_or in H. destruct H as [H|[H|[]]];
      [now right | left; now symmetry].
Qed.

Lemma JsMap_in_delete {V} (m : JsMap.t V) (k : Z) (p : Z * V) :
  In p (JsMap.delete k m) <-> In p m /\ fst p <> k.
Proof.
  unfold JsMap.delete. rewrite filter_In. rewrite negb_true_iff, Z.eqb_neq.
  reflexivity.
Qed.

Lemma deleteEach_in (selected : list Message) (m : JsMap.t Message)
      (p : Z * Message) :
  In p (deleteEach selected m)
  <-> In p m /\ forall x, In x selected -> msg_id x <> fst p.
Proof.
  unfold deleteEach. revert m.
  induction selected as [|x sel IH]; intros m; simpl.
  - split; [intros H; split; [exact H | intros ? []] | now intros [H _]].
  - rewrite IH, JsMap_in_delete. split.
    + intros [[Hp Hne] Hsel]. split; [exact Hp|].
      intros y [<-|Hy]; [congruence | now apply Hsel].
    + intros [Hp Hall]. split; [split; [exact Hp|]|].
      * intros E. apply (Hall x (or_introl eq_refl)). now symmetry.
      * intros y Hy. apply Hall. now right.
Qed.

Lemma keyed_runCall (s : Sys) (c : StoreCall) :
  keyed (storage s) -> keyed (storage (snd (runCall c s))).
Proof.
  intros K. destruct c as [ins|id updates|id|ins].
  - exact K.
  - unfold runCall, bind.
    destruct (JsMap.get id (chatSessions (storage s))) as [session|] eqn:G.
    + rewrite (@updateChatSession_found id updates s session G). exact K.
    + rewrite (@updateChatSession_missing id updates s G). exact K.
  - intros k m H. simpl in H. apply deleteEach_in in H. apply K. apply H.
  - intros k m H. simpl in H. apply JsMap_in_set in H.
    destruct H as [H|H]; [inversion H; reflexivity | now apply K].
Qed.

Lemma reachable_keyed (st : MemStorage) : reachable st -> keyed st.
Proof.
  induction 1 as [|s c _ IH].
  - intros k m [].
  - now apply keyed_runCall.
Qed.

(** What [deleteChatSession] leaves of the message table of a keyed store:
    no message of the deleted session. *)
Lemma deleteChatSession_no_message (s : Sys) (id : Z) (m : Message) :
  keyed (storage s) ->
  In m (JsMap.values (messages (storage (snd (deleteChatSession id s))))) ->
  sessionId m <> id.
Proof.
  intros K H E. simpl in H. unfold JsMap.values in H.
  apply in_map_iff in H. destruct H as ([k m'] & Em & H). simpl in Em. subst m'.
  apply deleteEach_in in H. destruct H as [Hin Hsel].
  apply (Hsel m).
  - apply filter_In. split.
    + unfold JsMap.values. apply in_map_iff. now exists (k, m).
    + now apply Z.eqb_eq.
  - simpl. now apply K.
Qed.

(** C8.  In any store the server can be in, [deleteChatSession id] leaves no
    message whose [sessionId] is [id] (the session's message list is empty,
    its message count 0) and [getChatSession id] finds nothing. *)
Theorem deleteChatSession_complete :
  forall (s : Sys) (id : Z),
    reachable (storage s) ->
    let s' := snd (deleteChatSession id s) in
    fst (getMessagesBySessionId id s') = Ok []
    /\ messageCount id s' = 0%nat
    /\ (forall m, In m (JsMap.values (messages (storage s'))) ->
                  sessionId m <> id)
    /\ fst (getChatSession id s') = Ok None.
Proof.
  intros s id R s'. apply reachable_keyed in R.
  assert (N : forall m, In m (JsMap.values (messages (storage s'))) ->
                        sessionId m <> id)
    by (intros m; now apply deleteChatSession_no_message).
  assert (F : filter (fun msg => sessionId msg =? id)
                     (JsMap.values (messages (storage s'))) = []).
  { apply filter_none. intros m Hm. apply Z.eqb_neq. now apply N. }
  assert (G : JsMap.get id (chatSessions (storage s')) = None)
    by apply JsMap_get_delete_same.
  clearbody s'.
  unfold messageCount, getMessagesBySessionId, getChatSession, gets.
  cbn [fst]. rewrite F, G. repeat split. exact N.
Qed.

(** A store with two sessions and three messages, built by the methods. *)
Definition exampleHistory : Sys :=
  snd (runCall (CreateMessage (mkInsertMessage 2 user "other" None))
  (snd (runCall (CreateMessage (mkInsertMessage 1 assistant "hello" None))
  (snd (runCall (CreateMessage (mkInsertMessage 1 user "hi" None))
  (snd (runCall (CreateChatSession (mkInsertChatSession 8 "b" None))
  (snd (runCall (CreateChatSession (mkInsertChatSession 7 "a" None))
                exampleSys))))))))).

Lemma deleteChatSession_complete_witness :
  messageCount 1 exampleHistory = 2%nat
  /\ messageCount 1 (snd (deleteChatSession 1 exampleHistory)) = 0%nat
  /\ fst (getChatSession 1 (snd (deleteChatSession 1 exampleHistory)))
     = Ok None.
Proof.
  split; [reflexivity|].
  assert (R : reachable (storage exampleHistory))
    by (unfold exampleHistory; repeat apply reachable_call;
        apply reachable_new).
  destruct (@deleteChatSession_complete exampleHistory 1 R) as (_ & C & _ & G).
  split; [exact C | exact G].
Defined.

(* ====================================================================== *)
(** ** Assembling the context string                                       *)
(* ====================================================================== *)

(** [survivors] is [results] without the entries whose score is not above
    the threshold: same order, same multiplicity. *)
Inductive Survivors : list SearchResult -> list SearchResult -> Prop :=
| Survivors_nil : Survivors [] []
| Survivors_keep (r : SearchResult) (rs ss : list SearchResult) :
    PrimFloat.ltb 0.7%float (score r) = true ->
    Survivors rs ss -> Survivors (r :: rs) (r :: ss)
| Survivors_drop (r : SearchResult) (rs ss : list SearchResult) :
    PrimFloat.ltb 0.7%float (score r) = false ->
    Survivors rs ss -> Survivors (r :: rs) ss.

(** [e] is the entry of [r]: [[documentName, page N]: chunkText]. *)
Definition entry_of (r : SearchResult) (e : string) : Prop :=
  exists md,
    metadata r = Some md
    /\ e = "[" ++ documentName md ++ ", page " ++ pageLabel (pageNumber md)
               ++ "]: " ++ result_text r.

Lemma Survivors_filter (results : list SearchResult) :
  Survivors results (filter highConfidence results).
Proof.
  induction results as [|r rs IH]; simpl; [constructor|].
  unfold highConfidence at 1.
  destruct (PrimFloat.ltb 0.7%float (score r)) eqn:E;
    [now apply Survivors_keep | now apply Survivors_drop].
Qed.

Lemma Survivors_above (results survivors : list SearchResult) :
  Survivors results survivors ->
  forall r, In r survivors -> PrimFloat.ltb 0.7%float (score r) = true.
Proof.
  induction 1 as [|r rs ss Hr _ IH|r rs ss _ _ IH]; intros x Hx.
  - destruct Hx.
  - destruct Hx as [<-|Hx]; [exact Hr | now apply IH].
  - now apply IH.
Qed.

Lemma mapRes_formatResult (l : list SearchResult) :
  Forall (fun r => metadata r <> None) l ->
  exists entries,
    mapRes formatResult l = Ok entries /\ Forall2 entry_of l entries.
Proof.
  induction 1 as [|r l Hr _ (entries & E & F)]; simpl.
  - exists []. split; [reflexivity | constructor].
  - unfold formatResult at 1.
    destruct (metadata r) as [md|] eqn:Em; [|congruence].
    rewrite E. eexists. split; [reflexivity|].
    constructor; [|exact F]. exists md. now split.
Qed.

(** The guard on [results.length] changes nothing: without results the
    filter, the map and the join give the empty string as well. *)
Lemma combineChunks_unguarded (results : list SearchResult) :
  combineChunks results =
  match mapRes formatResult (filter highConfidence results) with
  | Throw e => Throw e
  | Ok entries => Ok (Js.join (nl ++ nl) entries)
  end.
Proof. destruct results; reflexivity. Qed.

(* ====================================================================== *)
(** ** Bootstrap of the collection                                         *)
(* ====================================================================== *)

Section Bootstrap.
Variable env : Env.

Definition initError : Error := mkError "Failed to initialize Pinecone".

(** The collection that [initializePinecone] asks for at instant [now]. *)
Definition freshIndex (now : Z) : IndexModel :=
  mkIndexModel (indexName env) 1536 "cosine" (now + provisioning_ms env) [].

Definition hasIndex (l : list IndexModel) : bool :=
  existsb (fun index => (ix_name index =? indexName env)%string) l.

Lemma hasIndex_find (l : list IndexModel) :
  hasIndex l = match Pinecone.find_index (indexName env) l with
               | Some _ => true
               | None => false
               end.
Proof.
  unfold hasIndex, Pinecone.find_index.
  induction l as [|ix l IH]; simpl; [reflexivity|].
  destruct (ix_name ix =? indexName env)%string; [reflexivity | exact IH].
Qed.

(** [initializePinecone], step by step. *)
Lemma initializePinecone_run (s : Sys) :
  initializePinecone env s =
  let s1 := record_event EvListIndexes s in
  if pinecone_fails env OpListIndexes
  then (Throw initError, record_console "Pinecone initialization error:" s1)
  else if hasIndex (indexes s) then (Ok (indexName env), s1)
  else
    let s2 := record_event
                (EvCreateIndex (indexName env) 1536 "cosine" "aws" "us-east-1")
                s1 in
    if pinecone_fails env OpCreateIndex
    then (Throw initError, record_console "Pinecone initialization error:" s2)
    else
      (Ok (indexName env),
       advance 10000
         (record_event (EvSleep 10000)
            (set_indexes (indexes s ++ [freshIndex (clock s)])%list s2))).
Proof.
  pose proof (hasIndex_find (indexes s)) as HF. unfold hasIndex in *.
  destruct s as [st ixs clk tr con rs snt]. cbn [indexes] in HF.
  cbv beta iota zeta delta
      [initializePinecone try_catch bind Pinecone.listIndexes
         Pinecone.createIndex sleep modify gets throw ret console_error
         record_event record_console set_indexes advance
         storage indexes clock trace console readyState sent].
  destruct (pinecone_fails env OpListIndexes); [reflexivity|].
  destruct (existsb _ ixs); cbn [negb]; [reflexivity|].
  destruct (pinecone_fails env OpCreateIndex); [reflexivity|].
  destruct (Pinecone.find_index (indexName env) ixs);
    [discriminate HF | reflexivity].
Qed.
End Bootstrap.

(* ====================================================================== *)
(** ** The context retriever                                               *)
(* ====================================================================== *)

Section Retriever.
Variable env : Env.

Lemma query_run (name : string) (req : QueryRequest) (s : Sys) :
  Pinecone.query env name req s =
  let s1 := record_event (EvQuery name req) s in
  if pinecone_fails env OpQuery then (Throw Pinecone.service_error, s1)
  else match Pinecone.find_index name (indexes s) with
       | None => (Throw Pinecone.service_error, s1)
       | Some ix => (Ok (Pinecone.answer env req ix), s1)
       end.
Proof.
  destruct s as [st ixs clk tr con rs snt].
  cbv beta iota zeta delta
      [Pinecone.query bind modify gets throw ret record_event indexes].
  destruct (pinecone_fails env OpQuery); [reflexivity|].
  destruct (Pinecone.find_index name ixs); reflexivity.
Qed.

Lemma find_index_app (name : string) (l l' : list IndexModel) :
  Pinecone.find_index name (l ++ l')%list =
  match Pinecone.find_index name l with
  | Some ix => Some ix
  | None => Pinecone.find_index name l'
  end.
Proof.
  unfold Pinecone.find_index.
  induction l as [|x l IH]; simpl; [reflexivity|].
  destruct (ix_name x =? name)%string; [reflexivity | exact IH].
Qed.

(** Where the results of a successful search come from: the answer of one
    collection, which was there before the call or has just been created
    and is empty. *)
Lemma searchSimilarChunks_Ok (v : list float) (uid : Z) (k : nat)
      (s s' : Sys) (results : list SearchResult) :
  searchSimilarChunks env v uid k s = (Ok results, s') ->
  exists ix,
    (In ix (indexes s) \/ ix_records ix = [])
    /\ results
       = toSearchResults
           (Pinecone.answer env (mkQueryRequest v k uid true) ix).
Proof.
  unfold searchSimilarChunks, try_catch, bind.
  rewrite initializePinecone_run. cbv zeta.
  destruct (pinecone_fails env OpListIndexes); [discriminate|].
  destruct (hasIndex env (indexes s)).
  - rewrite query_run. cbv zeta.
    destruct (pinecone_fails env OpQuery); [discriminate|].
    cbn [indexes record_event].
    destruct (Pinecone.find_index _ (indexes s)) as [ix|] eqn:F;
      [|discriminate].
    intros H. inversion H. exists ix. split; [|reflexivity].
    left. apply (find_some _ _ F).
  - destruct (pinecone_fails env OpCreateIndex); [discriminate|].
    rewrite query_run. cbv zeta.
    destruct (pinecone_fails env OpQuery); [discriminate|].
    cbn [indexes record_event advance set_indexes].
    rewrite find_index_app.
    destruct (Pinecone.find_index _ (indexes s)) as [ix|] eqn:F.
    + intros H. inversion H. exists ix. split; [|reflexivity].
      left. apply (find_some _ _ F).
    + destruct (Pinecone.find_index _ [_]) as [ix|] eqn:F';
        [|discriminate].
      intros H. inversion H. exists ix. split; [|reflexivity].
      right. apply find_some in F'. destruct F' as [[<-|[]] _]. reflexivity.
Qed.

Lemma answer_empty (req : QueryRequest) (ix : IndexModel) :
  ix_records ix = [] ->
  toSearchResults (Pinecone.answer env req ix) = [].
Proof.
  intros E. unfold Pinecone.answer, toSearchResults. rewrite E. simpl.
  now rewrite firstn_nil.
Qed.

(** The three ways through [generateContextFromQuery]. *)
Lemma generateContextFromQuery_embedding_failed
      (query : string) (uid : Z) (s s1 : Sys) (e : Error) :
  generateEmbedding env query s = (Throw e, s1) ->
  generateContextFromQuery env query uid s
  = (Ok "", record_console "Context generation error:" s1).
Proof.
  intros E. unfold generateContextFromQuery.
  erewrite try_catch_Throw by (erewrite bind_Throw by exact E; reflexivity).
  reflexivity.
Qed.

Lemma generateContextFromQuery_search_failed
      (query : string) (uid : Z) (s s1 s2 : Sys) (v : list float) (e : Error) :
  generateEmbedding env query s = (Ok v, s1) ->
  searchSimilarChunks env v uid 5 s1 = (Throw e, s2) ->
  generateContextFromQuery env query uid s
  = (Ok "", record_console "Context generation error:" s2).
Proof.
  intros E1 E2. unfold generateContextFromQuery.
  erewrite try_catch_Throw
    by (erewrite bind_Ok by exact E1; erewrite bind_Throw by exact E2;
        reflexivity).
  reflexivity.
Qed.

Lemma generateContextFromQuery_searched
      (query : string) (uid : Z) (s s1 s2 : Sys) (v : list float)
      (results : list SearchResult) :
  generateEmbedding env query s = (Ok v, s1) ->
  searchSimilarChunks env v uid 5 s1 = (Ok results, s2) ->
  generateContextFromQuery env query uid s
  = match combineChunks results with
    | Ok context => (Ok context, s2)
    | Throw _ => (Ok "", record_console "Context generation error:" s2)
    end.
Proof.
  intros E1 E2. unfold generateContextFromQuery.
  destruct (combineChunks results) as [context|e] eqn:C.
  - erewrite try_catch_Ok; [reflexivity|].
    erewrite bind_Ok by exact E1. erewrite bind_Ok by exact E2.
    unfold lift. now rewrite C.
  - erewrite try_catch_Throw; [reflexivity|].
    erewrite bind_Ok by exact E1. erewrite bind_Ok by exact E2.
    unfold lift. now rewrite C.
Qed.

Lemma combineChunks_none_above (results : list SearchResult) :
  (forall r, In r results -> highConfidence r = false) ->
  combineChunks results = Ok "".
Proof.
  intros H. rewrite combineChunks_unguarded, (filter_none _ _ H).
  reflexivity.
Qed.

(** C2.  [generateContextFromQuery] always returns a string and never
    throws.  The string is empty when the query embedding fails, when the
    search fails, when the search returns nothing or nothing with a score
    above the threshold, and when no collection holds a record. *)
Theorem retrieval_best_effort :
  forall (query : string) (uid : Z) (s : Sys),
    (exists context s',
        generateContextFromQuery env query uid s = (Ok context, s'))
    /\ (forall e s1,
           generateEmbedding env query s = (Throw e, s1) ->
           fst (generateContextFromQuery env query uid s) = Ok "")
    /\ (forall v s1 e s2,
           generateEmbedding env query s = (Ok v, s1) ->
           searchSimilarChunks env v uid 5 s1 = (Throw e, s2) ->
           fst (generateContextFromQuery env query uid s) = Ok "")
    /\ (forall v s1 results s2,
           generateEmbedding env query s = (Ok v, s1) ->
           searchSimilarChunks env v uid 5 s1 = (Ok results, s2) ->
           results = []
           \/ (forall r, In r results ->
                         PrimFloat.ltb 0.7%float (score r) = false) ->
           fst (generateContextFromQuery env query uid s) = Ok "")
    /\ ((forall ix, In ix (indexes s) -> ix_records ix = []) ->
        fst (generateContextFromQuery env query uid s) = Ok "").
Proof.
  intros query uid s.
  assert (NoneAbove :
            forall v s1 results s2,
              generateEmbedding env query s = (Ok v, s1) ->
              searchSimilarChunks env v uid 5 s1 = (Ok results, s2) ->
              (forall r, In r results -> highConfidence r = false) ->
              fst (generateContextFromQuery env query uid s) = Ok "").
  { intros v s1 results s2 E1 E2 H.
    rewrite (generateContextFromQuery_searched query uid s s1 s2 v results E1 E2).
    now rewrite (combineChunks_none_above results H). }
  split; [apply generateContextFromQuery_total|].
  split; [|split; [|split]].
  - intros e s1 E.
    now rewrite (generateContextFromQuery_embedding_failed query uid s s1 e E).
  - intros v s1 e s2 E1 E2.
    now rewrite (generateContextFromQuery_search_failed query uid s s1 s2 v e E1 E2).
  - intros v s1 results s2 E1 E2 [->|H].
    + apply (NoneAbove _ _ _ _ E1 E2). intros r [].
    + apply (NoneAbove _ _ _ _ E1 E2). exact H.
  - intros Hempty.
    destruct (generateEmbedding env query s) as [[v|e] s1] eqn:E1.
    + destruct (searchSimilarChunks env v uid 5 s1) as [[results|e] s2] eqn:E2.
      * apply (NoneAbove _ _ _ _ eq_refl E2).
        destruct (searchSimilarChunks_Ok v uid 5 s1 s2 results E2) as (ix & Hix & ->).
        rewrite answer_empty; [intros r []|].
        destruct Hix as [Hin|Hnil]; [|exact Hnil].
        apply Hempty.
        rewrite <- (keeps_run indexes _ s s1 _ (generateEmbedding_keeps_indexes env query) E1).
        exact Hin.
      * now rewrite (generateContextFromQuery_search_failed query uid s s1 s2 v e E1 E2).
    + now rewrite (generateContextFromQuery_embedding_failed query uid s s1 e E1).
Qed.
End Retriever.

Lemma retrieval_best_effort_witness :
  fst (generateContextFromQuery exampleEnv "what does it say?" 7 exampleSys)
  = Ok ""
  /\ fst (generateContextFromQuery
            (mkEnv None (readFileSync exampleEnv) (splitText exampleEnv)
                   (fun _ _ => None) (chat_completions_create exampleEnv)
                   (pinecone_fails exampleEnv) (similarity exampleEnv) 2000)
            "what does it say?" 7 exampleSys)
     = Ok "".
Proof.
  split.
  - destruct (retrieval_best_effort exampleEnv "what does it say?" 7 exampleSys)
      as (_ & _ & _ & _ & Hempty).
    apply Hempty. intros ix H. exact (False_ind _ H).
  - match goal with
    | |- fst (generateContextFromQuery ?e _ _ _) = _ =>
        destruct (retrieval_best_effort e "what does it say?" 7 exampleSys)
        as (_ & Hfailed & _)
    end.
    eapply Hfailed. reflexivity.
Defined.

(* ====================================================================== *)
(** ** Isolation between users                                             *)
(* ====================================================================== *)

(** The chunk behind [r] belongs to user [uid]. *)
Definition owned_by (uid : Z) (r : SearchResult) : Prop :=
  exists md, metadata r = Some md /\ userId md = uid.

(** What user [uid] can see of a collection: its name and the records that
    carry [uid] in their metadata. *)
Definition view (uid : Z) (ix : IndexModel) : string * list VectorRecord :=
  (ix_name ix, filter (Pinecone.satisfies_filter uid) (ix_records ix)).

(** Two states differ at most in what other users have stored. *)
Definition same_view (uid : Z) (s1 s2 : Sys) : Prop :=
  map (view uid) (indexes s1) = map (view uid) (indexes s2).

Lemma in_firstn {A} (n : nat) (l : list A) (x : A) :
  In x (firstn n l) -> In x l.
Proof.
  revert l. induction n as [|n IH]; intros [|y l]; simpl; try tauto.
  intros [H|H]; [now left | right; now apply IH].
Qed.

Lemma insert_desc_in (m x : Match) (l : list Match) :
  In x (Pinecone.insert_desc m l) <-> x = m \/ In x l.
Proof.
  induction l as [|y l IH]; simpl.
  - split; [intros [H|[]]; now left | intros [H|[]]; now left].
  - destruct (PrimFloat.ltb _ _); simpl.
    + split; [intros [H|H]; [left; now symmetry | now right]
             | intros [H|H]; [left; now symmetry | now right]].
    + rewrite IH. tauto.
Qed.

Lemma rank_in (x : Match) (l : list Match) :
  In x (Pinecone.rank l) <-> In x l.
Proof.
  unfold Pinecone.rank. induction l as [|m l IH]; simpl; [reflexivity|].
  rewrite insert_desc_in, IH. split; intros [H|H]; auto.
Qed.

Section Isolation.
Variable env : Env.

(** Every result of an answer to a query filtered by [uid] comes from a
    stored record that carries [uid]. *)
Lemma answer_owned (v : list float) (k : nat) (uid : Z) (ix : IndexModel)
      (r : SearchResult) :
  In r (toSearchResults
          (Pinecone.answer env (mkQueryRequest v k uid true) ix)) ->
  owned_by uid r
  /\ exists record,
      In record (ix_records ix)
      /\ Pinecone.satisfies_filter uid record = true
      /\ result_id r = vec_id record.
Proof.
  unfold toSearchResults, Pinecone.answer. cbn [matches].
  intros H. apply in_map_iff in H. destruct H as (m & <- & Hm).
  apply in_firstn in Hm. apply (proj1 (rank_in _ _)) in Hm.
  apply in_map_iff in Hm. destruct Hm as (record & <- & Hr).
  apply filter_In in Hr. destruct Hr as [Hin Hsat]. cbn in Hsat.
  split.
  - unfold Pinecone.satisfies_filter in Hsat.
    destruct (vec_metadata record) as [md|] eqn:Em; [|discriminate].
    exists (fields md). split.
    + unfold toSearchResult, Pinecone.to_match. cbn. now rewrite Em.
    + now apply Z.eqb_eq.
  - exists record. repeat split; assumption.
Qed.

Lemma searchSimilarChunks_owned (v : list float) (uid : Z) (k : nat)
      (s s' : Sys) (results : list SearchResult) :
  searchSimilarChunks env v uid k s = (Ok results, s') ->
  Forall (owned_by uid) results.
Proof.
  intros H. destruct (searchSimilarChunks_Ok env v uid k s s' results H)
    as (ix & _ & ->).
  apply Forall_forall. intros r Hr. now apply (answer_owned v k uid ix).
Qed.

Lemma same_view_hasIndex (uid : Z) (l1 l2 : list IndexModel) :
  map (view uid) l1 = map (view uid) l2 ->
  hasIndex env l1 = hasIndex env l2.
Proof.
  unfold hasIndex. revert l2.
  induction l1 as [|a l1 IH]; intros [|b l2] H; try discriminate;
    [reflexivity|].
  simpl in *. inversion H as [[Hn Hr Hl]]. rewrite Hn. f_equal. now apply IH.
Qed.

Lemma same_view_find (uid : Z) (name : string) (l1 l2 : list IndexModel) :
  map (view uid) l1 = map (view uid) l2 ->
  match Pinecone.find_index name l1, Pinecone.find_index name l2 with
  | Some a, Some b => view uid a = view uid b
  | None, None => True
  | _, _ => False
  end.
Proof.
  unfold Pinecone.find_index. revert l2.
  induction l1 as [|a l1 IH]; intros [|b l2] H; try discriminate;
    [exact I|].
  simpl in *. inversion H as [[Hn Hr Hl]]. rewrite Hn.
  destruct (ix_name b =? name)%string.
  - unfold view. now rewrite Hn, Hr.
  - now apply IH.
Qed.

Lemma answer_view (v : list float) (k : nat) (uid : Z) (a b : IndexModel) :
  view uid a = view uid b ->
  Pinecone.answer env (mkQueryRequest v k uid true) a
  = Pinecone.answer env (mkQueryRequest v k uid true) b.
Proof.
  unfold view, Pinecone.answer. cbn. intros H. inversion H as [[Hn Hr]].
  now rewrite Hr.
Qed.

(** The value of a search depends on the index only through the
    caller's view of it. *)
Lemma searchSimilarChunks_same_view (v : list float) (uid : Z) (k : nat)
      (s1 s2 : Sys) :
  same_view uid s1 s2 ->
  fst (searchSimilarChunks env v uid k s1)
  = fst (searchSimilarChunks env v uid k s2).
Proof.
  intros V. unfold same_view in V.
  pose proof (same_view_hasIndex uid _ _ V) as VH.
  pose proof (same_view_find uid (indexName env) _ _ V) as VF.
  unfold searchSimilarChunks, try_catch, bind.
  rewrite !initializePinecone_run. cbv zeta. rewrite <- VH.
  destruct (pinecone_fails env OpListIndexes); [reflexivity|].
  destruct (hasIndex env (indexes s1)) eqn:Has.
  - rewrite !query_run. cbv zeta.
    destruct (pinecone_fails env OpQuery); [reflexivity|].
    cbn [indexes record_event].
    destruct (Pinecone.find_index _ (indexes s1)) as [a|],
             (Pinecone.find_index _ (indexes s2)) as [b|];
      try contradiction; [|reflexivity].
    now rewrite (answer_view v k uid a b VF).
  - destruct (pinecone_fails env OpCreateIndex); [reflexivity|].
    rewrite !query_run. cbv zeta.
    destruct (pinecone_fails env OpQuery); [reflexivity|].
    cbn [indexes record_event advance set_indexes].
    rewrite !find_index_app.
    rewrite (hasIndex_find env (indexes s1)) in Has.
    destruct (Pinecone.find_index _ (indexes s1)) as [a|]; [discriminate|].
    destruct (Pinecone.find_index _ (indexes s2)) as [b|]; [contradiction|].
    unfold Pinecone.find_index, freshIndex. cbn [find ix_name].
    destruct (indexName env =? indexName env)%string; reflexivity.
Qed.

Lemma generateEmbedding_value (text : string) (s1 s2 : Sys) :
  fst (generateEmbedding env text s1) = fst (generateEmbedding env text s2).
Proof.
  cbv beta iota zeta delta
      [generateEmbedding try_catch bind embeddings modify throw ret
         console_error].
  destruct (embeddings_create env _ text) as [[|e l]|]; reflexivity.
Qed.
End Isolation.

Section IsolationTheorem.
Variable env : Env.

(** The value of [generateContextFromQuery] in terms of its two calls. *)
Lemma generateContextFromQuery_value (query : string) (uid : Z) (s : Sys) :
  fst (generateContextFromQuery env query uid s) =
  match generateEmbedding env query s with
  | (Throw _, _) => Ok ""
  | (Ok v, s1) =>
      match fst (searchSimilarChunks env v uid 5 s1) with
      | Throw _ => Ok ""
      | Ok results =>
          match combineChunks results with
          | Ok context => Ok context
          | Throw _ => Ok ""
          end
      end
  end.
Proof.
  destruct (generateEmbedding env query s) as [[v|e] s1] eqn:E1.
  - destruct (searchSimilarChunks env v uid 5 s1) as [[results|e] s2] eqn:E2.
    + rewrite (generateContextFromQuery_searched
                 env query uid s s1 s2 v results E1 E2).
      cbn [fst]. destruct (combineChunks results); reflexivity.
    + now rewrite (generateContextFromQuery_search_failed
                     env query uid s s1 s2 v e E1 E2).
  - now rewrite (generateContextFromQuery_embedding_failed
                   env query uid s s1 e E1).
Qed.

(** C1.  Whatever the collections hold, and for whomever:
    - every result that [searchSimilarChunks] returns for [uid] carries
      [uid] in its metadata;
    - the context string that [generateContextFromQuery] returns for [uid]
      is made of entries of results that carry [uid], and of nothing else;
    - the context is the same in any two states that differ only in
      records of other users: those records are filtered out, they do not
      even displace a result. *)
Theorem multi_tenant_isolation :
  forall (query : string) (uid : Z) (s : Sys),
    (forall v k s1 results s2,
        searchSimilarChunks env v uid k s1 = (Ok results, s2) ->
        Forall (owned_by uid) results)
    /\ (exists survivors entries,
           Forall (owned_by uid) survivors
           /\ Forall2 entry_of survivors entries
           /\ fst (generateContextFromQuery env query uid s)
              = Ok (Js.join (nl ++ nl) entries))
    /\ (forall s2,
           same_view uid s s2 ->
           fst (generateContextFromQuery env query uid s)
           = fst (generateContextFromQuery env query uid s2)).
Proof.
  intros query uid s. split; [|split].
  - intros v k s1 results s2. apply searchSimilarChunks_owned.
  - rewrite generateContextFromQuery_value.
    assert (Nothing : exists survivors entries,
               Forall (owned_by uid) survivors
               /\ Forall2 entry_of survivors entries
               /\ @Ok string "" = Ok (Js.join (nl ++ nl) entries)).
    { exists [], []. repeat split; constructor. }
    destruct (generateEmbedding env query s) as [[v|e] s1]; [|exact Nothing].
    destruct (searchSimilarChunks env v uid 5 s1) as [[results|e] s2] eqn:E2;
      cbn [fst]; [|exact Nothing].
    pose proof (searchSimilarChunks_owned env v uid 5 s1 s2 results E2) as O.
    assert (Of : Forall (owned_by uid) (filter highConfidence results)).
    { rewrite Forall_forall in *. intros r Hr. apply filter_In in Hr.
      now apply O. }
    assert (Hm : Forall (fun r => metadata r <> None)
                        (filter highConfidence results)).
    { rewrite Forall_forall in *. intros r Hr.
      destruct (Of r Hr) as (md & Em & _). congruence. }
    destruct (mapRes_formatResult _ Hm) as (entries & E & F).
    rewrite combineChunks_unguarded, E.
    exists (filter highConfidence results), entries. now repeat split.
  - intros s2 V. rewrite !generateContextFromQuery_value.
    pose proof (generateEmbedding_value env query s s2) as EV.
    pose proof (generateEmbedding_keeps_indexes env query s) as K1.
    pose proof (generateEmbedding_keeps_indexes env query s2) as K2.
    destruct (generateEmbedding env query s) as [r1 s1].
    destruct (generateEmbedding env query s2) as [r2 s1']. cbn in EV, K1, K2.
    subst r2. destruct r1 as [v|e]; [|reflexivity].
    rewrite (searchSimilarChunks_same_view env v uid 5 s1 s1');
      [reflexivity|].
    unfold same_view in *. now rewrite K1, K2.
Qed.
End IsolationTheorem.

(** Two users' chunks in one collection; user 8 has the better match. *)
Definition sharedIndex : IndexModel :=
  mkIndexModel "chatbot-knowledge-base" 1536 "cosine" 0
    [ mkVectorRecord "1-0" [1%float]
        (Some (mkRecordMetadata (mkMetadata 1 "a.txt" 7 0 None)
                                (Some "notes of user seven")));
      mkVectorRecord "2-0" [2%float]
        (Some (mkRecordMetadata (mkMetadata 2 "b.txt" 8 0 None)
                                (Some "secrets of user eight"))) ].

Definition sharedSys : Sys := set_indexes [sharedIndex] exampleSys.

Lemma multi_tenant_isolation_witness :
  fst (generateContextFromQuery exampleEnv "anything" 7 sharedSys)
  = Ok "[a.txt, page unknown]: notes of user seven"
  /\ fst (generateContextFromQuery exampleEnv "anything" 7 sharedSys)
     = fst (generateContextFromQuery exampleEnv "anything" 7
              (set_indexes
                 [mkIndexModel "chatbot-knowledge-base" 1536 "cosine" 0
                    [ mkVectorRecord "1-0" [1%float]
                        (Some (mkRecordMetadata (mkMetadata 1 "a.txt" 7 0 None)
                                 (Some "notes of user seven"))) ]]
                 exampleSys)).
Proof.
  split; [reflexivity|].
  apply (multi_tenant_isolation exampleEnv "anything" 7 sharedSys).
  reflexivity.
Defined.

(* ====================================================================== *)
(** ** Assembly of the context                                             *)
(* ====================================================================== *)

(** The match carries a score. *)
Definition scored (m : Match) : bool :=
  match match_score m with Some _ => true | None => false end.

Lemma highConfidence_scored (ms : list Match) :
  filter highConfidence (map toSearchResult (filter scored ms))
  = filter highConfidence (map toSearchResult ms).
Proof.
  induction ms as [|m ms IH]; [reflexivity|].
  cbn [filter map]. unfold scored at 1.
  destruct (match_score m) as [x|] eqn:E.
  - cbn [filter map]. now rewrite IH.
  - rewrite IH.
    assert (H : highConfidence (toSearchResult m) = false).
    { unfold highConfidence, toSearchResult. cbn [score]. rewrite E.
      reflexivity. }
    now rewrite H.
Qed.

Section Assembly.
Variable env : Env.

(** The filter, the map and the join, for results that the index returned
    for [uid]: every one of them has its metadata. *)
Lemma combineChunks_owned (uid : Z) (results : list SearchResult) :
  Forall (owned_by uid) results ->
  exists entries,
    Forall2 entry_of (filter highConfidence results) entries
    /\ combineChunks results = Ok (Js.join (nl ++ nl) entries).
Proof.
  intros O.
  assert (Hm : Forall (fun r => metadata r <> None)
                      (filter highConfidence results)).
  { rewrite Forall_forall in *. intros r Hr. apply filter_In in Hr.
    destruct (O r (proj1 Hr)) as (md & Em & _). congruence. }
  destruct (mapRes_formatResult _ Hm) as (entries & E & F).
  exists entries. split; [exact F|].
  now rewrite combineChunks_unguarded, E.
Qed.

(** C4.  Whatever the search returns, the context that
    [generateContextFromQuery] gives back is made of exactly the results
    whose score is strictly above 0.7, in the order of the search and each
    as often as it was returned; a result with score at most 0.7 is not
    among them.  Each survivor gives one entry
    [[documentName, page N]: chunkText], and the entries are joined by two
    line feeds, that is, with a blank line between them. *)
Theorem context_assembly :
  forall (query : string) (uid : Z) (s s1 s2 : Sys) (v : list float)
         (results : list SearchResult),
    generateEmbedding env query s = (Ok v, s1) ->
    searchSimilarChunks env v uid 5 s1 = (Ok results, s2) ->
    exists survivors entries,
      Survivors results survivors
      /\ (forall r, In r results ->
                    PrimFloat.leb (score r) 0.7%float = true ->
                    ~ In r survivors)
      /\ Forall2 entry_of survivors entries
      /\ generateContextFromQuery env query uid s
         = (Ok (Js.join (nl ++ nl) entries), s2).
Proof.
  intros query uid s s1 s2 v results E1 E2.
  pose proof (searchSimilarChunks_owned env v uid 5 s1 s2 results E2) as O.
  destruct (combineChunks_owned uid results O) as (entries & F & C).
  exists (filter highConfidence results), entries.
  split; [apply Survivors_filter|]. split; [|split; [exact F|]].
  - intros r _ Hle Hin.
    pose proof (Survivors_above _ _ (Survivors_filter results) r Hin) as Habove.
    rewrite (not_above_threshold _ Hle) in Habove. discriminate.
  - rewrite (generateContextFromQuery_searched env query uid s s1 s2 v results
               E1 E2).
    now rewrite C.
Qed.

(** C10.  A match that the index returns without a score becomes a search
    result with score 0, and with the empty text if the [text] field of its
    metadata is missing.  [searchSimilarChunks] hands on one result per
    match, in the order of the answer.  Score 0 is not above the threshold,
    so [generateContextFromQuery] filters that result out: its context is
    assembled from the matches that carry a score, and from those alone. *)
Theorem scoreless_match_contributes_nothing :
  forall (query : string) (uid : Z) (s s1 : Sys) (v : list float)
         (ix : IndexModel) (ms : list Match),
    generateEmbedding env query s = (Ok v, s1) ->
    pinecone_fails env OpListIndexes = false ->
    pinecone_fails env OpQuery = false ->
    Pinecone.find_index (indexName env) (indexes s1) = Some ix ->
    matches (Pinecone.answer env (mkQueryRequest v 5 uid true) ix) = Some ms ->
    fst (searchSimilarChunks env v uid 5 s1) = Ok (map toSearchResult ms)
    /\ (forall m,
           In m ms -> match_score m = None ->
           score (toSearchResult m) = 0%float
           /\ (match_metadata m = None
               \/ (exists md, match_metadata m = Some md /\ text md = None) ->
               result_text (toSearchResult m) = "")
           /\ highConfidence (toSearchResult m) = false)
    /\ exists survivors entries,
        Survivors (map toSearchResult (filter scored ms)) survivors
        /\ Forall2 entry_of survivors entries
        /\ fst (generateContextFromQuery env query uid s)
           = Ok (Js.join (nl ++ nl) entries).
Proof.
  intros query uid s s1 v ix ms E1 HL HQ F A.
  assert (Has : hasIndex env (indexes s1) = true)
    by (rewrite hasIndex_find, F; reflexivity).
  assert (E2 : searchSimilarChunks env v uid 5 s1
               = (Ok (map toSearchResult ms),
                  record_event
                    (EvQuery (indexName env) (mkQueryRequest v 5 uid true))
                    (record_event EvListIndexes s1))).
  { unfold searchSimilarChunks, try_catch, bind.
    rewrite initializePinecone_run. cbv zeta. rewrite HL, Has.
    rewrite query_run. cbv zeta. rewrite HQ.
    cbn [indexes record_event]. rewrite F.
    unfold toSearchResults. now rewrite A. }
  split; [now rewrite E2|]. split.
  - intros m _ Hs.
    assert (S0 : score (toSearchResult m) = 0%float)
      by (unfold toSearchResult; cbn [score]; now rewrite Hs).
    split; [exact S0|]. split.
    + intros [Hm|(md & Hm & Ht)]; unfold toSearchResult; cbn [result_text];
        rewrite Hm; [reflexivity | now rewrite Ht].
    + unfold highConfidence. now rewrite S0.
  - pose proof (searchSimilarChunks_owned env v uid 5 s1 _ _ E2) as O.
    destruct (combineChunks_owned uid _ O) as (entries & Fe & C).
    exists (filter highConfidence (map toSearchResult (filter scored ms))),
      entries.
    split; [apply Survivors_filter|]. split.
    + now rewrite highConfidence_scored.
    + rewrite (generateContextFromQuery_searched env query uid s s1 _ v _
                 E1 E2).
      now rewrite C.
Qed.
End Assembly.

(** A world in which the score of a stored vector is its first value, and a
    vector without values is returned without a score. *)
Definition scoringEnv : Env :=
  mkEnv None (readFileSync exampleEnv) (splitText exampleEnv)
        (embeddings_create exampleEnv) (chat_completions_create exampleEnv)
        (fun _ => false)
        (fun _ record => match record with x :: _ => Some x | [] => None end)
        2000.

(** A collection of user 7 with four chunks: scores 0.91, 0.7 and 0.75, and
    one record that was written without values and without text. *)
Definition scoredIndex : IndexModel :=
  mkIndexModel "chatbot-knowledge-base" 1536 "cosine" 0
    [ mkVectorRecord "1-0" [0.91%float]
        (Some (mkRecordMetadata (mkMetadata 1 "a.txt" 7 0 None)
                                (Some "first chunk")));
      mkVectorRecord "1-1" [0.7%float]
        (Some (mkRecordMetadata (mkMetadata 1 "a.txt" 7 1 None)
                                (Some "second chunk")));
      mkVectorRecord "9-9" []
        (Some (mkRecordMetadata (mkMetadata 9 "old.txt" 7 0 None) None));
      mkVectorRecord "2-0" [0.75%float]
        (Some (mkRecordMetadata (mkMetadata 2 "b.pdf" 7 0 (Some 3))
                                (Some "third chunk"))) ].

Definition scoredSys : Sys := set_indexes [scoredIndex] exampleSys.

Lemma context_assembly_witness :
  exists survivors entries,
    Forall2 entry_of survivors entries
    /\ fst (generateContextFromQuery scoringEnv "what?" 7 scoredSys)
       = Ok (Js.join (nl ++ nl) entries)
    /\ fst (generateContextFromQuery scoringEnv "what?" 7 scoredSys)
       = Ok ("[a.txt, page unknown]: first chunk" ++ nl ++ nl
               ++ "[b.pdf, page 3]: third chunk").
Proof.
  pose (run1 := generateEmbedding scoringEnv "what?" scoredSys).
  assert (E1 : run1 = (Ok [1%float], snd run1)) by (vm_compute; reflexivity).
  pose (run2 := searchSimilarChunks scoringEnv [1%float] 7 5 (snd run1)).
  assert (E2 : exists results, run2 = (Ok results, snd run2))
    by (eexists; vm_compute; reflexivity).
  destruct E2 as (results & E2).
  destruct (context_assembly scoringEnv "what?" 7 scoredSys (snd run1)
              (snd run2) [1%float] results E1 E2)
    as (survivors & entries & _ & _ & F & C).
  exists survivors, entries. split; [exact F|]. split.
  - now rewrite C.
  - vm_compute. reflexivity.
Defined.

Lemma scoreless_match_contributes_nothing_witness :
  let m := mkMatch "9-9" None
             (Some (mkRecordMetadata (mkMetadata 9 "old.txt" 7 0 None) None)) in
  (exists results,
      fst (searchSimilarChunks scoringEnv [1%float] 7 5 scoredSys) = Ok results
      /\ In (toSearchResult m) results)
  /\ score (toSearchResult m) = 0%float
  /\ result_text (toSearchResult m) = ""
  /\ fst (generateContextFromQuery scoringEnv "what?" 7 scoredSys)
     = Ok ("[a.txt, page unknown]: first chunk" ++ nl ++ nl
             ++ "[b.pdf, page 3]: third chunk").
Proof.
  intros m.
  pose (run1 := generateEmbedding scoringEnv "what?" scoredSys).
  assert (E1 : run1 = (Ok [1%float], snd run1)) by (vm_compute; reflexivity).
  destruct (scoreless_match_contributes_nothing scoringEnv "what?" 7 scoredSys
              (snd run1) [1%float] scoredIndex _ E1 eq_refl eq_refl eq_refl
              eq_refl)
    as (S & Hm & _).
  assert (I : In m (firstn 5
                      (Pinecone.rank
                         (map (Pinecone.to_match scoringEnv
                                 (mkQueryRequest [1%float] 5 7 true))
                              (filter (Pinecone.satisfies_filter 7)
                                      (ix_records scoredIndex))))))
    by (vm_compute; tauto).
  destruct (Hm m I eq_refl) as (S0 & T0 & _).
  split; [|split; [exact S0|split]].
  - eexists. split.
    + assert (K : fst (searchSimilarChunks scoringEnv [1%float] 7 5 scoredSys)
                  = fst (searchSimilarChunks scoringEnv [1%float] 7 5 (snd run1)))
        by (vm_compute; reflexivity).
      rewrite K. exact S.
    + apply in_map. exact I.
  - apply T0. right. eexists. split; reflexivity.
  - vm_compute. reflexivity.
Defined.

(* ====================================================================== *)
(** ** The document pipeline                                               *)
(* ====================================================================== *)

Definition docx : string :=
  "application/vnd.openxmlformats-officedocument.wordprocessingml.document".

(** The content types that the [switch] of [processDocument] reads. *)
Definition readable (mimeType : string) : Prop :=
  mimeType = "text/plain" \/ mimeType = "application/pdf" \/ mimeType = docx.

Definition emptyDocumentError : Error :=
  mkError ("Failed to process document: " ++ emptyDocumentMessage).

Definition embeddingModel : string := "text-embedding-ada-002".

Section Pipeline.
Variable env : Env.

(** Lines 44 to 75 of [processDocument]: what follows the validation. *)
Definition indexText (documentId : Z) (documentName : string) (userId : Z)
           (text : string) : M ProcessedDocument :=
  let chunks := splitText env text in
  let documentChunks :=
    mapi (fun chunk index =>
            mkDocumentChunk
              (Js.number_to_string documentId ++ "-"
                 ++ Js.number_to_string index)
              chunk
              (mkMetadata documentId documentName userId index None))
         chunks in
  embeddings <-
    promise_all
      (map (fun chunk => generateEmbedding env (chunk_text chunk))
           documentChunks) ;;
  upsertDocumentChunks env documentChunks embeddings ;;;
  ret (mkProcessedDocument documentChunks (Some 1)).

Definition rethrow (error : Error) : M ProcessedDocument :=
  console_error "Document processing error:" ;;;
  throw (mkError ("Failed to process document: " ++ message error)).

(** [processDocument] once the file has been read. *)
Lemma processDocument_read (filePath : string) (documentId : Z)
      (documentName : string) (userId : Z) (mimeType text : string)
      (s : Sys) :
  readable mimeType ->
  readFileSync env filePath = Ok text ->
  processDocument env filePath documentId documentName userId mimeType s =
  try_catch
    ((if negb (Js.truthy (Js.trim text))
      then throw (mkError emptyDocumentMessage)
      else ret tt) ;;;
     indexText documentId documentName userId text)
    rethrow
    (record_event (EvReadFile filePath) s).
Proof.
  intros Hm Hr.
  assert (R : fs_readFileSync env filePath s
              = (Ok text, record_event (EvReadFile filePath) s)).
  { unfold fs_readFileSync, bind, modify. now rewrite Hr. }
  assert (EX :
            (if (mimeType =? "text/plain")%string
             then fs_readFileSync env filePath
             else if ((mimeType =? "application/pdf")%string
                      || (mimeType =? "application/vnd.openxmlformats-officedocument.wordprocessingml.document")%string)%bool
                  then
                    try_catch (fs_readFileSync env filePath)
                      (fun _ => throw (mkError "PDF and DOCX processing requires additional setup. Please upload TXT files for now."))
                  else throw (mkError ("Unsupported file type: " ++ mimeType)))
              s
            = (Ok text, record_event (EvReadFile filePath) s)).
  { destruct (mimeType =? "text/plain")%string eqn:E1; [exact R|].
    destruct (_ || _)%bool eqn:E2.
    - unfold try_catch. now rewrite R.
    - apply orb_false_iff in E2. destruct E2 as [E2 E3].
      destruct Hm as [->|[->| ->]]; unfold docx in *;
        rewrite String.eqb_refl in *; discriminate. }
  unfold processDocument. unfold try_catch at 1.
  rewrite (bind_Ok _ _ s _ text EX). reflexivity.
Qed.

Lemma generateEmbedding_trace (text : string) (s : Sys) :
  trace (snd (generateEmbedding env text s))
  = (trace s ++ [EvEmbeddingsCreate embeddingModel text])%list.
Proof.
  destruct s as [st ixs clk tr con rs snt].
  cbv beta iota zeta delta
      [generateEmbedding try_catch bind embeddings modify throw ret
         console_error record_event record_console].
  destruct (embeddings_create env _ text) as [[|e l]|]; reflexivity.
Qed.

Lemma generateEmbedding_Throw (text : string) (s s' : Sys) (e : Error) :
  generateEmbedding env text s = (Throw e, s') ->
  e = mkError "Failed to generate embedding".
Proof.
  destruct s as [st ixs clk tr con rs snt].
  cbv beta iota zeta delta
      [generateEmbedding try_catch bind embeddings modify throw ret
         console_error record_event record_console].
  destruct (embeddings_create env _ text) as [[|x l]|]; congruence.
Qed.

Lemma promise_all_embeddings_trace (texts : list string) (s : Sys) :
  trace (snd (promise_all (map (generateEmbedding env) texts) s))
  = (trace s ++ map (EvEmbeddingsCreate embeddingModel) texts)%list.
Proof.
  revert s. induction texts as [|t texts IH]; intros s; simpl.
  - now rewrite app_nil_r.
  - pose proof (generateEmbedding_trace t s) as T.
    destruct (generateEmbedding env t s) as [r s1]. cbn [snd] in T.
    specialize (IH s1).
    destruct (promise_all (map (generateEmbedding env) texts) s1) as [rs s2].
    cbn [snd] in *. rewrite IH, T, <- app_assoc. reflexivity.
Qed.

Lemma promise_all_embeddings_Throw (texts : list string) (s s' : Sys)
      (e : Error) :
  promise_all (map (generateEmbedding env) texts) s = (Throw e, s') ->
  e = mkError "Failed to generate embedding".
Proof.
  revert s s'. induction texts as [|t texts IH]; intros s s'; simpl.
  - discriminate.
  - destruct (generateEmbedding env t s) as [r s1] eqn:E1.
    destruct (promise_all (map (generateEmbedding env) texts) s1)
      as [rs s2] eqn:E2.
    destruct r as [v|e1].
    + destruct rs as [l|e2]; [discriminate|].
      intros H. inversion H. subst. exact (IH _ _ E2).
    + intros H. inversion H. subst.
      exact (generateEmbedding_Throw _ _ _ _ E1).
Qed.

Lemma upsertDocumentChunks_Throw (chunks : list DocumentChunk)
      (embeddings : list (list float)) (s s' : Sys) (e : Error) :
  upsertDocumentChunks env chunks embeddings s = (Throw e, s') ->
  e = mkError "Failed to store document chunks".
Proof.
  unfold upsertDocumentChunks, try_catch.
  match goal with |- context [match ?m s with _ => _ end] =>
    destruct (m s) as [[a|e0] s1] end.
  - discriminate.
  - unfold bind, console_error, modify, throw. congruence.
Qed.

Lemma upsertDocumentChunks_trace (chunks : list DocumentChunk)
      (embeddings : list (list float)) :
  extends (upsertDocumentChunks env chunks embeddings).
Proof.
  unfold upsertDocumentChunks, initializePinecone, Pinecone.listIndexes,
    Pinecone.createIndex, Pinecone.upsert, sleep, console_error.
  extends_auto.
Qed.
End Pipeline.

Lemma mapi_from_chunk_text (f : string -> Z -> DocumentChunk) (i : Z)
      (l : list string) :
  (forall c j, chunk_text (f c j) = c) ->
  map chunk_text (mapi_from i f l) = l.
Proof.
  intros H. revert i. induction l as [|c l IH]; intros i; simpl;
    [reflexivity | now rewrite H, IH].
Qed.

Section EmptyDocument.
Variable env : Env.

Lemma indexText_trace (documentId : Z) (documentName : string) (userId : Z)
      (text : string) (s : Sys) :
  exists rest,
    trace (snd (try_catch (indexText env documentId documentName userId text)
                          rethrow s))
    = (trace s ++ map (EvEmbeddingsCreate embeddingModel) (splitText env text)
         ++ rest)%list.
Proof.
  unfold indexText. cbv zeta.
  match goal with
  | |- context [promise_all (map ?g ?chunks)] =>
      assert (E : map g chunks
                  = map (generateEmbedding env) (map chunk_text chunks))
        by (rewrite map_map; reflexivity);
      rewrite E; clear E
  end.
  unfold mapi. rewrite mapi_from_chunk_text by reflexivity.
  pose proof (promise_all_embeddings_trace env (splitText env text) s) as T.
  unfold try_catch, bind.
  destruct (promise_all _ s) as [[l|e] s2]; cbn [snd] in T.
  - match goal with
    | |- context [upsertDocumentChunks env ?c ?e s2] =>
        destruct (upsertDocumentChunks_trace env c e s2) as [rest U];
        destruct (upsertDocumentChunks env c e s2) as [[u|e3] s3]
    end; cbn [snd] in U; exists rest; cbn; now rewrite U, T, app_assoc.
  - exists []. cbn. now rewrite T, app_nil_r.
Qed.

Lemma indexText_not_empty_error (documentId : Z) (documentName : string)
      (userId : Z) (text : string) (s : Sys) :
  fst (try_catch (indexText env documentId documentName userId text)
                 rethrow s)
  <> Throw emptyDocumentError.
Proof.
  unfold indexText. cbv zeta.
  match goal with
  | |- context [promise_all (map ?g ?chunks)] =>
      assert (E : map g chunks
                  = map (generateEmbedding env) (map chunk_text chunks))
        by (rewrite map_map; reflexivity);
      rewrite E; clear E
  end.
  unfold try_catch, bind.
  destruct (promise_all _ s) as [[l|e] s2] eqn:P.
  - match goal with
    | |- context [upsertDocumentChunks env ?c ?e s2] =>
        destruct (upsertDocumentChunks env c e s2) as [[u|e3] s3] eqn:U
    end.
    + discriminate.
    + apply upsertDocumentChunks_Throw in U. subst e3.
      cbn. intros H. inversion H.
  - apply promise_all_embeddings_Throw in P. subst e.
    cbn. intros H. inversion H.
Qed.

(** C6.  Once the file has been read, [processDocument] fails with the
    empty-document error exactly when the text is empty after trimming,
    that is, when every character of it is white space.  In that case
    nothing but the read has left the process: no embedding call, no call
    to the index, and the index is as it was.  Otherwise the text goes to
    the splitter, and one embedding call per chunk follows the read. *)
Theorem empty_document_rejected :
  forall (filePath : string) (documentId : Z) (documentName : string)
         (userId : Z) (mimeType text : string) (s : Sys),
    readable mimeType ->
    readFileSync env filePath = Ok text ->
    let run := processDocument env filePath documentId documentName userId
                               mimeType s in
    (fst run = Throw emptyDocumentError <-> Js.trim text = "")
    /\ (Js.trim text = "" <-> Js.blank text = true)
    /\ (Js.trim text = "" ->
        trace (snd run) = (trace s ++ [EvReadFile filePath])%list
        /\ indexes (snd run) = indexes s)
    /\ (Js.trim text <> "" ->
        exists rest,
          trace (snd run)
          = (trace s ++ EvReadFile filePath
               :: map (EvEmbeddingsCreate embeddingModel) (splitText env text)
               ++ rest)%list).
Proof.
  intros filePath documentId documentName userId mimeType text s Hm Hr run.
  subst run.
  rewrite (processDocument_read env filePath documentId documentName userId
             mimeType text s Hm Hr).
  destruct (Js.truthy (Js.trim text)) eqn:T.
  - (* some text is left *)
    assert (Hne : Js.trim text <> "") by now apply truthy_true_iff.
    assert (E : forall s1,
               try_catch
                 ((if negb true then throw (mkError emptyDocumentMessage)
                   else ret tt) ;;;
                  indexText env documentId documentName userId text)
                 rethrow s1
               = try_catch (indexText env documentId documentName userId text)
                           rethrow s1) by reflexivity.
    rewrite E. split; [|split; [apply trim_empty_iff|split]].
    + split; [|contradiction].
      intros H. now apply indexText_not_empty_error in H.
    + contradiction.
    + intros _.
      destruct (indexText_trace documentId documentName userId text
                  (record_event (EvReadFile filePath) s)) as [rest R].
      exists rest. rewrite R. cbn [trace record_event].
      now rewrite <- app_assoc.
  - (* nothing but white space *)
    assert (He : Js.trim text = "") by now apply truthy_false_iff.
    split; [|split; [apply trim_empty_iff|split]].
    + split; [intros _; exact He | intros _; reflexivity].
    + intros _. split; reflexivity.
    + contradiction.
Qed.
End EmptyDocument.

Lemma empty_document_rejected_witness :
  fst (processDocument exampleEnv "/uploads/blank.txt" 1 "blank.txt" 7
                       "text/plain" exampleSys)
  = Throw emptyDocumentError
  /\ trace (snd (processDocument exampleEnv "/uploads/blank.txt" 1 "blank.txt"
                                 7 "text/plain" exampleSys))
     = [EvReadFile "/uploads/blank.txt"]
  /\ exists rest,
      trace (snd (processDocument exampleEnv "/uploads/a.txt" 2 "a.txt" 7
                                  "text/plain" exampleSys))
      = EvReadFile "/uploads/a.txt"
          :: EvEmbeddingsCreate embeddingModel
               "hello world, this is a test document"
          :: rest.
Proof.
  destruct (empty_document_rejected exampleEnv "/uploads/blank.txt" 1
              "blank.txt" 7 "text/plain" blankText exampleSys
              (or_introl eq_refl) eq_refl) as (Hiff & _ & Hblank & _).
  destruct (empty_document_rejected exampleEnv "/uploads/a.txt" 2
              "a.txt" 7 "text/plain" "hello world, this is a test document"
              exampleSys (or_introl eq_refl) eq_refl) as (_ & _ & _ & Htext).
  split; [apply Hiff; reflexivity|].
  split; [apply Hblank; reflexivity|].
  apply Htext. vm_compute. discriminate.
Defined.

(* ====================================================================== *)
(** ** First write to a new collection                                     *)
(* ====================================================================== *)

(** The vectors that [upsertDocumentChunks] builds. *)
Definition toVectors (chunks : list DocumentChunk)
           (embeddings : list (list float)) : list UpsertVector :=
  mapi (fun chunk i =>
          mkUpsertVector (chunk_id chunk)
            (nth_error embeddings (Z.to_nat i))
            (mkRecordMetadata (chunk_metadata chunk)
                              (Some (chunk_text chunk))))
       chunks.

Section FirstWrite.
Variable env : Env.

Lemma find_index_fresh (now : Z) (l : list IndexModel) :
  hasIndex env l = false ->
  Pinecone.find_index (indexName env) (l ++ [freshIndex env now])%list
  = Some (freshIndex env now).
Proof.
  intros H. rewrite find_index_app. rewrite hasIndex_find in H.
  destruct (Pinecone.find_index (indexName env) l); [discriminate|].
  unfold Pinecone.find_index, freshIndex. cbn [find ix_name].
  now rewrite String.eqb_refl.
Qed.

(** X27.  With the collection absent and the index service answering,
    [upsertDocumentChunks] lists the collections, creates one of dimension
    1536 with the cosine metric, sleeps 10 seconds and then writes; the
    collection reports ready at that write exactly when it needed at most
    10 seconds. *)
Lemma upsertDocumentChunks_bootstrap (chunks : list DocumentChunk)
      (embeddings : list (list float)) (s : Sys) :
  pinecone_fails env OpListIndexes = false ->
  pinecone_fails env OpCreateIndex = false ->
  hasIndex env (indexes s) = false ->
  trace (snd (upsertDocumentChunks env chunks embeddings s))
  = (trace s
       ++ [ EvListIndexes;
            EvCreateIndex (indexName env) 1536 "cosine" "aws" "us-east-1";
            EvSleep 10000;
            EvUpsert (indexName env) (provisioning_ms env <=? 10000)
                     (toVectors chunks embeddings) ])%list.
Proof.
  intros HL HC HI.
  unfold upsertDocumentChunks, try_catch, bind at 1.
  rewrite initializePinecone_run. cbv zeta. rewrite HL, HI, HC.
  fold (toVectors chunks embeddings).
  pose proof (find_index_fresh (clock s) (indexes s) HI) as F.
  destruct s as [st ixs clk tr con rs snt]. cbn [indexes clock] in F.
  cbv beta iota zeta delta
      [Pinecone.upsert bind modify gets throw ret console_error
         record_event record_console set_indexes advance
         storage indexes clock trace console readyState sent].
  rewrite F.
  assert (R : Pinecone.ready (clk + 10000) (freshIndex env clk)
              = (provisioning_ms env <=? 10000)).
  { unfold Pinecone.ready, freshIndex. cbn [ix_ready_at].
    destruct (Z.leb_spec (clk + provisioning_ms env) (clk + 10000));
      destruct (Z.leb_spec (provisioning_ms env) 10000); (reflexivity || lia). }
  rewrite R.
  destruct (pinecone_fails env OpUpsert);
    [|destruct (Pinecone.validate (toVectors chunks embeddings))];
    cbn [snd trace]; rewrite <- !app_assoc; reflexivity.
Qed.
End FirstWrite.

(** An index service whose new collections need 15 seconds. *)
Definition slowEnv : Env :=
  mkEnv None (readFileSync exampleEnv) (splitText exampleEnv)
        (embeddings_create exampleEnv) (chat_completions_create exampleEnv)
        (fun _ => false) (similarity exampleEnv) 15000.

Definition exampleChunk : DocumentChunk :=
  mkDocumentChunk "1-0" "hello world" (mkMetadata 1 "a.txt" 7 0 None).

(** C7, on a service that needs 15 seconds.  The collection is created with
    dimension 1536 and the cosine metric, and the write comes after the
    creation and the wait; but the wait is 10 seconds whatever the service
    reports, so the write reaches a collection that is not ready. *)
Theorem first_write_before_ready :
  let s' := snd (upsertDocumentChunks slowEnv [exampleChunk] [[1%float]]
                                      exampleSys) in
  trace s'
  = [ EvListIndexes;
      EvCreateIndex "chatbot-knowledge-base" 1536 "cosine" "aws" "us-east-1";
      EvSleep 10000;
      EvUpsert "chatbot-knowledge-base" false
               (toVectors [exampleChunk] [[1%float]]) ]
  /\ clock s' = 10000
  /\ exists ix,
      Pinecone.find_index "chatbot-knowledge-base" (indexes s') = Some ix
      /\ ix_ready_at ix = 15000
      /\ Pinecone.ready (clock s') ix = false.
Proof.
  cbv zeta. split; [reflexivity|]. split; [reflexivity|].
  eexists. split; [reflexivity|]. split; reflexivity.
Qed.

(* ====================================================================== *)
(** * Further properties of the store                                      *)
(* ====================================================================== *)

(** ** Reading the messages of a session *)

Definition earlier (a b : Message) : Prop := createdAt a <= createdAt b.

Lemma insertByCreatedAt_perm (x : Message) (l : list Message) :
  Permutation (insertByCreatedAt x l) (x :: l).
Proof.
  induction l as [|y l IH]; simpl; [reflexivity|].
  destruct (createdAt x <? createdAt y); [reflexivity|].
  rewrite IH. apply perm_swap.
Qed.

Lemma insertByCreatedAt_in (x y : Message) (l : list Message) :
  In y (insertByCreatedAt x l) <-> y = x \/ In y l.
Proof.
  split; intros H.
  - apply (Permutation_in _ (insertByCreatedAt_perm x l)) in H.
    destruct H as [H|H]; [left; now symmetry | now right].
  - apply (Permutation_in _ (Permutation_sym (insertByCreatedAt_perm x l))).
    destruct H as [H|H]; [left; now symmetry | now right].
Qed.

Lemma insertByCreatedAt_sorted (x : Message) (l : list Message) :
  StronglySorted earlier l -> StronglySorted earlier (insertByCreatedAt x l).
Proof.
  induction 1 as [|y l Hl IH Hy]; simpl.
  - constructor; constructor.
  - destruct (Z.ltb_spec (createdAt x) (createdAt y)) as [Hlt|Hge].
    + constructor; [constructor; assumption|].
      constructor; [unfold earlier; lia|].
      rewrite Forall_forall in *. intros z Hz. specialize (Hy z Hz).
      unfold earlier in *. lia.
    + constructor; [exact IH|].
      rewrite Forall_forall in *. intros z Hz.
      apply insertByCreatedAt_in in Hz. destruct Hz as [->|Hz].
      * exact Hge.
      * now apply Hy.
Qed.

Lemma sortByCreatedAt_from (l acc : list Message) :
  Permutation (fold_left (fun a x => insertByCreatedAt x a) l acc) (acc ++ l)
  /\ (StronglySorted earlier acc ->
      StronglySorted earlier (fold_left (fun a x => insertByCreatedAt x a) l acc)).
Proof.
  revert acc. induction l as [|x l IH]; intros acc; simpl.
  - rewrite app_nil_r. split; [reflexivity | trivial].
  - destruct (IH (insertByCreatedAt x acc)) as [P S]. split.
    + rewrite P, insertByCreatedAt_perm. apply Permutation_middle.
    + intros H. apply S. now apply insertByCreatedAt_sorted.
Qed.

Lemma insertByCreatedAt_last (x : Message) (l : list Message) :
  Forall (fun y => earlier y x) l -> insertByCreatedAt x l = (l ++ [x])%list.
Proof.
  induction 1 as [|y l Hy _ IH]; simpl; [reflexivity|].
  destruct (Z.ltb_spec (createdAt x) (createdAt y)) as [Hlt|_].
  - unfold earlier in Hy. lia.
  - now rewrite IH.
Qed.

Lemma StronglySorted_app_last (l : list Message) (x : Message) (rest : list Message) :
  StronglySorted earlier (l ++ x :: rest) -> Forall (fun y => earlier y x) l.
Proof.
  induction l as [|y l IH]; simpl; intros H; [constructor|].
  apply StronglySorted_inv in H. destruct H as [H Hy]. constructor.
  - rewrite Forall_forall in Hy. apply Hy. apply in_or_app. right. now left.
  - now apply IH.
Qed.

Lemma sortByCreatedAt_sorted_input (l acc : list Message) :
  StronglySorted earlier (acc ++ l) ->
  fold_left (fun a x => insertByCreatedAt x a) l acc = (acc ++ l)%list.
Proof.
  revert acc. induction l as [|x l IH]; intros acc H; simpl.
  - now rewrite app_nil_r.
  - rewrite (insertByCreatedAt_last x acc (StronglySorted_app_last acc x l H)).
    rewrite IH; rewrite <- app_assoc; [reflexivity | exact H].
Qed.

(** The messages of session [sid] as the table holds them, in insertion
    order. *)
Definition storedMessages (sid : Z) (s : Sys) : list Message :=
  filter (fun msg => sessionId msg =? sid) (JsMap.values (messages (storage s))).

(** X1.  [getMessagesBySessionId] returns the stored messages of the session,
    each once and no other, in ascending order of [createdAt]. *)
Theorem getMessagesBySessionId_sorted :
  forall (sid : Z) (s : Sys),
  exists result,
    getMessagesBySessionId sid s = (Ok result, s)
    /\ Permutation result (storedMessages sid s)
    /\ StronglySorted earlier result
    /\ (forall m, In m result <->
                  In m (JsMap.values (messages (storage s))) /\ sessionId m = sid).
Proof.
  intros sid s. eexists. split; [reflexivity|].
  destruct (sortByCreatedAt_from (storedMessages sid s) []) as [P S].
  split; [exact P|]. split; [apply S; constructor|].
  intros m. split.
  - intros H. apply (Permutation_in _ P) in H. unfold storedMessages in H.
    apply filter_In in H. destruct H as [H E]. split; [exact H|].
    now apply Z.eqb_eq.
  - intros [H E]. apply (Permutation_in _ (Permutation_sym P)).
    apply filter_In. split; [exact H | now apply Z.eqb_eq].
Qed.

(** X2.  The sort is stable and leaves a sorted list alone: when the
    timestamps of the session's messages do not decrease in insertion
    order (messages written in the same millisecond included),
    [getMessagesBySessionId] returns them in insertion order. *)
Theorem getMessagesBySessionId_insertion_order :
  forall (sid : Z) (s : Sys),
    StronglySorted earlier (storedMessages sid s) ->
    fst (getMessagesBySessionId sid s) = Ok (storedMessages sid s).
Proof.
  intros sid s H. unfold getMessagesBySessionId, gets, sortByCreatedAt.
  cbn [fst]. fold (storedMessages sid s).
  now rewrite (sortByCreatedAt_sorted_input (storedMessages sid s) [] H).
Qed.

Lemma getMessagesBySessionId_insertion_order_witness :
  fst (getMessagesBySessionId 1 exampleHistory)
  = Ok [ mkMessage 1 1 user "hi" None 0;
         mkMessage 2 1 assistant "hello" None 0 ].
Proof.
  apply (getMessagesBySessionId_insertion_order 1 exampleHistory).
  repeat constructor; unfold earlier; cbn; lia.
Defined.

(** ** Keys and counters *)

Definition keys {V} (m : JsMap.t V) : list Z := map fst m.
Arguments keys {V} m : simpl never.

Lemma JsMap_has_keys {V} (m : JsMap.t V) (k : Z) :
  JsMap.has k m = true <-> In k (keys m).
Proof.
  unfold JsMap.has, keys. rewrite existsb_exists, in_map_iff.
  split; intros (p & H1 & H2); exists p.
  - apply Z.eqb_eq in H2. now split.
  - split; [exact H2 | now apply Z.eqb_eq].
Qed.

Lemma JsMap_set_fresh {V} (m : JsMap.t V) (k : Z) (v : V) :
  ~ In k (keys m) -> JsMap.set k v m = (m ++ [(k, v)])%list.
Proof.
  intros H. unfold JsMap.set.
  destruct (JsMap.has k m) eqn:E; [|reflexivity].
  apply JsMap_has_keys in E. contradiction.
Qed.

Lemma JsMap_keys_set {V} (m : JsMap.t V) (k : Z) (v : V) :
  keys (JsMap.set k v m)
  = if JsMap.has k m then keys m else (keys m ++ [k])%list.
Proof.
  unfold JsMap.set, keys. destruct (JsMap.has k m).
  - rewrite map_map. apply map_ext_in. intros p _.
    destruct (Z.eqb_spec (fst p) k) as [E|_]; [now rewrite E | reflexivity].
  - now rewrite map_app.
Qed.

Lemma JsMap_keys_delete {V} (m : JsMap.t V) (k : Z) :
  keys (JsMap.delete k m) = filter (fun x => negb (x =? k)) (keys m).
Proof.
  unfold JsMap.delete, keys.
  induction m as [|p m IH]; simpl; [reflexivity|].
  destruct (fst p =? k); simpl; now rewrite IH.
Qed.

Lemma NoDup_filter {A} (f : A -> bool) (l : list A) :
  NoDup l -> NoDup (filter f l).
Proof.
  induction 1 as [|x l Hx _ IH]; simpl; [constructor|].
  destruct (f x); [|exact IH]. constructor; [|exact IH].
  intros H. apply filter_In in H. now apply Hx.
Qed.

Lemma NoDup_keys_unique {V} (m : JsMap.t V) (k : Z) (a b : V) :
  NoDup (keys m) -> In (k, a) m -> In (k, b) m -> a = b.
Proof.
  unfold keys. induction m as [|[k' v] m IH]; simpl; intros N Ha Hb; [easy|].
  inversion N as [|? ? Hk N']; subst.
  destruct Ha as [Ha|Ha], Hb as [Hb|Hb].
  - congruence.
  - inversion Ha; subst. exfalso. apply Hk.
    apply in_map_iff. now exists (k, b).
  - inversion Hb; subst. exfalso. apply Hk.
    apply in_map_iff. now exists (k, a).
  - now apply IH.
Qed.

Lemma JsMap_get_in {V} (m : JsMap.t V) (k : Z) (v : V) :
  JsMap.get k m = Some v -> In (k, v) m.
Proof.
  unfold JsMap.get. destruct (find _ m) as [[k' v']|] eqn:F; [|discriminate].
  apply find_some in F. destruct F as [Hin E]. cbn in *.
  apply Z.eqb_eq in E. intros H. inversion H. now subst.
Qed.

Lemma JsMap_in_get {V} (m : JsMap.t V) (k : Z) (v : V) :
  NoDup (keys m) -> In (k, v) m -> JsMap.get k m = Some v.
Proof.
  intros N H. destruct (JsMap.get k m) as [v'|] eqn:G.
  - apply JsMap_get_in in G. f_equal. exact (NoDup_keys_unique m k v' v N G H).
  - pose proof (JsMap_has_get _ m k) as HG. rewrite G in HG.
    assert (JsMap.has k m = true)
      by (apply JsMap_has_keys; unfold keys; apply in_map_iff; now exists (k, v)).
    congruence.
Qed.

(** What the methods maintain: a message sits under its own id, no key
    occurs twice, and the counters are ahead of every key in use. *)
Record wellFormed (st : MemStorage) : Prop := mkWellFormed {
  wf_keyed : keyed st;
  wf_messages_nodup : NoDup (keys (messages st));
  wf_sessions_nodup : NoDup (keys (chatSessions st));
  wf_messages_below : forall k, In k (keys (messages st)) -> k < currentMessageId st;
  wf_sessions_below : forall k, In k (keys (chatSessions st)) -> k < currentSessionId st
}.

Lemma below_not_in (l : list Z) (c : Z) :
  (forall k, In k l -> k < c) -> ~ In c l.
Proof. intros H Hc. specialize (H c Hc). lia. Qed.

Lemma NoDup_snoc (l : list Z) (c : Z) : NoDup l -> ~ In c l -> NoDup (l ++ [c]).
Proof.
  intros N H. apply NoDup_app; [exact N | repeat constructor; easy|].
  intros x Hx [<-|[]]. contradiction.
Qed.

Lemma deleteEach_keys (selected : list Message) (m : JsMap.t Message) (k : Z) :
  In k (keys (deleteEach selected m)) -> In k (keys m).
Proof.
  unfold keys. intros H. apply in_map_iff in H. destruct H as (p & E & H).
  apply deleteEach_in in H. apply in_map_iff. exists p. now split.
Qed.

Lemma deleteEach_nodup (selected : list Message) (m : JsMap.t Message) :
  NoDup (keys m) -> NoDup (keys (deleteEach selected m)).
Proof.
  unfold deleteEach. revert m.
  induction selected as [|x sel IH]; intros m N; simpl; [exact N|].
  apply IH. rewrite JsMap_keys_delete. now apply NoDup_filter.
Qed.

Lemma wellFormed_new : wellFormed newMemStorage.
Proof.
  constructor; cbn; try constructor; try easy.
Qed.

Lemma wellFormed_runCall (s : Sys) (c : StoreCall) :
  wellFormed (storage s) -> wellFormed (storage (snd (runCall c s))).
Proof.
  intros W. pose proof (keyed_runCall s c (wf_keyed _ W)) as K.
  destruct W as [_ Nm Ns Bm Bs].
  destruct c as [ins|id updates|id|ins].
  - (* createChatSession *)
    constructor; [exact K | exact Nm | | exact Bm |]; cbn;
      rewrite JsMap_keys_set;
      destruct (JsMap.has _ _) eqn:H;
      try (apply JsMap_has_keys in H; specialize (Bs _ H); lia).
    + apply NoDup_snoc; [exact Ns | now apply below_not_in].
    + intros k Hk. apply in_app_or in Hk. destruct Hk as [Hk|[<-|[]]];
        [specialize (Bs k Hk)|]; lia.
  - (* updateChatSession *)
    unfold runCall, bind in *.
    destruct (JsMap.get id (chatSessions (storage s))) as [session|] eqn:G.
    + rewrite (updateChatSession_found id updates s session G) in *.
      assert (H : JsMap.has id (chatSessions (storage s)) = true)
        by (rewrite JsMap_has_get, G; reflexivity).
      constructor; [exact K | exact Nm | | exact Bm |]; cbn;
        rewrite JsMap_keys_set, H; assumption.
    + rewrite (updateChatSession_missing id updates s G) in *.
      constructor; assumption.
  - (* deleteChatSession *)
    constructor; [exact K | | | |]; cbn.
    + now apply deleteEach_nodup.
    + rewrite JsMap_keys_delete. now apply NoDup_filter.
    + intros k Hk. apply deleteEach_keys in Hk. now apply Bm.
    + intros k Hk. rewrite JsMap_keys_delete in Hk. apply filter_In in Hk.
      now apply Bs.
  - (* createMessage *)
    constructor; [exact K | | exact Ns | | exact Bs]; cbn;
      rewrite JsMap_keys_set;
      destruct (JsMap.has _ _) eqn:H;
      try (apply JsMap_has_keys in H; specialize (Bm _ H); lia).
    + apply NoDup_snoc; [exact Nm | now apply below_not_in].
    + intros k Hk. apply in_app_or in Hk. destruct Hk as [Hk|[<-|[]]];
        [specialize (Bm k Hk)|]; lia.
Qed.

Lemma reachable_wellFormed (st : MemStorage) : reachable st -> wellFormed st.
Proof.
  induction 1 as [|s c _ IH]; [apply wellFormed_new | now apply wellFormed_runCall].
Qed.

(** ** Writing messages and sessions *)

Lemma storedMessages_app (sid : Z) (m : JsMap.t Message) (k : Z) (msg : Message) :
  filter (fun x => sessionId x =? sid) (JsMap.values (m ++ [(k, msg)])%list)
  = (filter (fun x => sessionId x =? sid) (JsMap.values m)
       ++ (if sessionId msg =? sid then [msg] else []))%list.
Proof.
  unfold JsMap.values. rewrite map_app, filter_app. cbn.
  destruct (sessionId msg =? sid); reflexivity.
Qed.

(** [createMessage] in a well-formed store. *)
Lemma createMessage_in_wellFormed (s : Sys) (ins : InsertMessage) :
  wellFormed (storage s) ->
  let id := currentMessageId (storage s) in
  let msg := mkMessage id (ins_sessionId ins) (ins_role ins)
                       (ins_content ins) (ins_sources ins) (clock s) in
  let s' := snd (createMessage ins s) in
  fst (createMessage ins s) = Ok msg
  /\ JsMap.get id (messages (storage s)) = None
  /\ messages (storage s') = (messages (storage s) ++ [(id, msg)])%list
  /\ currentMessageId (storage s') = id + 1
  /\ storedMessages (ins_sessionId ins) s'
     = (storedMessages (ins_sessionId ins) s ++ [msg])%list
  /\ (forall sid, sid <> ins_sessionId ins ->
                  storedMessages sid s' = storedMessages sid s)
  /\ chatSessions (storage s') = chatSessions (storage s).
Proof.
  intros R id msg s'.
  assert (Fresh : ~ In id (keys (messages (storage s))))
    by (apply below_not_in; exact (wf_messages_below _ R)).
  assert (E : messages (storage s') = (messages (storage s) ++ [(id, msg)])%list)
    by (subst s'; cbn; now apply JsMap_set_fresh).
  split; [reflexivity|]. split; [|split; [exact E|split; [reflexivity|]]].
  - pose proof (JsMap_has_get _ (messages (storage s)) id) as H.
    destruct (JsMap.get id (messages (storage s))); [|reflexivity].
    apply JsMap_has_keys in H. contradiction.
  - unfold storedMessages. rewrite E.
    split; [|split; [|reflexivity]].
    + rewrite storedMessages_app. cbn [sessionId msg]. now rewrite Z.eqb_refl.
    + intros sid Hne. rewrite storedMessages_app. cbn [sessionId msg].
      destruct (Z.eqb_spec (ins_sessionId ins) sid) as [Heq|_];
        [congruence | apply app_nil_r].
Qed.

(** X3.  In a store the server can be in, [createMessage] takes an id that
    no stored message has, appends the new message to the table without
    touching any other entry, and advances the counter.  The session named
    in the message gets exactly that one message more, at the end; every
    other session keeps its messages; the session table is as before. *)
Theorem createMessage_appends :
  forall (s : Sys) (ins : InsertMessage),
    reachable (storage s) ->
    let id := currentMessageId (storage s) in
    let msg := mkMessage id (ins_sessionId ins) (ins_role ins)
                         (ins_content ins) (ins_sources ins) (clock s) in
    let s' := snd (createMessage ins s) in
    fst (createMessage ins s) = Ok msg
    /\ JsMap.get id (messages (storage s)) = None
    /\ messages (storage s') = (messages (storage s) ++ [(id, msg)])%list
    /\ currentMessageId (storage s') = id + 1
    /\ storedMessages (ins_sessionId ins) s'
       = (storedMessages (ins_sessionId ins) s ++ [msg])%list
    /\ (forall sid, sid <> ins_sessionId ins ->
                    storedMessages sid s' = storedMessages sid s)
    /\ chatSessions (storage s') = chatSessions (storage s).
Proof.
  intros s ins R. apply createMessage_in_wellFormed.
  now apply reachable_wellFormed.
Qed.

Lemma createMessage_appends_witness :
  storedMessages 1 (snd (createMessage (mkInsertMessage 1 user "again" None)
                                       exampleHistory))
  = (storedMessages 1 exampleHistory
       ++ [mkMessage 4 1 user "again" None 0])%list.
Proof.
  assert (R : reachable (storage exampleHistory))
    by (unfold exampleHistory; repeat apply reachable_call; apply reachable_new).
  exact (proj1 (proj2 (proj2 (proj2 (proj2
           (createMessage_appends exampleHistory
              (mkInsertMessage 1 user "again" None) R)))))).
Defined.

Lemma deleteEach_filter (selected : list Message) (m : JsMap.t Message) :
  deleteEach selected m
  = filter (fun p => negb (existsb (fun x => msg_id x =? fst p) selected)) m.
Proof.
  unfold deleteEach. revert m.
  induction selected as [|x sel IH]; intros m; simpl.
  - induction m as [|p m IHm]; simpl; [reflexivity | now rewrite <- IHm].
  - rewrite IH. unfold JsMap.delete.
    induction m as [|p m IHm]; simpl; [reflexivity|].
    rewrite (Z.eqb_sym (msg_id x) (fst p)).
    destruct (fst p =? msg_id x); simpl; [exact IHm|].
    destruct (existsb _ sel); simpl; [exact IHm | now rewrite IHm].
Qed.

(** In a well-formed table, deleting by the ids of the selected messages
    removes the messages of the session and no other. *)
Lemma deleteEach_session (st : MemStorage) (id : Z) :
  wellFormed st ->
  deleteEach (filter (fun msg => sessionId msg =? id) (JsMap.values (messages st)))
             (messages st)
  = filter (fun p => negb (sessionId (snd p) =? id)) (messages st).
Proof.
  intros W. rewrite deleteEach_filter. apply filter_ext_in.
  intros [k m] Hp. cbn [fst snd]. f_equal.
  pose proof (wf_keyed _ W k m Hp) as Hk.
  destruct (sessionId m =? id) eqn:E.
  - apply existsb_exists. exists m. split.
    + apply filter_In. split; [|exact E].
      unfold JsMap.values. apply in_map_iff. now exists (k, m).
    + now apply Z.eqb_eq.
  - destruct (existsb _ _) eqn:X; [|reflexivity].
    apply existsb_exists in X. destruct X as (x & Hx & Hid).
    apply filter_In in Hx. destruct Hx as [Hx Hs].
    unfold JsMap.values in Hx. apply in_map_iff in Hx.
    destruct Hx as ([k' x'] & Ex & Hin). cbn in Ex. subst x'.
    pose proof (wf_keyed _ W k' x Hin) as Hk'. apply Z.eqb_eq in Hid.
    assert (Ek : k' = k) by lia. rewrite Ek in Hin.
    rewrite (NoDup_keys_unique _ k m x (wf_messages_nodup _ W) Hp Hin) in E.
    congruence.
Qed.

Lemma filter_values_other (id id' : Z) (m : JsMap.t Message) :
  id' <> id ->
  filter (fun x => sessionId x =? id')
         (JsMap.values (filter (fun p => negb (sessionId (snd p) =? id)) m))
  = filter (fun x => sessionId x =? id') (JsMap.values m).
Proof.
  intros Hne. unfold JsMap.values.
  induction m as [|[k x] m IH]; simpl; [reflexivity|].
  destruct (Z.eqb_spec (sessionId x) id) as [E|_]; simpl.
  - destruct (Z.eqb_spec (sessionId x) id') as [E'|_]; [congruence | exact IH].
  - now rewrite IH.
Qed.

(** [deleteChatSession] in a well-formed store. *)
Lemma deleteChatSession_in_wellFormed (s : Sys) (id : Z) :
  wellFormed (storage s) ->
  let s' := snd (deleteChatSession id s) in
  messages (storage s')
  = filter (fun p => negb (sessionId (snd p) =? id)) (messages (storage s))
  /\ (forall id', id' <> id ->
         JsMap.get id' (chatSessions (storage s'))
         = JsMap.get id' (chatSessions (storage s))
         /\ storedMessages id' s' = storedMessages id' s).
Proof.
  intros R s'.
  assert (E : messages (storage s')
              = filter (fun p => negb (sessionId (snd p) =? id))
                       (messages (storage s)))
    by (subst s'; cbn; now apply deleteEach_session).
  split; [exact E|].
  intros id' Hne. split.
  - subst s'. cbn. apply JsMap_get_delete_other. congruence.
  - unfold storedMessages. rewrite E. now apply filter_values_other.
Qed.

(** X4.  In a store the server can be in, [deleteChatSession id] answers
    whether the session existed, removes from the message table exactly the
    messages of that session, and leaves every other session, every other
    session's messages and both counters as they were, so that no id is
    handed out again. *)
Theorem deleteChatSession_exact :
  forall (s : Sys) (id : Z),
    reachable (storage s) ->
    let s' := snd (deleteChatSession id s) in
    fst (deleteChatSession id s)
    = Ok (match JsMap.get id (chatSessions (storage s)) with
          | Some _ => true
          | None => false
          end)
    /\ messages (storage s')
       = filter (fun p => negb (sessionId (snd p) =? id)) (messages (storage s))
    /\ (forall id', id' <> id ->
           JsMap.get id' (chatSessions (storage s'))
           = JsMap.get id' (chatSessions (storage s))
           /\ storedMessages id' s' = storedMessages id' s)
    /\ currentMessageId (storage s') = currentMessageId (storage s)
    /\ currentSessionId (storage s') = currentSessionId (storage s).
Proof.
  intros s id R s'.
  destruct (deleteChatSession_in_wellFormed s id (reachable_wellFormed _ R))
    as [E Hother].
  split; [|split; [exact E|split; [exact Hother|split; reflexivity]]].
  cbn. now rewrite JsMap_has_get.
Qed.

Lemma deleteChatSession_exact_witness :
  storedMessages 2 (snd (deleteChatSession 1 exampleHistory))
  = [mkMessage 3 2 user "other" None 0]
  /\ fst (deleteChatSession 5 exampleHistory) = Ok false.
Proof.
  assert (R : reachable (storage exampleHistory))
    by (unfold exampleHistory; repeat apply reachable_call; apply reachable_new).
  split.
  - destruct (deleteChatSession_exact exampleHistory 1 R) as (_ & _ & H & _).
    destruct (H 2 ltac:(discriminate)) as [_ H2]. rewrite H2. reflexivity.
  - exact (proj1 (deleteChatSession_exact exampleHistory 5 R)).
Defined.

(** X5.  [updateChatSession] on an id that is not in the table returns
    [undefined] and changes nothing.  On a stored session it returns the
    merged row, which is what [getChatSession] finds afterwards: each of
    [id], [userId], [title], [lastMessage] and [createdAt] is taken from
    [updates] if named there and kept otherwise, and [updatedAt] is the
    current time whatever [updates] says.  The row stays under its key and
    in its place in the table, also when [updates] gives it another [id];
    no other session and no message changes. *)
Theorem updateChatSession_merges :
  forall (s : Sys) (id : Z) (updates : PartialChatSession),
    let s' := snd (updateChatSession id updates s) in
    match JsMap.get id (chatSessions (storage s)) with
    | None => updateChatSession id updates s = (Ok None, s)
    | Some session =>
        exists updated,
          fst (updateChatSession id updates s) = Ok (Some updated)
          /\ JsMap.get id (chatSessions (storage s')) = Some updated
          /\ updatedAt updated = clock s
          /\ session_id updated
             = match upd_id updates with
               | Some i => i
               | None => session_id session
               end
          /\ session_createdAt updated
             = match upd_createdAt updates with
               | Some c => c
               | None => session_createdAt session
               end
          /\ lastMessage updated
             = match upd_lastMessage updates with
               | Some l => l
               | None => lastMessage session
               end
          /\ session_userId updated
             = match upd_userId updates with
               | Some u => u
               | None => session_userId session
               end
          /\ session_title updated
             = match upd_title updates with
               | Some t => t
               | None => session_title session
               end
          /\ keys (chatSessions (storage s')) = keys (chatSessions (storage s))
          /\ (forall id', id' <> id ->
                 JsMap.get id' (chatSessions (storage s'))
                 = JsMap.get id' (chatSessions (storage s)))
          /\ messages (storage s') = messages (storage s)
    end.
Proof.
  intros s id updates s'.
  destruct (JsMap.get id (chatSessions (storage s))) as [session|] eqn:G.
  - subst s'. rewrite (updateChatSession_found id updates s session G).
    exists (spread session updates (clock s)). cbn.
    split; [reflexivity|]. split; [apply JsMap_get_set_same|].
    do 6 (split; [reflexivity|]). split; [|split; [|reflexivity]].
    + rewrite JsMap_keys_set, JsMap_has_get, G. reflexivity.
    + intros id' Hne. apply JsMap_get_set_other. congruence.
  - now apply updateChatSession_missing.
Qed.

(** X6.  In a store the server can be in, [createChatSession] takes an id
    that no session has, stores the new session under it and advances the
    counter; [createdAt] and [updatedAt] are both the current time, and a
    missing or empty [lastMessage] is stored as [null].  Sessions that were
    there are found as before, and the message table is untouched. *)
Theorem createChatSession_fresh :
  forall (s : Sys) (ins : InsertChatSession),
    reachable (storage s) ->
    let id := currentSessionId (storage s) in
    let s' := snd (createChatSession ins s) in
    exists session,
      fst (createChatSession ins s) = Ok session
      /\ session_id session = id
      /\ session_userId session = ins_session_userId ins
      /\ session_title session = ins_session_title ins
      /\ session_createdAt session = clock s
      /\ updatedAt session = clock s
      /\ lastMessage session
         = match ins_lastMessage ins with
           | Some "" => None
           | other => other
           end
      /\ JsMap.get id (chatSessions (storage s)) = None
      /\ JsMap.get id (chatSessions (storage s')) = Some session
      /\ currentSessionId (storage s') = id + 1
      /\ (forall id', id' <> id ->
             JsMap.get id' (chatSessions (storage s'))
             = JsMap.get id' (chatSessions (storage s)))
      /\ messages (storage s') = messages (storage s).
Proof.
  intros s ins R id s'. apply reachable_wellFormed in R.
  eexists. split; [reflexivity|]. cbn.
  do 5 (split; [reflexivity|]).
  split; [destruct (ins_lastMessage ins) as [[|c l]|]; reflexivity|].
  split; [|split; [apply JsMap_get_set_same|split; [reflexivity|split; [|reflexivity]]]].
  - pose proof (JsMap_has_get _ (chatSessions (storage s)) id) as H.
    destruct (JsMap.get id (chatSessions (storage s))); [|reflexivity].
    apply JsMap_has_keys in H.
    pose proof (wf_sessions_below _ R id H). subst id. lia.
  - intros id' Hne. apply JsMap_get_set_other.
    intros E. apply Hne. exact (eq_sym E).
Qed.

Lemma createChatSession_fresh_witness :
  fst (getChatSession 3
         (snd (createChatSession (mkInsertChatSession 7 "third" (Some ""))
                                 exampleHistory)))
  = Ok (Some (mkChatSession 3 7 "third" None 0 0)).
Proof.
  assert (R : reachable (storage exampleHistory))
    by (unfold exampleHistory; repeat apply reachable_call; apply reachable_new).
  destruct (createChatSession_fresh exampleHistory
              (mkInsertChatSession 7 "third" (Some "")) R)
    as (session & E & _ & _ & _ & _ & _ & _ & _ & G & _).
  cbn in E. injection E as <-. exact (f_equal (@Ok _) G).
Defined.

(** ** Listing the sessions of a user *)

(** Stable insertion in descending [updatedAt], as [Array.prototype.sort]
    with the comparator [b.updatedAt - a.updatedAt]. *)
Fixpoint insertByUpdatedAtDesc (x : ChatSession) (l : list ChatSession)
  : list ChatSession :=
  match l with
  | [] => [x]
  | y :: l' =>
      if updatedAt y <? updatedAt x then x :: l
      else y :: insertByUpdatedAtDesc x l'
  end.

Definition sortByUpdatedAtDesc (l : list ChatSession) : list ChatSession :=
  fold_left (fun acc x => insertByUpdatedAtDesc x acc) l [].

(** [MemStorage.getChatSessionsByUserId] *)
Definition getChatSessionsByUserId (userId : Z) : M (list ChatSession) :=
  gets (fun s =>
          sortByUpdatedAtDesc
            (filter (fun session => session_userId session =? userId)
                    (JsMap.values (chatSessions (storage s))))).

Definition later (a b : ChatSession) : Prop := updatedAt b <= updatedAt a.

Lemma insertByUpdatedAtDesc_perm (x : ChatSession) (l : list ChatSession) :
  Permutation (insertByUpdatedAtDesc x l) (x :: l).
Proof.
  induction l as [|y l IH]; simpl; [reflexivity|].
  destruct (updatedAt y <? updatedAt x); [reflexivity|].
  rewrite IH. apply perm_swap.
Qed.

Lemma insertByUpdatedAtDesc_sorted (x : ChatSession) (l : list ChatSession) :
  StronglySorted later l -> StronglySorted later (insertByUpdatedAtDesc x l).
Proof.
  induction 1 as [|y l Hl IH Hy]; simpl.
  - constructor; constructor.
  - destruct (Z.ltb_spec (updatedAt y) (updatedAt x)) as [Hlt|Hge].
    + constructor; [constructor; assumption|].
      constructor; [unfold later; lia|].
      rewrite Forall_forall in *. intros z Hz. specialize (Hy z Hz).
      unfold later in *. lia.
    + constructor; [exact IH|].
      rewrite Forall_forall in *. intros z Hz.
      apply (Permutation_in _ (insertByUpdatedAtDesc_perm x l)) in Hz.
      destruct Hz as [<-|Hz]; [exact Hge | now apply Hy].
Qed.

Lemma sortByUpdatedAtDesc_from (l acc : list ChatSession) :
  Permutation (fold_left (fun a x => insertByUpdatedAtDesc x a) l acc) (acc ++ l)
  /\ (StronglySorted later acc ->
      StronglySorted later
        (fold_left (fun a x => insertByUpdatedAtDesc x a) l acc)).
Proof.
  revert acc. induction l as [|x l IH]; intros acc; simpl.
  - rewrite app_nil_r. split; [reflexivity | trivial].
  - destruct (IH (insertByUpdatedAtDesc x acc)) as [P S]. split.
    + rewrite P, insertByUpdatedAtDesc_perm. apply Permutation_middle.
    + intros H. apply S. now apply insertByUpdatedAtDesc_sorted.
Qed.

(** X7.  [getChatSessionsByUserId] returns the stored sessions whose owner
    is the given user, each once and no session of anybody else, most
    recently updated first; it changes nothing. *)
Theorem getChatSessionsByUserId_own_sessions :
  forall (uid : Z) (s : Sys),
  exists result,
    getChatSessionsByUserId uid s = (Ok result, s)
    /\ Permutation result
         (filter (fun session => session_userId session =? uid)
                 (JsMap.values (chatSessions (storage s))))
    /\ StronglySorted later result
    /\ (forall c, In c result -> session_userId c = uid)
    /\ (forall k c, JsMap.get k (chatSessions (storage s)) = Some c ->
                    session_userId c = uid -> In c result).
Proof.
  intros uid s. eexists. split; [reflexivity|].
  match goal with
  | |- Permutation (sortByUpdatedAtDesc ?l) _ /\ _ =>
      destruct (sortByUpdatedAtDesc_from l []) as [P S]
  end.
  split; [exact P|]. split; [apply S; constructor|]. split.
  - intros c H. apply (Permutation_in _ P) in H. apply filter_In in H.
    now apply Z.eqb_eq.
  - intros k c G U. apply (Permutation_in _ (Permutation_sym P)).
    apply filter_In. split; [|now apply Z.eqb_eq].
    unfold JsMap.values. apply in_map_iff. exists (k, c).
    split; [reflexivity | now apply JsMap_get_in].
Qed.

(* ====================================================================== *)
(** * Further properties of the realtime gateway                           *)
(* ====================================================================== *)

Lemma bind_Throw_inv {A B} (m : M A) (k : A -> M B) (s s' : Sys) (e : Error) :
  bind m k s = (Throw e, s') ->
  m s = (Throw e, s')
  \/ exists a s1, m s = (Ok a, s1) /\ k a s1 = (Throw e, s').
Proof.
  unfold bind. destruct (m s) as [[a|e0] s1]; intros H.
  - right. now exists a, s1.
  - left. inversion H. reflexivity.
Qed.

Lemma awaiting_run {A} (w : Meanwhile) (m : M A) (s s1 : Sys) (r : Res A) :
  m s = (r, s1) -> awaiting w m s = (r, meanwhile w s1).
Proof. unfold awaiting. now intros ->. Qed.

(** ** What the others may do to a session *)

(** The others use the store the way its methods leave it and do not delete
    session [sid]: its messages stay, and new ones come after them. *)
Definition spares (sid : Z) (w : Meanwhile) : Prop :=
  forall x : Sys,
    wellFormed (storage x) ->
    wellFormed (storage (meanwhile w x))
    /\ exists more,
        storedMessages sid (meanwhile w x)
        = (storedMessages sid x ++ more)%list.

Lemma undisturbed_spares (sid : Z) : spares sid undisturbed.
Proof.
  intros x W. split; [exact W|]. exists []. now rewrite app_nil_r.
Qed.

(** Any store call but the deletion of session [sid] keeps the messages of
    [sid] and adds at most one at the end. *)
Lemma runCall_spares (sid : Z) (c : StoreCall) (x : Sys) :
  wellFormed (storage x) ->
  c <> DeleteChatSession sid ->
  exists more,
    storedMessages sid (snd (runCall c x)) = (storedMessages sid x ++ more)%list.
Proof.
  intros W Hc. destruct c as [ins|id updates|id|ins].
  - exists []. now rewrite app_nil_r.
  - exists []. rewrite app_nil_r. unfold runCall, bind.
    destruct (JsMap.get id (chatSessions (storage x))) as [session|] eqn:G.
    + now rewrite (updateChatSession_found id updates x session G).
    + now rewrite (updateChatSession_missing id updates x G).
  - exists []. rewrite app_nil_r.
    destruct (deleteChatSession_in_wellFormed x id W) as [_ H].
    assert (Hne : sid <> id) by congruence.
    exact (proj2 (H sid Hne)).
  - destruct (createMessage_in_wellFormed x ins W)
      as (_ & _ & _ & _ & Hsame & Hother & _).
    destruct (Z.eq_dec sid (ins_sessionId ins)) as [->|Hne].
    + eexists. exact Hsame.
    + exists []. rewrite app_nil_r. exact (Hother sid Hne).
Qed.

Definition runCalls (calls : list StoreCall) (x : Sys) : Sys :=
  fold_left (fun s c => snd (runCall c s)) calls x.

(** Other handlers and routes make the store calls [calls], at instant
    [now]. *)
Definition storeCalls (now : Z) (calls : list StoreCall) : Meanwhile :=
  mkMeanwhile
    (fun st => storage (runCalls calls (mkSys st [] now [] [] OPEN [])))
    (fun r => r) 0.

Lemma runCalls_spares (sid : Z) (calls : list StoreCall) (x : Sys) :
  wellFormed (storage x) ->
  Forall (fun c => c <> DeleteChatSession sid) calls ->
  wellFormed (storage (runCalls calls x))
  /\ exists more,
      storedMessages sid (runCalls calls x)
      = (storedMessages sid x ++ more)%list.
Proof.
  intros W H. revert x W.
  induction H as [|c calls Hc _ IH]; intros x W.
  - split; [exact W|]. exists []. now rewrite app_nil_r.
  - cbn [runCalls fold_left].
    destruct (IH (snd (runCall c x)) (wellFormed_runCall x c W))
      as (W' & more' & E').
    destruct (runCall_spares sid c x W Hc) as (more & E).
    split; [exact W'|]. exists (more ++ more')%list.
    unfold runCalls in E'. rewrite E', E. now rewrite app_assoc.
Qed.

Lemma storeCalls_spares (sid : Z) (now : Z) (calls : list StoreCall) :
  Forall (fun c => c <> DeleteChatSession sid) calls ->
  spares sid (storeCalls now calls).
Proof.
  intros H x W.
  exact (runCalls_spares sid calls (mkSys (storage x) [] now [] [] OPEN []) W H).
Qed.

Section GatewayPaths.
Variable env : Env.
Variable others : Others.

(** The handler from the retrieval on (lines 203 to 234), given the stored
    user message. *)
Definition answerFrame (sid : Z) (content : string) (uid : Z)
           (userMessage : Message) : M unit :=
  context <-
    awaiting (whileRetrieving others)
             (generateContextFromQuery env content uid) ;;
  messages <- getMessagesBySessionId sid ;;
  let chatHistory :=
    map (fun msg => mkChatMessage (msg_role msg) (msg_content msg))
        (Js.slice_last 10 messages) in
  response <-
    awaiting (whileCompleting others)
             (generateChatResponse env chatHistory (Some context)) ;;
  aiMessage <-
    createMessage
      (mkInsertMessage sid assistant (response_content response)
         (if Js.truthy context then Some (mkSources true) else None)) ;;
  updateChatSession sid
    (mkPartialChatSession None None None
       (Some (Some (lastMessagePreview content))) None None) ;;;
  state <- gets readyState ;;
  if isOpen state then ws_send (chat_response userMessage aiMessage)
  else ret tt.

Definition userMessageOf (sid : Z) (content : string) (s : Sys) : Message :=
  mkMessage (currentMessageId (storage s)) sid user content None (clock s).

Lemma handleFrame_authorized (s : Sys) (sid : Z) (content : string)
      (sess : ChatSession) :
  JsMap.get sid (chatSessions (storage s)) = Some sess ->
  handleFrame env others (ChatMessageIn sid content (session_userId sess)) s
  = answerFrame sid content (session_userId sess) (userMessageOf sid content s)
      (snd (createMessage (mkInsertMessage sid user content None) s)).
Proof.
  intros G. unfold handleFrame.
  rewrite (bind_Ok (getChatSession sid) _ s s (Some sess))
    by (unfold getChatSession, gets; now rewrite G).
  assert (U : unauthorized (Some sess) (session_userId sess) = false)
    by (cbn; now rewrite Z.eqb_refl).
  rewrite U. reflexivity.
Qed.

(** What the catch of the handler does with an error. *)
Definition reportError (s : Sys) : Sys :=
  let s1 := record_console "WebSocket message error:" s in
  if isOpen (readyState s)
  then record_sent (error_message "Failed to process message") s1
  else s1.

Lemma onMessage_caught (data : Inbound) (s s1 : Sys) (e : Error) :
  handleFrame env others data s = (Throw e, s1) ->
  onMessage env others data s = (Ok tt, reportError s1).
Proof.
  intros H. unfold onMessage. rewrite (try_catch_Throw _ _ s s1 e H).
  unfold reportError, bind, console_error, modify, gets, ws_send, ret.
  cbn. destruct (isOpen (readyState s1)); reflexivity.
Qed.

(** X8.  The handler never throws, whatever the frame and whatever goes on
    around it: an error inside is logged and answered with
    [Failed to process message] if the socket is open.  A frame that does
    not parse changes neither the store nor the index and makes no outside
    call; a frame of another type has no effect at all, not even a
    reply. *)
Theorem onMessage_never_throws :
  forall (data : Inbound) (s : Sys),
    fst (onMessage env others data s) = Ok tt
    /\ onMessage env others Malformed s
       = (Ok tt, reportError s)
    /\ storage (reportError s) = storage s
    /\ trace (reportError s) = trace s
    /\ indexes (reportError s) = indexes s
    /\ sent (reportError s)
       = (if isOpen (readyState s)
          then (sent s ++ [error_message "Failed to process message"])%list
          else sent s)
    /\ (forall type, onMessage env others (OtherMessage type) s = (Ok tt, s)).
Proof.
  intros data s. split; [|split; [|split; [|split; [|split; [|split]]]]].
  - destruct (handleFrame env others data s) as [[[]|e] s1] eqn:H.
    + unfold onMessage. now rewrite (try_catch_Ok _ _ s s1 tt H).
    + now rewrite (onMessage_caught data s s1 e H).
  - now apply onMessage_caught with (e := mkError "SyntaxError").
  - unfold reportError. cbv zeta. destruct (isOpen (readyState s)); reflexivity.
  - unfold reportError. cbv zeta. destruct (isOpen (readyState s)); reflexivity.
  - unfold reportError. cbv zeta. destruct (isOpen (readyState s)); reflexivity.
  - unfold reportError. cbv zeta. destruct (isOpen (readyState s)); reflexivity.
  - intros type. reflexivity.
Qed.
End GatewayPaths.

Ltac retrieval_frame :=
  unfold generateContextFromQuery, generateChatResponse, chat_create,
    generateEmbedding, embeddings, searchSimilarChunks, initializePinecone,
    Pinecone.listIndexes, Pinecone.createIndex, Pinecone.query, sleep,
    console_error;
  keeps_auto.

Lemma storedMessages_storage (sid : Z) (a b : Sys) :
  storage a = storage b -> storedMessages sid a = storedMessages sid b.
Proof. unfold storedMessages. now intros ->. Qed.

Section GatewayOutcomes.
Variable env : Env.
Variable others : Others.

Lemma generateContextFromQuery_keeps_sent (query : string) (uid : Z) :
  keeps sent (generateContextFromQuery env query uid).
Proof. retrieval_frame. Qed.

Lemma generateContextFromQuery_keeps_readyState (query : string) (uid : Z) :
  keeps readyState (generateContextFromQuery env query uid).
Proof. retrieval_frame. Qed.

Lemma generateChatResponse_keeps_sent (h : list ChatMessage) (c : option string) :
  keeps sent (generateChatResponse env h c).
Proof. retrieval_frame. Qed.

Lemma generateChatResponse_keeps_readyState (h : list ChatMessage)
      (c : option string) :
  keeps readyState (generateChatResponse env h c).
Proof. retrieval_frame. Qed.

Lemma generateChatResponse_Throw (h : list ChatMessage) (c : option string)
      (s s' : Sys) (e : Error) :
  generateChatResponse env h c s = (Throw e, s') ->
  e = mkError "Failed to generate chat response".
Proof.
  unfold generateChatResponse, try_catch.
  match goal with |- context [match ?m s with _ => _ end] =>
    destruct (m s) as [[a|e0] s1] end.
  - discriminate.
  - unfold bind, console_error, modify, throw. congruence.
Qed.

(** The states that a handled frame of the owner goes through up to the
    end of its first wait: [s1] holds the user message, [s2] is where the
    retrieval settles, and [s3] is what the others have made of it. *)
Record Stages (s : Sys) (sid : Z) (content : string) (uid : Z)
       (context : string) (s1 s2 s3 : Sys) : Prop := mkStages {
  st_user : s1 = snd (createMessage (mkInsertMessage sid user content None) s);
  st_context : generateContextFromQuery env content uid s1 = (Ok context, s2);
  st_others : s3 = meanwhile (whileRetrieving others) s2;
  st_storage : storage s3 = store_then (whileRetrieving others) (storage s1);
  st_sent : sent s3 = sent s;
  st_trace : trace s3 = trace s2
}.

Lemma stages_exist (s : Sys) (sid : Z) (content : string) (uid : Z) :
  exists context s1 s2 s3, Stages s sid content uid context s1 s2 s3.
Proof.
  set (s1 := snd (createMessage (mkInsertMessage sid user content None) s)).
  destruct (generateContextFromQuery_total env content uid s1) as (ctx & s2 & E).
  exists ctx, s1, s2, (meanwhile (whileRetrieving others) s2).
  constructor; [reflexivity | exact E | reflexivity | | |reflexivity].
  - cbn [meanwhile storage].
    now rewrite (keeps_run storage _ s1 s2 _
                   (generateContextFromQuery_keeps_storage env content uid) E).
  - cbn [meanwhile sent].
    exact (keeps_run sent _ s1 s2 _
             (generateContextFromQuery_keeps_sent content uid) E).
Qed.

(** The handler of a frame of the owner, from the read of the history on. *)
Lemma answerFrame_stages (s : Sys) (sid : Z) (content : string) (uid : Z)
      (context : string) (s1 s2 s3 : Sys) :
  Stages s sid content uid context s1 s2 s3 ->
  answerFrame env others sid content uid (userMessageOf sid content s) s1
  = bind
      (awaiting (whileCompleting others)
         (generateChatResponse env
            (map (fun msg => mkChatMessage (msg_role msg) (msg_content msg))
                 (Js.slice_last 10 (sortByCreatedAt (storedMessages sid s3))))
            (Some context)))
      (fun response =>
         aiMessage <-
           createMessage
             (mkInsertMessage sid assistant (response_content response)
                (if Js.truthy context then Some (mkSources true) else None)) ;;
         updateChatSession sid
           (mkPartialChatSession None None None
              (Some (Some (lastMessagePreview content))) None None) ;;;
         state <- gets readyState ;;
         if isOpen state
         then ws_send (chat_response (userMessageOf sid content s) aiMessage)
         else ret tt)
      s3.
Proof.
  intros [Ea Eb Ec _ _ _]. unfold answerFrame.
  rewrite (bind_Ok _ _ s1 s3 context
             (eq_trans (awaiting_run _ _ s1 s2 _ Eb)
                       (f_equal (fun x => (Ok context, x)) (eq_sym Ec)))).
  rewrite (bind_Ok (getMessagesBySessionId sid) _ s3 s3 _ eq_refl).
  reflexivity.
Qed.

(** X9.  When the completion call fails on a frame of the session's owner,
    the handler has already stored the user message, and that is all it
    writes: the store at the end is what the others have made of the store
    with the user message in it.  If they spare the session, its messages
    are the earlier ones, then the user message, then what the others
    added; no assistant message is written.  The error that reaches the
    catch is [Failed to generate chat response], and the client is told
    [Failed to process message] if the socket is open by then. *)
Theorem chat_failure_keeps_user_message :
  forall (s s1 : Sys) (sid : Z) (content : string) (sess : ChatSession)
         (e : Error),
    reachable (storage s) ->
    JsMap.get sid (chatSessions (storage s)) = Some sess ->
    handleFrame env others (ChatMessageIn sid content (session_userId sess)) s
    = (Throw e, s1) ->
    let s' := snd (onMessage env others
                     (ChatMessageIn sid content (session_userId sess)) s) in
    e = mkError "Failed to generate chat response"
    /\ storage s'
       = store_then (whileCompleting others)
           (store_then (whileRetrieving others)
              (storage (snd (createMessage
                               (mkInsertMessage sid user content None) s))))
    /\ (spares sid (whileRetrieving others) ->
        spares sid (whileCompleting others) ->
        exists more,
          storedMessages sid s'
          = (storedMessages sid s ++ userMessageOf sid content s :: more)%list)
    /\ sent s'
       = (if isOpen (readyState s')
          then (sent s ++ [error_message "Failed to process message"])%list
          else sent s).
Proof.
  intros s s1 sid content sess e R G H s'.
  subst s'. rewrite (onMessage_caught env others _ s s1 e H). cbn [snd].
  rewrite (handleFrame_authorized env others s sid content sess G) in H.
  destruct (stages_exist s sid content (session_userId sess))
    as (ctx & sa & sb & sb' & St).
  pose proof St as [Ea Eb Ec Sb Ss Tb].
  rewrite <- Ea in H. rewrite (answerFrame_stages _ _ _ _ _ _ _ _ St) in H.
  apply bind_Throw_inv in H. destruct H as [H|(resp & sc & _ & H)].
  - (* the completion call failed *)
    apply awaiting_inv in H. destruct H as (sc & H & ->).
    pose proof (keeps_run storage _ sb' sc _
                  (generateChatResponse_keeps_storage env _ _) H) as S1.
    pose proof (keeps_run sent _ sb' sc _
                  (generateChatResponse_keeps_sent _ _) H) as T1.
    assert (St' : storage (reportError (meanwhile (whileCompleting others) sc))
                  = store_then (whileCompleting others)
                      (store_then (whileRetrieving others) (storage sa))).
    { unfold reportError. cbv zeta.
      destruct (isOpen _); cbn; now rewrite S1, Sb. }
    split; [exact (generateChatResponse_Throw _ _ _ _ _ H)|].
    split; [now rewrite St', Ea|]. split.
    + intros K1 K2.
      pose proof (reachable_wellFormed _ R) as W.
      destruct (createMessage_in_wellFormed s
                  (mkInsertMessage sid user content None) W)
        as (_ & _ & _ & _ & Hsid & _).
      cbn [ins_sessionId ins_role ins_content ins_sources] in Hsid.
      rewrite <- Ea in Hsid.
      assert (Wa : wellFormed (storage sa)).
      { rewrite Ea.
        exact (wellFormed_runCall s
                 (CreateMessage (mkInsertMessage sid user content None)) W). }
      assert (Wb : wellFormed (storage sb)).
      { now rewrite (keeps_run storage _ sa sb _
                       (generateContextFromQuery_keeps_storage env _ _) Eb). }
      destruct (K1 sb Wb) as (Wb' & m1 & E1). rewrite <- Ec in Wb', E1.
      assert (Wc : wellFormed (storage sc)) by now rewrite S1.
      destruct (K2 sc Wc) as (_ & m2 & E2).
      exists (m1 ++ m2)%list.
      rewrite (storedMessages_storage sid
                 (reportError (meanwhile (whileCompleting others) sc))
                 (meanwhile (whileCompleting others) sc))
        by (unfold reportError; cbv zeta; destruct (isOpen _); reflexivity).
      rewrite E2, (storedMessages_storage sid sc sb' S1), E1.
      rewrite (storedMessages_storage sid sb sa
                 (keeps_run storage _ sa sb _
                    (generateContextFromQuery_keeps_storage env _ _) Eb)).
      rewrite Hsid, <- !app_assoc. reflexivity.
    + unfold reportError. cbv zeta.
      destruct (isOpen (readyState (meanwhile (whileCompleting others) sc)))
               eqn:O; cbn [sent record_sent record_console readyState];
        rewrite O; cbn [meanwhile sent]; now rewrite T1, Ss.
  - (* nothing after the completion call throws *)
    exfalso.
    apply bind_Throw_inv in H. destruct H as [H|(am & sd & _ & H)];
      [discriminate H|].
    apply bind_Throw_inv in H. destruct H as [H|(u & se & _ & H)].
    + unfold updateChatSession, bind, gets in H.
      destruct (JsMap.get sid (chatSessions (storage sd))); discriminate H.
    + apply bind_Throw_inv in H. destruct H as [H|(st & sf & _ & H)];
        [discriminate H|].
      destruct (isOpen st); discriminate H.
Qed.
End GatewayOutcomes.

(** A world whose completion endpoint is down. *)
Definition silentEnv : Env :=
  mkEnv None (readFileSync exampleEnv) (splitText exampleEnv)
        (embeddings_create exampleEnv) (fun _ => None)
        (fun _ => false) (similarity exampleEnv) 2000.

(** While the handler waits for the retrieval, the handler of a second
    frame stores that frame's user message in the same session. *)
Definition secondFrame : Others :=
  mkOthers
    (storeCalls 5 [CreateMessage (mkInsertMessage 1 user "and another" None)])
    undisturbed.

Lemma secondFrame_spares :
  spares 1 (whileRetrieving secondFrame)
  /\ spares 1 (whileCompleting secondFrame).
Proof.
  split; [|apply undisturbed_spares].
  apply storeCalls_spares. repeat constructor; discriminate.
Qed.

Lemma chat_failure_keeps_user_message_witness :
  (exists more,
      storedMessages 1 (snd (onMessage silentEnv secondFrame
                               (ChatMessageIn 1 "hi there" 7) exampleHistory))
      = (storedMessages 1 exampleHistory
           ++ mkMessage 4 1 user "hi there" None 0 :: more)%list)
  /\ storedMessages 1 (snd (onMessage silentEnv secondFrame
                              (ChatMessageIn 1 "hi there" 7) exampleHistory))
     = (storedMessages 1 exampleHistory
          ++ [mkMessage 4 1 user "hi there" None 0;
              mkMessage 5 1 user "and another" None 5])%list.
Proof.
  assert (R : reachable (storage exampleHistory))
    by (unfold exampleHistory; repeat apply reachable_call; apply reachable_new).
  assert (G : JsMap.get 1 (chatSessions (storage exampleHistory))
              = Some (mkChatSession 1 7 "a" None 0 0)) by reflexivity.
  assert (H : handleFrame silentEnv secondFrame (ChatMessageIn 1 "hi there" 7)
                          exampleHistory
              = (Throw (mkError "Failed to generate chat response"),
                 snd (handleFrame silentEnv secondFrame
                                  (ChatMessageIn 1 "hi there" 7)
                                  exampleHistory)))
    by (vm_compute; reflexivity).
  destruct (chat_failure_keeps_user_message silentEnv secondFrame
              exampleHistory _ 1 "hi there" (mkChatSession 1 7 "a" None 0 0)
              _ R G H) as (_ & _ & Hm & _).
  split.
  - exact (Hm (proj1 secondFrame_spares) (proj2 secondFrame_spares)).
  - vm_compute. reflexivity.
Defined.

Section GatewaySuccess.
Variable env : Env.
Variable others : Others.

Lemma createMessage_run (ins : InsertMessage) (x : Sys) :
  createMessage ins x
  = (Ok (mkMessage (currentMessageId (storage x)) (ins_sessionId ins)
                   (ins_role ins) (ins_content ins) (ins_sources ins)
                   (clock x)),
     snd (createMessage ins x)).
Proof. reflexivity. Qed.

Lemma stored_below (sid : Z) (x : Sys) (m : Message) :
  wellFormed (storage x) ->
  In m (storedMessages sid x) ->
  msg_id m < currentMessageId (storage x).
Proof.
  intros W H. unfold storedMessages in H. apply filter_In in H.
  destruct H as [H _]. unfold JsMap.values in H. apply in_map_iff in H.
  destruct H as ([k v] & E & Hin). cbn in E. subst v.
  rewrite (wf_keyed _ W k m Hin).
  apply (wf_messages_below _ W). unfold keys. apply in_map_iff.
  now exists (k, m).
Qed.

(** X10.  When a frame of the session's owner is handled without error, the
    handler has stored the user message first and the assistant message
    last.  The assistant message holds the content of the response and
    carries the sources marker exactly when the retrieved context is not
    empty.  If the others spare the session, its messages are the earlier
    ones, the user message, what the others added meanwhile, and the
    assistant message, whose id is the greater of the two; with nobody else
    around the two messages are adjacent, their ids are consecutive and no
    other session changes.  The pair is sent to the client if the socket is
    open by then, and nothing is sent otherwise. *)
Theorem chat_success_persists_both :
  forall (s s' : Sys) (sid : Z) (content : string) (sess : ChatSession),
    reachable (storage s) ->
    JsMap.get sid (chatSessions (storage s)) = Some sess ->
    handleFrame env others (ChatMessageIn sid content (session_userId sess)) s
    = (Ok tt, s') ->
    exists (context : string) (history : list ChatMessage)
           (response : ChatResponse) (aiMessage : Message) (s3 s4 : Sys),
      fst (generateContextFromQuery env content (session_userId sess)
             (snd (createMessage (mkInsertMessage sid user content None) s)))
      = Ok context
      /\ generateChatResponse env history (Some context) s3 = (Ok response, s4)
      /\ sessionId aiMessage = sid
      /\ msg_role aiMessage = assistant
      /\ msg_content aiMessage = response_content response
      /\ sources aiMessage
         = (if Js.truthy context then Some (mkSources true) else None)
      /\ let userMessage := userMessageOf sid content s in
         (spares sid (whileRetrieving others) ->
          spares sid (whileCompleting others) ->
          msg_id userMessage < msg_id aiMessage
          /\ exists between,
              storedMessages sid s'
              = (storedMessages sid s
                   ++ userMessage :: between ++ [aiMessage])%list)
         /\ (whileRetrieving others = undisturbed ->
             whileCompleting others = undisturbed ->
             msg_id aiMessage = msg_id userMessage + 1
             /\ storedMessages sid s'
                = (storedMessages sid s ++ [userMessage; aiMessage])%list
             /\ forall sid', sid' <> sid ->
                             storedMessages sid' s' = storedMessages sid' s)
         /\ sent s'
            = (if isOpen (readyState s')
               then (sent s ++ [chat_response userMessage aiMessage])%list
               else sent s).
Proof.
  intros s s' sid content sess R G H.
  rewrite (handleFrame_authorized env others s sid content sess G) in H.
  destruct (stages_exist env others s sid content (session_userId sess))
    as (ctx & sa & sb & sb' & St).
  pose proof St as [Ea Eb Ec Sb Ss Tb].
  rewrite <- Ea in H. rewrite (answerFrame_stages _ _ _ _ _ _ _ _ _ _ St) in H.
  apply bind_Ok_inv in H. destruct H as (resp & sc' & Ec' & H).
  apply awaiting_inv in Ec'. destruct Ec' as (sc & Egc & ->).
  remember (meanwhile (whileCompleting others) sc) as sc' eqn:Esc' in *.
  pose proof (keeps_run storage _ sb' sc _
                (generateChatResponse_keeps_storage env _ _) Egc) as Sc.
  pose proof (keeps_run sent _ sb' sc _
                (generateChatResponse_keeps_sent env _ _) Egc) as Tc.
  apply bind_Ok_inv in H. destruct H as (am & sd & Ed & H).
  apply bind_Ok_inv in H. destruct H as (u & se & Ee & H).
  apply bind_Ok_inv in H. destruct H as (st & sf & Ef & H).
  pose proof (f_equal snd Ed) as Esd. cbn [snd] in Esd.
  pose proof (f_equal fst Ed) as Eam. rewrite createMessage_run in Eam.
  cbn [fst] in Eam. injection Eam as Eam.
  cbn [ins_sessionId ins_role ins_content ins_sources] in Eam.
  (* the update and the send leave the message table alone *)
  assert (Me : messages (storage se) = messages (storage sd)
               /\ sent se = sent sd /\ readyState se = readyState sd).
  { unfold updateChatSession, bind, gets in Ee.
    destruct (JsMap.get sid (chatSessions (storage sd)));
      cbn in Ee; inversion Ee; repeat split; reflexivity. }
  destruct Me as (Me & Te & Re).
  assert (Sf : sf = se /\ st = readyState se)
    by (unfold gets in Ef; inversion Ef; split; reflexivity).
  destruct Sf as [-> ->].
  assert (Td : sent sd = sent sc')
    by (rewrite <- Esd; reflexivity).
  assert (Final : storage s' = storage se
                  /\ readyState s' = readyState se
                  /\ sent s' = if isOpen (readyState se)
                               then (sent se ++ [chat_response (userMessageOf sid content s) am])%list
                               else sent se).
  { destruct (isOpen (readyState se)).
    - unfold ws_send, modify in H. inversion H. repeat split; reflexivity.
    - unfold ret in H. inversion H. repeat split; reflexivity. }
  destruct Final as (Fs & Fr & Ft).
  assert (Msg : forall x, storedMessages x s' = storedMessages x sd).
  { intros x. unfold storedMessages. now rewrite Fs, Me. }
  pose proof (reachable_wellFormed _ R) as W.
  destruct (createMessage_in_wellFormed s
              (mkInsertMessage sid user content None) W)
    as (_ & _ & _ & Hc1 & Hsid1 & Hother1 & _).
  cbn [ins_sessionId ins_role ins_content ins_sources] in Hsid1, Hother1.
  rewrite <- Ea in Hc1, Hsid1, Hother1.
  assert (Wa : wellFormed (storage sa)).
  { rewrite Ea.
    exact (wellFormed_runCall s
             (CreateMessage (mkInsertMessage sid user content None)) W). }
  assert (Sba : storage sb = storage sa)
    by exact (keeps_run storage _ sa sb _
                (generateContextFromQuery_keeps_storage env _ _) Eb).
  (* the second write, once the store it meets is well formed *)
  assert (Second : wellFormed (storage sc') ->
                   storedMessages sid sd = (storedMessages sid sc' ++ [am])%list
                   /\ forall sid', sid' <> sid ->
                                   storedMessages sid' sd = storedMessages sid' sc').
  { intros Wc.
    destruct (createMessage_in_wellFormed sc'
                (mkInsertMessage sid assistant (response_content resp)
                   (if Js.truthy ctx then Some (mkSources true) else None)) Wc)
      as (_ & _ & _ & _ & Hsid2 & Hother2 & _).
    cbn [ins_sessionId ins_role ins_content ins_sources] in Hsid2, Hother2.
    rewrite Esd, Eam in Hsid2. rewrite Esd in Hother2. now split. }
  eexists ctx, _, resp, am, sb', sc.
  split; [now rewrite <- Ea, Eb|]. split; [exact Egc|].
  split; [now rewrite <- Eam|]. split; [now rewrite <- Eam|].
  split; [now rewrite <- Eam|]. split; [now rewrite <- Eam|].
  cbv zeta. split; [|split].
  - intros K1 K2.
    assert (Wb : wellFormed (storage sb)) by now rewrite Sba.
    destruct (K1 sb Wb) as (Wb' & m1 & E1). rewrite <- Ec in Wb', E1.
    assert (Wc : wellFormed (storage sc)) by now rewrite Sc.
    destruct (K2 sc Wc) as (Wc' & m2 & E2). rewrite <- Esc' in Wc', E2.
    destruct (Second Wc') as [Hsid2 _].
    assert (Chain : storedMessages sid sc'
                    = (storedMessages sid s
                         ++ userMessageOf sid content s :: (m1 ++ m2))%list).
    { rewrite E2, (storedMessages_storage sid sc sb' Sc), E1.
      rewrite (storedMessages_storage sid sb sa Sba), Hsid1.
      rewrite <- !app_assoc. reflexivity. }
    split.
    + rewrite <- Eam. cbn [msg_id].
      apply (stored_below sid sc' _ Wc'). rewrite Chain.
      apply in_or_app. right. now left.
    + exists (m1 ++ m2)%list. rewrite Msg, Hsid2, Chain.
      repeat first [rewrite <- app_assoc | progress cbn [app]]. reflexivity.
  - intros U1 U2.
    assert (Sb' : storage sb' = storage sa)
      by (rewrite Sb, U1; reflexivity).
    assert (Sc' : storage sc' = storage sa)
      by (rewrite Esc'; cbn [meanwhile storage]; rewrite U2; cbn;
          now rewrite Sc, Sb').
    assert (Wc' : wellFormed (storage sc')) by now rewrite Sc'.
    destruct (Second Wc') as [Hsid2 Hother2].
    split; [|split].
    + rewrite <- Eam. cbn [msg_id userMessageOf]. now rewrite Sc', Hc1.
    + rewrite Msg, Hsid2, (storedMessages_storage sid sc' sa Sc'), Hsid1.
      rewrite <- app_assoc. reflexivity.
    + intros sid' Hne.
      rewrite Msg, (Hother2 sid' Hne), (storedMessages_storage sid' sc' sa Sc').
      now apply Hother1.
  - rewrite Ft, Fr, Te, Td, Esc'. cbn [meanwhile sent].
    now rewrite Tc, Ss.
Qed.
End GatewaySuccess.

Lemma chat_success_persists_both_witness :
  exists aiMessage between,
    storedMessages 1 (snd (handleFrame exampleEnv secondFrame
                             (ChatMessageIn 1 "hi there" 7) exampleHistory))
    = (storedMessages 1 exampleHistory
         ++ mkMessage 4 1 user "hi there" None 0 :: between ++ [aiMessage])%list
    /\ 4 < msg_id aiMessage
    /\ sources aiMessage = None.
Proof.
  assert (R : reachable (storage exampleHistory))
    by (unfold exampleHistory; repeat apply reachable_call; apply reachable_new).
  assert (G : JsMap.get 1 (chatSessions (storage exampleHistory))
              = Some (mkChatSession 1 7 "a" None 0 0)) by reflexivity.
  assert (H : handleFrame exampleEnv secondFrame (ChatMessageIn 1 "hi there" 7)
                          exampleHistory
              = (Ok tt,
                 snd (handleFrame exampleEnv secondFrame
                                  (ChatMessageIn 1 "hi there" 7)
                                  exampleHistory)))
    by (vm_compute; reflexivity).
  destruct (chat_success_persists_both exampleEnv secondFrame exampleHistory _
              1 "hi there" (mkChatSession 1 7 "a" None 0 0) R G H)
    as (ctx & history & resp & am & s3 & s4 & Ectx & _ & _ & _ & _ & Hsrc
        & Hspared & _).
  destruct (Hspared (proj1 secondFrame_spares) (proj2 secondFrame_spares))
    as (Hid & between & Hmsgs).
  cbn in Ectx. injection Ectx as <-.
  exists am, between. split; [exact Hmsgs|]. split; [exact Hid | exact Hsrc].
Defined.



(* ====================================================================== *)
(** * Further properties of the model clients                              *)
(* ====================================================================== *)

Section Clients.
Variable env : Env.

Definition completionRequest (messages : list ChatMessage)
           (context : option string) : ChatCompletionRequest :=
  mkChatCompletionRequest "gpt-4o" (systemMessage context :: messages)
                          0.7%float 1000.

(** X12.  [generateChatResponse] returns the content of the first choice,
    with [null] turned into the empty string, and the usage counters as the
    endpoint gave them.  If the call fails or the answer has no choice, it
    logs and throws [Failed to generate chat response], whatever went
    wrong.  In either case the store, the index and the socket are left
    alone. *)
Theorem generateChatResponse_outcome :
  forall (messages : list ChatMessage) (context : option string) (s : Sys),
    let s' := snd (generateChatResponse env messages context s) in
    match chat_completions_create env (completionRequest messages context) with
    | Some (mkChatCompletion (first :: _) u) =>
        fst (generateChatResponse env messages context s)
        = Ok (mkChatResponse (match first with Some t => t | None => "" end) u)
        /\ console s' = console s
    | _ =>
        fst (generateChatResponse env messages context s)
        = Throw (mkError "Failed to generate chat response")
        /\ console s' = (console s ++ ["OpenAI API error:"])%list
    end
    /\ storage s' = storage s /\ indexes s' = indexes s
    /\ sent s' = sent s /\ clock s' = clock s.
Proof.
  intros messages context s s'. subst s'. unfold completionRequest.
  cbv beta iota delta [generateChatResponse try_catch bind chat_create
                         modify console_error throw ret].
  destruct (chat_completions_create env _) as [[[|first rest] u]|]; cbn.
  - repeat split.
  - repeat split. destruct first as [[|c t]|]; reflexivity.
  - repeat split.
Qed.

(** X13.  [generateEmbedding] makes one call, to the model
    [text-embedding-ada-002] with the text as given, and returns the first
    embedding of the answer.  If the call fails or the answer holds no
    embedding it logs and throws [Failed to generate embedding].  Nothing
    else changes. *)
Theorem generateEmbedding_outcome :
  forall (text : string) (s : Sys),
    let s' := snd (generateEmbedding env text s) in
    trace s' = (trace s ++ [EvEmbeddingsCreate "text-embedding-ada-002" text])%list
    /\ match embeddings_create env "text-embedding-ada-002" text with
       | Some (first :: _) =>
           fst (generateEmbedding env text s) = Ok first
           /\ console s' = console s
       | _ =>
           fst (generateEmbedding env text s)
           = Throw (mkError "Failed to generate embedding")
           /\ console s' = (console s ++ ["OpenAI embedding error:"])%list
       end
    /\ storage s' = storage s /\ indexes s' = indexes s /\ clock s' = clock s.
Proof.
  intros text s s'. subst s'.
  cbv beta iota delta [generateEmbedding try_catch bind embeddings
                         modify console_error throw ret].
  destruct (embeddings_create env _ text) as [[|first rest]|]; cbn;
    repeat split.
Qed.
End Clients.

(* ====================================================================== *)
(** * Further properties of the index gateway                              *)
(* ====================================================================== *)

Section IndexGateway.
Variable env : Env.

Lemma initializePinecone_Throw (s s' : Sys) (e : Error) :
  initializePinecone env s = (Throw e, s') ->
  e = mkError "Failed to initialize Pinecone".
Proof.
  rewrite initializePinecone_run. cbv zeta. unfold initError.
  destruct (pinecone_fails env OpListIndexes); [congruence|].
  destruct (hasIndex env (indexes s)); [discriminate|].
  destruct (pinecone_fails env OpCreateIndex); [congruence | discriminate].
Qed.

Lemma searchSimilarChunks_Throw (v : list float) (uid : Z) (k : nat)
      (s s' : Sys) (e : Error) :
  searchSimilarChunks env v uid k s = (Throw e, s') ->
  e = mkError "Failed to search document chunks".
Proof.
  unfold searchSimilarChunks, try_catch.
  match goal with |- context [match ?m s with _ => _ end] =>
    destruct (m s) as [[a|e0] s1] end.
  - discriminate.
  - unfold bind, console_error, modify, throw. congruence.
Qed.

Lemma processDocument_Throw (filePath : string) (documentId : Z)
      (documentName : string) (userId : Z) (mimeType : string)
      (s s' : Sys) (e : Error) :
  processDocument env filePath documentId documentName userId mimeType s
  = (Throw e, s') ->
  exists inner, e = mkError ("Failed to process document: " ++ message inner).
Proof.
  unfold processDocument, try_catch.
  match goal with |- context [match ?m s with _ => _ end] =>
    destruct (m s) as [[a|e0] s1] end.
  - discriminate.
  - unfold bind, console_error, modify, throw. intros H. exists e0. congruence.
Qed.

(** X15.  [initializePinecone] leaves an existing collection alone: it lists
    the collections and returns, without creating or waiting.  Whenever it
    succeeds the collection exists afterwards, so a second call never
    creates again; and if the collection was missing, the call has added an
    empty one and 10 seconds have passed. *)
Theorem initializePinecone_idempotent :
  forall (s s1 : Sys) (name : string),
    initializePinecone env s = (Ok name, s1) ->
    name = indexName env
    /\ hasIndex env (indexes s1) = true
    /\ (hasIndex env (indexes s) = true ->
        s1 = record_event EvListIndexes s)
    /\ (hasIndex env (indexes s) = false ->
        indexes s1 = (indexes s ++ [freshIndex env (clock s)])%list
        /\ clock s1 = clock s + 10000)
    /\ (forall s2 name2,
           initializePinecone env s1 = (Ok name2, s2) ->
           indexes s2 = indexes s1 /\ clock s2 = clock s1).
Proof.
  intros s s1 name H.
  assert (Exists1 : hasIndex env (indexes s1) = true).
  { rewrite initializePinecone_run in H. cbv zeta in H.
    destruct (pinecone_fails env OpListIndexes); [discriminate|].
    destruct (hasIndex env (indexes s)) eqn:Has.
    - inversion H. exact Has.
    - destruct (pinecone_fails env OpCreateIndex); [discriminate|].
      inversion H. cbn [indexes advance record_event set_indexes].
      rewrite hasIndex_find, (find_index_fresh env _ _ Has).
      reflexivity. }
  rewrite initializePinecone_run in H. cbv zeta in H.
  destruct (pinecone_fails env OpListIndexes); [discriminate|].
  destruct (hasIndex env (indexes s)) eqn:Has.
  - inversion H. subst.
    split; [reflexivity|]. split; [exact Has|]. split; [reflexivity|].
    split; [discriminate|].
    intros s2 name2 H2. rewrite initializePinecone_run in H2. cbv zeta in H2.
    destruct (pinecone_fails env OpListIndexes); [discriminate|].
    cbn [indexes record_event] in H2. rewrite Has in H2.
    inversion H2. split; reflexivity.
  - destruct (pinecone_fails env OpCreateIndex); [discriminate|].
    injection H as Hn Hs. subst name.
    split; [reflexivity|]. split; [exact Exists1|].
    split; [discriminate|]. split; [intros _; subst s1; split; reflexivity|].
    intros s2 name2 H2. rewrite initializePinecone_run in H2. cbv zeta in H2.
    destruct (pinecone_fails env OpListIndexes); [discriminate|].
    rewrite Exists1 in H2. inversion H2. split; reflexivity.
Qed.
End IndexGateway.

Lemma initializePinecone_idempotent_witness :
  let s1 := snd (initializePinecone exampleEnv exampleSys) in
  clock s1 = 10000
  /\ indexes (snd (initializePinecone exampleEnv s1)) = indexes s1
  /\ clock (snd (initializePinecone exampleEnv s1)) = 10000.
Proof.
  intros s1.
  destruct (initializePinecone_idempotent exampleEnv exampleSys s1
              "chatbot-knowledge-base" eq_refl)
    as (_ & _ & _ & Hnew & Hagain).
  destruct (Hnew eq_refl) as [_ Hclock].
  destruct (Hagain (snd (initializePinecone exampleEnv s1))
                   "chatbot-knowledge-base" eq_refl) as [Hi Hc].
  split; [exact Hclock|]. split; [exact Hi|]. rewrite Hc. exact Hclock.
Defined.

Lemma upsertDocumentChunks_bootstrap_witness :
  trace (snd (upsertDocumentChunks exampleEnv [exampleChunk] [[1%float]]
                                   exampleSys))
  = [ EvListIndexes;
      EvCreateIndex "chatbot-knowledge-base" 1536 "cosine" "aws" "us-east-1";
      EvSleep 10000;
      EvUpsert "chatbot-knowledge-base" true
               (toVectors [exampleChunk] [[1%float]]) ].
Proof.
  exact (upsertDocumentChunks_bootstrap exampleEnv [exampleChunk] [[1%float]]
           exampleSys eq_refl eq_refl eq_refl).
Defined.

(** ** What the retriever asks of the outside *)

Section RetrieverCalls.
Variable env : Env.

Definition retrievalQuery (v : list float) (uid : Z) : Event :=
  EvQuery (indexName env) (mkQueryRequest v 5 uid true).

Definition createCall : Event :=
  EvCreateIndex (indexName env) 1536 "cosine" "aws" "us-east-1".

Lemma searchSimilarChunks_calls (v : list float) (uid : Z) (k : nat) (s : Sys) :
  let s' := snd (searchSimilarChunks env v uid k s) in
  let q := EvQuery (indexName env) (mkQueryRequest v k uid true) in
  exists rest,
    trace s' = (trace s ++ rest)%list
    /\ (rest = [EvListIndexes]
        \/ rest = [EvListIndexes; q]
        \/ rest = [EvListIndexes; createCall]
        \/ rest = [EvListIndexes; createCall; EvSleep 10000; q])
    /\ (hasIndex env (indexes s) = true ->
        indexes s' = indexes s /\ clock s' = clock s).
Proof.
  cbv zeta. unfold searchSimilarChunks, try_catch, bind.
  rewrite initializePinecone_run. cbv zeta.
  destruct (pinecone_fails env OpListIndexes).
  { exists [EvListIndexes]. cbn. repeat split; auto. }
  destruct (hasIndex env (indexes s)) eqn:Has.
  - rewrite query_run. cbv zeta.
    exists [EvListIndexes; EvQuery (indexName env) (mkQueryRequest v k uid true)].
    destruct (pinecone_fails env OpQuery);
      [|destruct (Pinecone.find_index _ _)];
      cbn; rewrite <- app_assoc; repeat split; auto.
  - destruct (pinecone_fails env OpCreateIndex).
    { exists [EvListIndexes; createCall]. cbn. rewrite <- app_assoc.
      repeat split; auto; try discriminate. }
    rewrite query_run. cbv zeta.
    exists [EvListIndexes; createCall; EvSleep 10000;
            EvQuery (indexName env) (mkQueryRequest v k uid true)].
    destruct (pinecone_fails env OpQuery);
      [|destruct (Pinecone.find_index _ _)];
      cbn; rewrite <- !app_assoc; repeat split; auto; try discriminate.
Qed.

(** X16.  Whatever happens, the outside calls of [generateContextFromQuery]
    are one embedding call for the query as given, followed by at most a
    listing of the collections, a creation of the missing collection with
    its 10 second wait, and one query.  The query, if made, is for the 5
    nearest vectors with the caller's [userId] as filter and metadata
    included.  No write and no completion call is among them. *)
Theorem generateContextFromQuery_calls :
  forall (query : string) (uid : Z) (s : Sys),
  exists rest,
    trace (snd (generateContextFromQuery env query uid s))
    = (trace s ++ EvEmbeddingsCreate "text-embedding-ada-002" query :: rest)%list
    /\ (rest = []
        \/ rest = [EvListIndexes]
        \/ rest = [EvListIndexes; createCall]
        \/ exists v,
            fst (generateEmbedding env query s) = Ok v
            /\ (rest = [EvListIndexes; retrievalQuery v uid]
                \/ rest = [EvListIndexes; createCall; EvSleep 10000;
                           retrievalQuery v uid])).
Proof.
  intros query uid s.
  pose proof (generateEmbedding_trace env query s) as T.
  destruct (generateEmbedding env query s) as [[v|e] s1] eqn:E1; cbn [snd] in T.
  - destruct (searchSimilarChunks_calls v uid 5 s1) as (rest & R & Shape & _).
    cbv zeta in R.
    exists rest. split.
    + destruct (searchSimilarChunks env v uid 5 s1) as [[results|e] s2] eqn:E2;
        cbn [snd] in R.
      * rewrite (generateContextFromQuery_searched env query uid s s1 s2 v
                   results E1 E2).
        destruct (combineChunks results); cbn; rewrite R, T, <- app_assoc;
          reflexivity.
      * rewrite (generateContextFromQuery_search_failed env query uid s s1 s2
                   v e E1 E2).
        cbn. rewrite R, T, <- app_assoc. reflexivity.
    + destruct Shape as [->|[->|[->| ->]]]; auto.
      * right. right. right. exists v. split; [reflexivity | now left].
      * right. right. right. exists v. split; [reflexivity | now right].
  - exists []. split; [|now left].
    rewrite (generateContextFromQuery_embedding_failed env query uid s s1 e E1).
    cbn. exact T.
Qed.

(** X17.  A search is not a pure read: when the collection is missing and
    the services answer, [generateContextFromQuery] creates the collection,
    waits 10 seconds and then returns the empty string; when the collection
    exists, it changes neither the index nor the clock. *)
Theorem generateContextFromQuery_creates_collection :
  forall (query : string) (uid : Z) (s : Sys) (v : list float) (rest : list (list float)),
    embeddings_create env "text-embedding-ada-002" query = Some (v :: rest) ->
    pinecone_fails env OpListIndexes = false ->
    let s' := snd (generateContextFromQuery env query uid s) in
    (hasIndex env (indexes s) = true ->
     indexes s' = indexes s /\ clock s' = clock s)
    /\ (hasIndex env (indexes s) = false ->
        pinecone_fails env OpCreateIndex = false ->
        pinecone_fails env OpQuery = false ->
        generateContextFromQuery env query uid s
        = (Ok "", s')
        /\ indexes s' = (indexes s ++ [freshIndex env (clock s)])%list
        /\ clock s' = clock s + 10000).
Proof.
  intros query uid s v rest He Hl s'.
  assert (E1 : generateEmbedding env query s
               = (Ok v, record_event (EvEmbeddingsCreate "text-embedding-ada-002" query) s)).
  { cbv beta iota delta [generateEmbedding try_catch bind embeddings
                           modify console_error throw ret].
    now rewrite He. }
  set (s1 := record_event (EvEmbeddingsCreate "text-embedding-ada-002" query) s) in *.
  destruct (searchSimilarChunks env v uid 5 s1) as [[results|e] s2] eqn:E2.
  - assert (S' : indexes s' = indexes s2 /\ clock s' = clock s2).
    { subst s'. rewrite (generateContextFromQuery_searched env query uid s s1 s2
                           v results E1 E2).
      destruct (combineChunks results); split; reflexivity. }
    destruct S' as [Si Sc]. split.
    + intros Has.
      destruct (searchSimilarChunks_calls v uid 5 s1) as (_ & _ & _ & K).
      cbv zeta in K. rewrite E2 in K. cbn [snd] in K.
      destruct (K Has) as [Ki Kc]. rewrite Si, Sc, Ki, Kc. split; reflexivity.
    + intros Has Hc Hq. pose proof E2 as Run.
      unfold searchSimilarChunks, try_catch, bind in E2.
      rewrite initializePinecone_run in E2. cbv zeta in E2.
      cbn [indexes record_event s1] in E2.
      rewrite Hl, Has, Hc, query_run in E2. cbv zeta in E2. rewrite Hq in E2.
      cbn [indexes record_event advance set_indexes s1 clock] in E2.
      rewrite (find_index_fresh env (clock s) (indexes s) Has) in E2.
      injection E2 as Er Es.
      assert (Rnil : results = [])
        by (rewrite <- Er; apply answer_empty; reflexivity).
      split; [|split].
      * subst s'.
        rewrite (generateContextFromQuery_searched env query uid s s1 s2 v
                   results E1 Run).
        rewrite Rnil. reflexivity.
      * rewrite Si, <- Es. reflexivity.
      * rewrite Sc, <- Es. reflexivity.
  - split.
    + intros Has.
      destruct (searchSimilarChunks_calls v uid 5 s1) as (_ & _ & _ & K).
      cbv zeta in K. rewrite E2 in K. cbn [snd] in K.
      destruct (K Has) as [Ki Kc].
      subst s'. rewrite (generateContextFromQuery_search_failed env query uid s
                           s1 s2 v e E1 E2).
      cbn [snd indexes clock record_console]. rewrite Ki, Kc. split; reflexivity.
    + intros Has Hc Hq. exfalso.
      unfold searchSimilarChunks, try_catch, bind in E2.
      rewrite initializePinecone_run in E2. cbv zeta in E2.
      cbn [indexes record_event s1] in E2.
      rewrite Hl, Has, Hc, query_run in E2. cbv zeta in E2. rewrite Hq in E2.
      cbn [indexes record_event advance set_indexes s1 clock] in E2.
      rewrite (find_index_fresh env (clock s) (indexes s) Has) in E2.
      discriminate E2.
Qed.
End RetrieverCalls.

Lemma generateContextFromQuery_creates_collection_witness :
  let s' := snd (generateContextFromQuery exampleEnv "what?" 7 exampleSys) in
  generateContextFromQuery exampleEnv "what?" 7 exampleSys = (Ok "", s')
  /\ List.length (indexes s') = 1%nat /\ clock s' = 10000.
Proof.
  intros s'.
  destruct (generateContextFromQuery_creates_collection exampleEnv "what?" 7
              exampleSys [1%float] [] eq_refl eq_refl) as [_ H].
  destruct (H eq_refl eq_refl eq_refl) as (E & Hi & Hc).
  split; [exact E|]. split; [|exact Hc]. subst s'. rewrite Hi. reflexivity.
Defined.

(** ** The completion request that the gateway makes *)


Section CompletionRequest.
Variable env : Env.
Variable others : Others.




End CompletionRequest.


(* ====================================================================== *)
(** * Further properties of the document pipeline                          *)
(* ====================================================================== *)

Lemma readable_dec (mimeType : string) :
  readable mimeType
  \/ ((mimeType =? "text/plain")%string = false
      /\ ((mimeType =? "application/pdf")%string
          || (mimeType =? docx)%string)%bool = false).
Proof.
  unfold readable.
  destruct (String.eqb_spec mimeType "text/plain") as [->|_];
    [left; left; reflexivity|].
  destruct (String.eqb_spec mimeType "application/pdf") as [->|_];
    [left; right; left; reflexivity|].
  destruct (String.eqb_spec mimeType docx) as [->|_];
    [left; right; right; reflexivity|].
  right. split; reflexivity.
Qed.

Lemma readable_not (mimeType : string) :
  ~ readable mimeType ->
  (mimeType =? "text/plain")%string = false
  /\ ((mimeType =? "application/pdf")%string || (mimeType =? docx)%string)%bool
     = false.
Proof. intros H. destruct (readable_dec mimeType); [contradiction | assumption]. Qed.

Definition pdfDocxMessage : string :=
  "PDF and DOCX processing requires additional setup. Please upload TXT files for now.".

Section PipelineErrors.
Variable env : Env.

(** A content type other than plain text, PDF or DOCX is refused at
    once: [processDocument] throws [Failed to process document: Unsupported
    file type: ] followed by the type, without reading the file and without
    any call to a service; only the log has a new line. *)
Lemma processDocument_unsupported_run :
  forall (filePath : string) (documentId : Z) (documentName : string)
         (userId : Z) (mimeType : string) (s : Sys),
    ~ readable mimeType ->
    processDocument env filePath documentId documentName userId mimeType s
    = (Throw (mkError ("Failed to process document: Unsupported file type: "
                         ++ mimeType)),
       record_console "Document processing error:" s).
Proof.
  intros filePath documentId documentName userId mimeType s H.
  destruct (readable_not mimeType H) as [E1 E2]. unfold docx in E2.
  unfold processDocument, try_catch, bind at 1. rewrite E1, E2. reflexivity.
Qed.

(** When the file cannot be read, [processDocument] stops after the
    read.  For plain text the error carries the message of the file system
    after [Failed to process document: ]; for PDF and DOCX that message is
    replaced by the advice to upload TXT files. *)
Lemma processDocument_unreadable_run :
  forall (filePath : string) (documentId : Z) (documentName : string)
         (userId : Z) (mimeType : string) (cause : Error) (s : Sys),
    readable mimeType ->
    readFileSync env filePath = Throw cause ->
    processDocument env filePath documentId documentName userId mimeType s
    = (Throw (mkError ("Failed to process document: "
                         ++ (if (mimeType =? "text/plain")%string
                             then message cause
                             else pdfDocxMessage))),
       record_console "Document processing error:"
                      (record_event (EvReadFile filePath) s)).
Proof.
  intros filePath documentId documentName userId mimeType cause s Hm Hr.
  assert (R : fs_readFileSync env filePath s
              = (Throw cause, record_event (EvReadFile filePath) s)).
  { unfold fs_readFileSync, bind, modify. now rewrite Hr. }
  unfold processDocument.
  destruct (mimeType =? "text/plain")%string eqn:E1.
  - unfold try_catch at 1. rewrite (bind_Throw _ _ s _ cause R). reflexivity.
  - destruct (_ || _)%bool eqn:E2.
    + unfold try_catch at 1.
      assert (R2 : try_catch (fs_readFileSync env filePath)
                     (fun _ => throw (mkError pdfDocxMessage)) s
                   = (Throw (mkError pdfDocxMessage),
                      record_event (EvReadFile filePath) s))
        by (unfold try_catch; now rewrite R).
      unfold pdfDocxMessage in R2.
      rewrite (bind_Throw _ _ s _ _ R2). reflexivity.
    + exfalso. apply orb_false_iff in E2. destruct E2 as [E2 E3].
      destruct Hm as [->|[->| ->]]; unfold docx in *;
        rewrite String.eqb_refl in *; discriminate.
Qed.
End PipelineErrors.

Section Wrapping.
Variable env : Env.

Lemma indexText_Throw (documentId : Z) (documentName : string) (userId : Z)
      (text : string) (s s' : Sys) (e : Error) :
  indexText env documentId documentName userId text s = (Throw e, s') ->
  e = mkError "Failed to generate embedding"
  \/ e = mkError "Failed to store document chunks".
Proof.
  unfold indexText. cbv zeta.
  match goal with
  | |- context [promise_all (map ?g ?chunks)] =>
      assert (E : map g chunks
                  = map (generateEmbedding env) (map chunk_text chunks))
        by (rewrite map_map; reflexivity);
      rewrite E; clear E
  end.
  unfold bind at 1.
  destruct (promise_all _ s) as [[l|e0] s2] eqn:P.
  - unfold bind.
    match goal with
    | |- context [upsertDocumentChunks env ?c ?x s2] =>
        destruct (upsertDocumentChunks env c x s2) as [[u|e3] s3] eqn:U
    end.
    + discriminate.
    + intros H. injection H as <- _. right.
      exact (upsertDocumentChunks_Throw env _ _ _ _ _ U).
  - intros H. injection H as <- _. left.
    exact (promise_all_embeddings_Throw env _ _ _ _ P).
Qed.

(** X14.  Each function of the pipeline throws under its own name only: an
    error out of [initializePinecone], [upsertDocumentChunks],
    [searchSimilarChunks], [generateEmbedding] or [generateChatResponse]
    carries that function's fixed message, whatever the cause underneath.
    An error out of [processDocument] is [Failed to process document: ]
    followed by the message of its cause, and the cause is one of six: the
    content type is not supported, the PDF or DOCX file cannot be read, the
    text file cannot be read (then the message is the file system's), the
    text is blank, an embedding failed, or the chunks could not be
    stored. *)
Theorem errors_are_wrapped :
  forall (s s' : Sys) (e : Error),
    (initializePinecone env s = (Throw e, s') ->
     message e = "Failed to initialize Pinecone")
    /\ (forall chunks embeddings,
           upsertDocumentChunks env chunks embeddings s = (Throw e, s') ->
           message e = "Failed to store document chunks")
    /\ (forall v uid k,
           searchSimilarChunks env v uid k s = (Throw e, s') ->
           message e = "Failed to search document chunks")
    /\ (forall text,
           generateEmbedding env text s = (Throw e, s') ->
           message e = "Failed to generate embedding")
    /\ (forall messages context,
           generateChatResponse env messages context s = (Throw e, s') ->
           message e = "Failed to generate chat response")
    /\ (forall filePath documentId documentName userId mimeType,
           processDocument env filePath documentId documentName userId
                           mimeType s = (Throw e, s') ->
           exists cause,
             message e = "Failed to process document: " ++ cause
             /\ (cause = "Unsupported file type: " ++ mimeType
                 \/ cause = pdfDocxMessage
                 \/ (mimeType = "text/plain"
                     /\ exists failure,
                         readFileSync env filePath = Throw failure
                         /\ cause = message failure)
                 \/ cause = emptyDocumentMessage
                 \/ cause = "Failed to generate embedding"
                 \/ cause = "Failed to store document chunks")).
Proof.
  intros s s' e. split; [|split; [|split; [|split; [|split]]]].
  - intros H. now rewrite (initializePinecone_Throw env s s' e H).
  - intros chunks embeddings H.
    now rewrite (upsertDocumentChunks_Throw env chunks embeddings s s' e H).
  - intros v uid k H.
    now rewrite (searchSimilarChunks_Throw env v uid k s s' e H).
  - intros text H. now rewrite (generateEmbedding_Throw env text s s' e H).
  - intros messages context H.
    now rewrite (generateChatResponse_Throw env messages context s s' e H).
  - intros filePath documentId documentName userId mimeType H.
    destruct (readable_dec mimeType) as [Hm|Hn].
    + destruct (readFileSync env filePath) as [text|failure] eqn:Hr.
      * rewrite (processDocument_read env filePath documentId documentName
                   userId mimeType text s Hm Hr) in H.
        unfold try_catch, bind at 1 in H.
        destruct (Js.truthy (Js.trim text)).
        -- cbn [negb] in H. unfold ret at 1 in H.
           destruct (indexText env _ _ _ _ _) as [[d|e0] s1] eqn:I;
             [discriminate H|].
           unfold rethrow, bind, console_error, modify, throw in H.
           injection H as <- _.
           destruct (indexText_Throw _ _ _ _ _ _ _ I) as [-> | ->];
             eexists; (split; [reflexivity|]); auto 10.
        -- cbn [negb] in H. unfold throw at 1 in H.
           unfold rethrow, bind, console_error, modify, throw in H.
           injection H as <- _.
           eexists; (split; [reflexivity|]); auto 10.
      * rewrite (processDocument_unreadable_run env filePath documentId
                   documentName userId mimeType failure s Hm Hr) in H.
        injection H as <- _. eexists. split; [reflexivity|].
        destruct (String.eqb_spec mimeType "text/plain") as [->|_].
        -- right. right. left. split; [reflexivity|]. now exists failure.
        -- right. now left.
    + assert (Hnot : ~ readable mimeType).
      { destruct Hn as [E1 E2]. apply orb_false_iff in E2.
        destruct E2 as [E2 E3].
        intros [->|[->| ->]]; unfold docx in *; rewrite String.eqb_refl in *;
          discriminate. }
      rewrite (processDocument_unsupported_run env filePath documentId
                 documentName userId mimeType s Hnot) in H.
      injection H as <- _. eexists. split; [reflexivity|]. now left.
Qed.
End Wrapping.

(** A world whose index service refuses every request. *)
Definition downEnv : Env :=
  mkEnv None (readFileSync exampleEnv) (splitText exampleEnv)
        (embeddings_create exampleEnv) (chat_completions_create exampleEnv)
        (fun _ => true) (similarity exampleEnv) 2000.

Lemma errors_are_wrapped_witness :
  (exists e s',
      upsertDocumentChunks downEnv [exampleChunk] [[1%float]] exampleSys
      = (Throw e, s')
      /\ message e = "Failed to store document chunks")
  /\ (exists e s',
         generateChatResponse silentEnv [] None exampleSys = (Throw e, s')
         /\ message e = "Failed to generate chat response")
  /\ exists e s',
      processDocument downEnv "/uploads/a.txt" 2 "a.txt" 7 "text/plain"
                      exampleSys = (Throw e, s')
      /\ message e
         = "Failed to process document: Failed to store document chunks".
Proof.
  split; [|split].
  - eexists _, _. split; [reflexivity|].
    refine (proj1 (proj2 (errors_are_wrapped downEnv exampleSys _ _))
              [exampleChunk] [[1%float]] _).
    reflexivity.
  - eexists _, _. split; [reflexivity|].
    refine (proj1 (proj2 (proj2 (proj2 (proj2
              (errors_are_wrapped silentEnv exampleSys _ _))))) [] None _).
    reflexivity.
  - eexists _, _. split; [vm_compute; reflexivity|].
    vm_compute. reflexivity.
Defined.


(** X18.  A content type other than plain text, PDF or DOCX is refused at
    once: [processDocument] throws [Failed to process document: Unsupported
    file type: ] followed by the type.  The file is not read and no service
    is called; the index, the store and the clock are as before, and the
    log has one new line. *)
Theorem processDocument_unsupported_type :
  forall (env : Env) (filePath : string) (documentId : Z)
         (documentName : string) (userId0 : Z) (mimeType : string) (s : Sys),
    ~ readable mimeType ->
    let s' := snd (processDocument env filePath documentId documentName userId0
                                   mimeType s) in
    fst (processDocument env filePath documentId documentName userId0 mimeType s)
    = Throw (mkError ("Failed to process document: Unsupported file type: "
                        ++ mimeType))
    /\ trace s' = trace s /\ indexes s' = indexes s
    /\ storage s' = storage s /\ clock s' = clock s
    /\ console s' = (console s ++ ["Document processing error:"])%list.
Proof.
  intros env filePath documentId documentName userId0 mimeType s H s'.
  subst s'.
  rewrite (processDocument_unsupported_run env filePath documentId documentName
             userId0 mimeType s H).
  repeat split.
Qed.

(** X19.  When the file cannot be read, [processDocument] stops after the
    read: no embedding is asked for and the index is not touched.  For plain
    text the error carries the message of the file system after
    [Failed to process document: ]; for PDF and DOCX that message is
    replaced by the advice to upload TXT files. *)
Theorem processDocument_unreadable_file :
  forall (env : Env) (filePath : string) (documentId : Z)
         (documentName : string) (userId0 : Z) (mimeType : string)
         (cause : Error) (s : Sys),
    readable mimeType ->
    readFileSync env filePath = Throw cause ->
    let s' := snd (processDocument env filePath documentId documentName userId0
                                   mimeType s) in
    fst (processDocument env filePath documentId documentName userId0 mimeType s)
    = Throw (mkError ("Failed to process document: "
                        ++ (if (mimeType =? "text/plain")%string
                            then message cause
                            else pdfDocxMessage)))
    /\ trace s' = (trace s ++ [EvReadFile filePath])%list
    /\ indexes s' = indexes s /\ storage s' = storage s.
Proof.
  intros env filePath documentId documentName userId0 mimeType cause s Hm Hr s'.
  subst s'.
  rewrite (processDocument_unreadable_run env filePath documentId documentName
             userId0 mimeType cause s Hm Hr).
  repeat split.
Qed.

Lemma processDocument_unsupported_type_witness :
  fst (processDocument exampleEnv "/uploads/x.png" 3 "x.png" 7 "image/png"
                       exampleSys)
  = Throw (mkError "Failed to process document: Unsupported file type: image/png")
  /\ trace (snd (processDocument exampleEnv "/uploads/x.png" 3 "x.png" 7
                                 "image/png" exampleSys)) = [].
Proof.
  assert (N : ~ readable "image/png")
    by (intros [H|[H|H]]; discriminate H).
  destruct (processDocument_unsupported_type exampleEnv "/uploads/x.png" 3
              "x.png" 7 "image/png" exampleSys N) as (E & T & _).
  split; [exact E | exact T].
Defined.

Lemma processDocument_unreadable_file_witness :
  fst (processDocument exampleEnv "/uploads/gone.pdf" 3 "gone.pdf" 7
                       "application/pdf" exampleSys)
  = Throw (mkError ("Failed to process document: " ++ pdfDocxMessage))
  /\ fst (processDocument exampleEnv "/uploads/gone.txt" 3 "gone.txt" 7
                          "text/plain" exampleSys)
     = Throw (mkError "Failed to process document: ENOENT: no such file or directory").
Proof.
  split.
  - exact (proj1 (processDocument_unreadable_file exampleEnv "/uploads/gone.pdf"
                    3 "gone.pdf" 7 "application/pdf"
                    (mkError "ENOENT: no such file or directory") exampleSys
                    (or_intror (or_introl eq_refl)) eq_refl)).
  - exact (proj1 (processDocument_unreadable_file exampleEnv "/uploads/gone.txt"
                    3 "gone.txt" 7 "text/plain"
                    (mkError "ENOENT: no such file or directory") exampleSys
                    (or_introl eq_refl) eq_refl)).
Defined.

Lemma mapi_from_nth {A B} (f : A -> Z -> B) (i : Z) (l : list A) (n : nat) :
  nth_error (mapi_from i f l) n
  = option_map (fun x => f x (i + Z.of_nat n)) (nth_error l n).
Proof.
  revert i n. induction l as [|x l IH]; intros i [|n]; cbn [mapi_from nth_error option_map];
    try reflexivity.
  - now rewrite Z.add_0_r.
  - rewrite IH. destruct (nth_error l n); [|reflexivity].
    cbn. do 2 f_equal. lia.
Qed.

Lemma mapi_from_length {A B} (f : A -> Z -> B) (i : Z) (l : list A) :
  List.length (mapi_from i f l) = List.length l.
Proof.
  revert i. induction l as [|x l IH]; intros i; simpl; [reflexivity|].
  now rewrite IH.
Qed.

Lemma promise_all_Ok_length {A} (ps : list (M A)) (s s' : Sys) (l : list A) :
  promise_all ps s = (Ok l, s') -> List.length l = List.length ps.
Proof.
  revert s s' l. induction ps as [|p ps IH]; intros s s' l; simpl.
  - intros H. inversion H. reflexivity.
  - destruct (p s) as [r s1]. destruct (promise_all ps s1) as [rs s2] eqn:E.
    destruct r as [a|e]; [|discriminate].
    destruct rs as [l'|e]; [|discriminate].
    intros H. inversion H. simpl. f_equal. exact (IH _ _ _ E).
Qed.

Lemma toVectors_from (R : DocumentChunk -> list float -> Prop)
      (chunks : list DocumentChunk) (done rest : list (list float)) :
  Forall2 R chunks rest ->
  Forall2
    (fun chunk vector =>
       up_id vector = chunk_id chunk
       /\ up_metadata vector
          = mkRecordMetadata (chunk_metadata chunk) (Some (chunk_text chunk))
       /\ exists e, up_values vector = Some e /\ R chunk e)
    chunks
    (mapi_from (Z.of_nat (List.length done))
       (fun chunk i =>
          mkUpsertVector (chunk_id chunk)
            (nth_error (done ++ rest)%list (Z.to_nat i))
            (mkRecordMetadata (chunk_metadata chunk)
                              (Some (chunk_text chunk))))
       chunks).
Proof.
  intros H. revert done.
  induction H as [|chunk e chunks rest Hr _ IH]; intros done;
    cbn [mapi_from]; constructor.
  - split; [reflexivity|]. split; [reflexivity|]. exists e. split; [|exact Hr].
    cbn [up_values]. rewrite Nat2Z.id, nth_error_app2 by lia.
    now rewrite Nat.sub_diag.
  - specialize (IH (done ++ [e])%list).
    rewrite <- app_assoc in IH. cbn [app] in IH.
    rewrite length_app in IH. cbn [List.length] in IH.
    replace (Z.of_nat (List.length done + 1)) with (Z.of_nat (List.length done) + 1)
      in IH by lia.
    exact IH.
Qed.

Lemma toVectors_Forall2 (R : DocumentChunk -> list float -> Prop)
      (chunks : list DocumentChunk) (embeddings : list (list float)) :
  Forall2 R chunks embeddings ->
  Forall2
    (fun chunk vector =>
       up_id vector = chunk_id chunk
       /\ up_metadata vector
          = mkRecordMetadata (chunk_metadata chunk) (Some (chunk_text chunk))
       /\ exists e, up_values vector = Some e /\ R chunk e)
    chunks (toVectors chunks embeddings).
Proof. intros H. exact (toVectors_from R chunks [] embeddings H). Qed.

Section PipelineSuccess.
Variable env : Env.

(** The chunk's text has an embedding, and [e] is the first that the
    endpoint returns for it. *)
Definition embeddingOf (text : string) (e : list float) : Prop :=
  exists more, embeddings_create env embeddingModel text = Some (e :: more).

Lemma generateEmbedding_Ok (text : string) (s s' : Sys) (e : list float) :
  generateEmbedding env text s = (Ok e, s') -> embeddingOf text e.
Proof.
  cbv beta iota zeta delta
      [generateEmbedding try_catch bind embeddings modify throw ret
         console_error].
  unfold embeddingOf, embeddingModel.
  destruct (embeddings_create env _ text) as [[|x l]|]; try discriminate.
  intros H. injection H as <- _. now exists l.
Qed.

Lemma promise_all_embeddings_Ok (texts : list string) (s s' : Sys)
      (l : list (list float)) :
  promise_all (map (generateEmbedding env) texts) s = (Ok l, s') ->
  Forall2 embeddingOf texts l.
Proof.
  revert s s' l. induction texts as [|t texts IH]; intros s s' l; cbn [map promise_all].
  - intros H. injection H as <- _. constructor.
  - destruct (generateEmbedding env t s) as [r s1] eqn:E1.
    destruct (promise_all (map (generateEmbedding env) texts) s1)
      as [rs s2] eqn:E2.
    destruct r as [e|x]; [|discriminate].
    destruct rs as [es|x]; [|discriminate].
    intros H. injection H as <- _. constructor.
    + exact (generateEmbedding_Ok _ _ _ _ E1).
    + exact (IH _ _ _ E2).
Qed.

(** A successful [upsertDocumentChunks]: the collection is found or
    created, and one write follows, of a batch that is not empty. *)
Lemma upsertDocumentChunks_Ok_trace (chunks : list DocumentChunk)
      (embeddings : list (list float)) (s s' : Sys) :
  upsertDocumentChunks env chunks embeddings s = (Ok tt, s') ->
  chunks <> []
  /\ exists bootstrap ready,
      (bootstrap = [EvListIndexes]
       \/ bootstrap = [EvListIndexes; createCall env; EvSleep 10000])
      /\ trace s'
         = (trace s ++ bootstrap
              ++ [EvUpsert (indexName env) ready
                           (toVectors chunks embeddings)])%list.
Proof.
  unfold upsertDocumentChunks, try_catch, bind at 1.
  fold (toVectors chunks embeddings).
  rewrite initializePinecone_run. cbv zeta.
  destruct (pinecone_fails env OpListIndexes); [discriminate|].
  assert (NonEmpty : Pinecone.validate (toVectors chunks embeddings) <> None ->
                     chunks <> []).
  { intros V ->. now apply V. }
  destruct (hasIndex env (indexes s)).
  - destruct s as [st ixs clk tr con rs snt].
    cbv beta iota zeta delta
        [Pinecone.upsert bind modify gets throw ret console_error
           record_event record_console set_indexes
           storage indexes clock trace console readyState sent].
    destruct (Pinecone.find_index (indexName env) ixs) as [ix|]; [|discriminate].
    destruct (pinecone_fails env OpUpsert); [discriminate|].
    destruct (Pinecone.validate (toVectors chunks embeddings)) eqn:V;
      [|discriminate].
    intros H. injection H as <-. split; [apply NonEmpty; discriminate|].
    exists [EvListIndexes], (Pinecone.ready clk ix). split; [now left|].
    cbn. now rewrite <- app_assoc.
  - destruct (pinecone_fails env OpCreateIndex); [discriminate|].
    destruct s as [st ixs clk tr con rs snt].
    cbv beta iota zeta delta
        [Pinecone.upsert bind modify gets throw ret console_error
           record_event record_console set_indexes advance
           storage indexes clock trace console readyState sent].
    destruct (Pinecone.find_index (indexName env) _) as [ix|]; [|discriminate].
    destruct (pinecone_fails env OpUpsert); [discriminate|].
    destruct (Pinecone.validate (toVectors chunks embeddings)) eqn:V;
      [|discriminate].
    intros H. injection H as <-. split; [apply NonEmpty; discriminate|].
    exists [EvListIndexes; createCall env; EvSleep 10000],
      (Pinecone.ready (clk + 10000) ix).
    split; [now right|]. cbn. now rewrite <- !app_assoc.
Qed.

Lemma processDocument_Ok_inv (filePath : string) (documentId : Z)
      (documentName : string) (userId : Z) (mimeType : string)
      (s s' : Sys) (doc : ProcessedDocument) :
  processDocument env filePath documentId documentName userId mimeType s
  = (Ok doc, s') ->
  exists text,
    readable mimeType
    /\ readFileSync env filePath = Ok text
    /\ Js.trim text <> ""
    /\ indexText env documentId documentName userId text
                 (record_event (EvReadFile filePath) s)
       = (Ok doc, s').
Proof.
  intros H.
  destruct (readable_dec mimeType) as [Hm|Hn].
  - destruct (readFileSync env filePath) as [text|cause] eqn:Hr.
    + exists text. split; [exact Hm|]. split; [reflexivity|].
      rewrite (processDocument_read env filePath documentId documentName userId
                 mimeType text s Hm Hr) in H.
      unfold try_catch, bind at 1 in H.
      destruct (Js.truthy (Js.trim text)) eqn:T.
      * split; [now apply truthy_true_iff|].
        cbn [negb] in H. unfold ret at 1 in H.
        destruct (indexText env _ _ _ _ _) as [[d|e] s1]; [exact H|].
        unfold rethrow, bind, console_error, modify, throw in H. discriminate H.
      * cbn [negb] in H. unfold throw at 1 in H.
        unfold rethrow, bind, console_error, modify, throw in H. discriminate H.
    + rewrite (processDocument_unreadable_run env filePath documentId
                 documentName userId mimeType cause s Hm Hr) in H.
      discriminate H.
  - assert (Hnot : ~ readable mimeType).
    { destruct Hn as [E1 E2]. apply orb_false_iff in E2. destruct E2 as [E2 E3].
      intros [->|[->| ->]]; unfold docx in *; rewrite String.eqb_refl in *;
        discriminate. }
    rewrite (processDocument_unsupported_run env filePath documentId
               documentName userId mimeType s Hnot) in H.
    discriminate H.
Qed.

(** X20.  When [processDocument] succeeds for a document id that
    JavaScript holds exactly, the file was of a readable type and held some
    text, and the chunks it returns are the pieces of the splitter in
    order, at least one: chunk number [i] has the id [documentId-i], the
    index [i] and no page number, and every chunk names the document and
    the uploading user.  The page count is 1.  The calls to the outside are
    the read, one embedding call per chunk in order, the look for the
    collection (with its creation and the wait if it was missing) and last
    a single upsert of one vector per chunk, in order; each vector carries
    the chunk's id, its metadata with the text, and as values the first
    embedding that the endpoint returns for the text of that chunk. *)
Theorem processDocument_success :
  forall (filePath : string) (documentId : Z) (documentName : string)
         (userId0 : Z) (mimeType : string) (s s' : Sys)
         (doc : ProcessedDocument),
    Z.abs documentId < 2 ^ 53 ->
    processDocument env filePath documentId documentName userId0 mimeType s
    = (Ok doc, s') ->
    exists text vectors,
      readable mimeType
      /\ readFileSync env filePath = Ok text
      /\ Js.trim text <> ""
      /\ chunks doc <> []
      /\ map chunk_text (chunks doc) = splitText env text
      /\ pageCount doc = Some 1
      /\ (forall i chunk,
             nth_error (chunks doc) i = Some chunk ->
             chunk_id chunk
             = Js.number_to_string documentId ++ "-"
                 ++ Js.number_to_string (Z.of_nat i)
             /\ chunk_metadata chunk
                = mkMetadata documentId documentName userId0 (Z.of_nat i) None)
      /\ Forall2
           (fun chunk vector =>
              up_id vector = chunk_id chunk
              /\ up_metadata vector
                 = mkRecordMetadata (chunk_metadata chunk)
                                    (Some (chunk_text chunk))
              /\ exists e,
                  up_values vector = Some e
                  /\ embeddingOf (chunk_text chunk) e)
           (chunks doc) vectors
      /\ exists bootstrap ready,
          (bootstrap = [EvListIndexes]
           \/ bootstrap = [EvListIndexes; createCall env; EvSleep 10000])
          /\ trace s'
             = (trace s
                  ++ EvReadFile filePath
                  :: map (EvEmbeddingsCreate embeddingModel)
                         (splitText env text)
                  ++ bootstrap
                  ++ [EvUpsert (indexName env) ready vectors])%list.
Proof.
  intros filePath documentId documentName userId0 mimeType s s' doc _ H.
  destruct (processDocument_Ok_inv _ _ _ _ _ _ _ _ H)
    as (text & Hm & Hr & Hne & Hi).
  unfold indexText in Hi. cbv zeta in Hi.
  match type of Hi with
  | context [promise_all (map ?g ?cs)] =>
      assert (E : map g cs = map (generateEmbedding env) (map chunk_text cs))
        by (rewrite map_map; reflexivity);
      rewrite E in Hi; clear E;
      set (documentChunks := cs) in *
  end.
  assert (Texts : map chunk_text documentChunks = splitText env text)
    by (apply mapi_from_chunk_text; reflexivity).
  apply bind_Ok_inv in Hi. destruct Hi as (embeddings & s1 & P & Hi).
  apply bind_Ok_inv in Hi. destruct Hi as ([] & s2 & U & Hi).
  unfold ret in Hi. injection Hi as Hd Hs. subst s2.
  pose proof (promise_all_embeddings_trace env
                (map chunk_text documentChunks)
                (record_event (EvReadFile filePath) s)) as Tp.
  rewrite P in Tp. cbn [snd trace record_event] in Tp.
  apply promise_all_embeddings_Ok in P.
  destruct (upsertDocumentChunks_Ok_trace _ _ _ _ U)
    as (Hchunks & bootstrap & ready & Hb & Tu).
  exists text, (toVectors documentChunks embeddings).
  rewrite <- Hd. cbn [chunks pageCount].
  split; [exact Hm|]. split; [exact Hr|]. split; [exact Hne|].
  split; [exact Hchunks|]. split; [exact Texts|]. split; [reflexivity|].
  split; [|split].
  - intros i chunk Hn. unfold documentChunks, mapi in Hn.
    rewrite mapi_from_nth in Hn.
    destruct (nth_error (splitText env text) i); [|discriminate].
    cbn in Hn. injection Hn as <-. split; reflexivity.
  - apply toVectors_Forall2.
    clear - P. revert P. generalize documentChunks.
    intros cs P. remember (map chunk_text cs) as ts eqn:Ets.
    revert cs Ets. induction P as [|t e ts es Ht _ IH]; intros cs Ets.
    + destruct cs; [constructor | discriminate].
    + destruct cs as [|c cs]; [discriminate|].
      cbn [map] in Ets. injection Ets as -> ->.
      constructor; [exact Ht | now apply IH].
  - exists bootstrap, ready. split; [exact Hb|].
    rewrite Tu, Tp, Texts, <- !app_assoc. reflexivity.
Qed.
End PipelineSuccess.

Lemma processDocument_success_witness :
  exists doc s' vectors,
    processDocument exampleEnv "/uploads/a.txt" 2 "a.txt" 7 "text/plain"
                    exampleSys = (Ok doc, s')
    /\ map chunk_text (chunks doc) = ["hello world, this is a test document"]
    /\ (forall chunk, nth_error (chunks doc) 0 = Some chunk ->
                      chunk_id chunk = "2-0"
                      /\ userId (chunk_metadata chunk) = 7)
    /\ Forall2
         (fun chunk vector =>
            up_id vector = chunk_id chunk
            /\ up_metadata vector
               = mkRecordMetadata (chunk_metadata chunk)
                                  (Some (chunk_text chunk))
            /\ exists e,
                up_values vector = Some e
                /\ embeddingOf exampleEnv (chunk_text chunk) e)
         (chunks doc) vectors
    /\ exists ready,
        trace s'
        = [ EvReadFile "/uploads/a.txt";
            EvEmbeddingsCreate embeddingModel
              "hello world, this is a test document";
            EvListIndexes;
            createCall exampleEnv;
            EvSleep 10000;
            EvUpsert "chatbot-knowledge-base" ready vectors ].
Proof.
  pose (run := processDocument exampleEnv "/uploads/a.txt" 2 "a.txt" 7
                               "text/plain" exampleSys).
  assert (E : exists doc, run = (Ok doc, snd run))
    by (eexists; vm_compute; reflexivity).
  destruct E as (doc & E).
  assert (Small : Z.abs 2 < 2 ^ 53) by reflexivity.
  destruct (processDocument_success exampleEnv "/uploads/a.txt" 2 "a.txt" 7
              "text/plain" exampleSys (snd run) doc Small E)
    as (text & vectors & _ & Hr & _ & _ & Hc & _ & Hn & Hv & bootstrap & ready
        & Hb & T).
  cbn in Hr. injection Hr as <-.
  exists doc, (snd run), vectors. split; [exact E|]. split; [exact Hc|].
  split; [|split; [exact Hv|]].
  - intros chunk H0. destruct (Hn 0%nat chunk H0) as [Hid Hmd].
    split; [exact Hid | now rewrite Hmd].
  - exists ready. rewrite T.
    assert (B : bootstrap = [EvListIndexes; createCall exampleEnv; EvSleep 10000]).
    { destruct Hb as [->| ->]; [|reflexivity].
      exfalso. vm_compute in T. discriminate T. }
    rewrite B. reflexivity.
Defined.

(* ====================================================================== *)
(** * server/routes.ts: the chat session routes                            *)
(* ====================================================================== *)

(** What a route answers: [res.sendStatus(code)],
    [res.status(code).json({ message })], or [res.json(body)] with status
    200. *)
Inductive HttpResponse :=
| sendStatus (code : Z)
| jsonMessage (code : Z) (msg : string)
| jsonSessions (body : list ChatSession)
| jsonMessages (body : list Message).

(** [storage.getChatSession(parseInt(req.params.id))]: a parameter that is
    not a number parses to [NaN], which is the key of no session. *)
Definition getChatSessionParam (param : option Z) : M (option ChatSession) :=
  match param with
  | Some id => getChatSession id
  | None => ret None
  end.

(** [app.get("/api/chat/sessions", ...)]; [user] is [req.user.id] when
    [req.isAuthenticated()]. *)
Definition getSessionsRoute (user : option Z) : M HttpResponse :=
  match user with
  | None => ret (sendStatus 401)
  | Some uid =>
      try_catch
        (sessions <- getChatSessionsByUserId uid ;;
         ret (jsonSessions sessions))
        (fun error =>
           console_error "Get sessions error:" ;;;
           ret (jsonMessage 500 "Failed to fetch chat sessions"))
  end.

(** [app.get("/api/chat/sessions/:id/messages", ...)] *)
Definition getMessagesRoute (user : option Z) (param : option Z)
  : M HttpResponse :=
  match user with
  | None => ret (sendStatus 401)
  | Some uid =>
      try_catch
        (session <- getChatSessionParam param ;;
         if unauthorized session uid
         then ret (jsonMessage 404 "Chat session not found")
         else
           messages <-
             match param with
             | Some sessionId => getMessagesBySessionId sessionId
             | None => ret []
             end ;;
           ret (jsonMessages messages))
        (fun error =>
           console_error "Get messages error:" ;;;
           ret (jsonMessage 500 "Failed to fetch messages"))
  end.

(** [app.delete("/api/chat/sessions/:id", ...)] *)
Definition deleteSessionRoute (user : option Z) (param : option Z)
  : M HttpResponse :=
  match user with
  | None => ret (sendStatus 401)
  | Some uid =>
      try_catch
        (session <- getChatSessionParam param ;;
         if unauthorized session uid
         then ret (jsonMessage 404 "Chat session not found")
         else
           match param with
           | Some sessionId => deleteChatSession sessionId ;;; ret tt
           | None => ret tt
           end ;;;
           ret (sendStatus 200))
        (fun error =>
           console_error "Delete session error:" ;;;
           ret (jsonMessage 500 "Failed to delete chat session"))
  end.

(** The caller is logged in and owns the session named by the parameter. *)
Definition owns (user : option Z) (param : option Z) (s : Sys) : Prop :=
  exists uid id session,
    user = Some uid /\ param = Some id
    /\ JsMap.get id (chatSessions (storage s)) = Some session
    /\ session_userId session = uid.

Lemma owns_dec (user : option Z) (param : option Z) (s : Sys) :
  owns user param s
  \/ user = None
  \/ exists uid,
      user = Some uid
      /\ (forall x, getChatSessionParam param x
                    = (Ok (match param with
                           | Some id => JsMap.get id (chatSessions (storage x))
                           | None => None
                           end), x))
      /\ unauthorized (match param with
                       | Some id => JsMap.get id (chatSessions (storage s))
                       | None => None
                       end) uid = true.
Proof.
  destruct user as [uid|]; [|right; now left].
  assert (Run : forall x, getChatSessionParam param x
                    = (Ok (match param with
                           | Some id => JsMap.get id (chatSessions (storage x))
                           | None => None
                           end), x))
    by (intros x; destruct param; reflexivity).
  destruct param as [id|].
  - destruct (JsMap.get id (chatSessions (storage s))) as [session|] eqn:G.
    + destruct (Z.eqb_spec (session_userId session) uid) as [E|N].
      * left. now exists uid, id, session.
      * right. right. exists uid. split; [reflexivity|]. split; [exact Run|].
        cbn. apply negb_true_iff. now apply Z.eqb_neq.
    + right. right. exists uid. split; [reflexivity|]. split; [exact Run|].
      reflexivity.
  - right. right. exists uid. split; [reflexivity|]. split; [exact Run|].
    reflexivity.
Qed.

(** X21.  The messages of a session are served to its owner only.  Without
    a login the route answers 401; for a session that does not exist, or
    exists and belongs to someone else, it answers 404 with the same message
    in both cases; the owner gets status 200 with the messages of that
    session and of no other, oldest first.  The route never changes the
    state and never throws. *)
Theorem getMessagesRoute_owner_only :
  forall (user param : option Z) (s : Sys),
    snd (getMessagesRoute user param s) = s
    /\ (user = None -> fst (getMessagesRoute user param s) = Ok (sendStatus 401))
    /\ (user <> None -> ~ owns user param s ->
        fst (getMessagesRoute user param s)
        = Ok (jsonMessage 404 "Chat session not found"))
    /\ (forall uid id session,
           user = Some uid -> param = Some id ->
           JsMap.get id (chatSessions (storage s)) = Some session ->
           session_userId session = uid ->
           exists body,
             fst (getMessagesRoute user param s) = Ok (jsonMessages body)
             /\ Permutation body (storedMessages id s)
             /\ StronglySorted earlier body
             /\ forall m, In m body -> sessionId m = id).
Proof.
  intros user param s.
  destruct (owns_dec user param s) as [O|[->|(uid & -> & Run & U)]].
  - destruct O as (uid & id & session & -> & -> & G & E).
    assert (R : getMessagesRoute (Some uid) (Some id) s
                = (Ok (jsonMessages (sortByCreatedAt (storedMessages id s))), s)).
    { unfold getMessagesRoute, try_catch, bind, getChatSessionParam,
        getChatSession, gets. rewrite G. cbn [unauthorized].
      rewrite E, Z.eqb_refl. reflexivity. }
    rewrite R. split; [reflexivity|]. split; [discriminate|].
    split; [intros _ N; exfalso; apply N; now exists uid, id, session|].
    intros uid' id' session' Hu Hp G' E'. injection Hp as <-.
    destruct (sortByCreatedAt_from (storedMessages id s) []) as [P S].
    eexists. split; [reflexivity|]. split; [exact P|].
    split; [apply S; constructor|].
    intros m Hm. apply (Permutation_in _ P) in Hm. unfold storedMessages in Hm.
    apply filter_In in Hm. now apply Z.eqb_eq.
  - split; [reflexivity|]. split; [reflexivity|].
    split; [intros N; now contradiction N|]. discriminate.
  - assert (R : getMessagesRoute (Some uid) param s
                = (Ok (jsonMessage 404 "Chat session not found"), s)).
    { unfold getMessagesRoute, try_catch, bind. rewrite Run, U. reflexivity. }
    rewrite R. split; [reflexivity|]. split; [discriminate|].
    split; [reflexivity|].
    intros uid' id session Hu Hp G E. exfalso.
    injection Hu as <-. subst param. rewrite G in U. cbn in U.
    rewrite E, Z.eqb_refl in U. discriminate.
Qed.

(** X22.  A session is deleted through the route by its owner only.  Without
    a login the answer is 401, for a missing or foreign session 404, and in
    both cases the state is untouched.  For the owner the answer is 200;
    afterwards the session is gone with all its messages, and the sessions
    and messages of everybody else are as before. *)
Theorem deleteSessionRoute_owner_only :
  forall (user param : option Z) (s : Sys),
    reachable (storage s) ->
    let s' := snd (deleteSessionRoute user param s) in
    (user = None ->
     deleteSessionRoute user param s = (Ok (sendStatus 401), s))
    /\ (user <> None -> ~ owns user param s ->
        deleteSessionRoute user param s
        = (Ok (jsonMessage 404 "Chat session not found"), s))
    /\ (forall uid id session,
           user = Some uid -> param = Some id ->
           JsMap.get id (chatSessions (storage s)) = Some session ->
           session_userId session = uid ->
           fst (deleteSessionRoute user param s) = Ok (sendStatus 200)
           /\ JsMap.get id (chatSessions (storage s')) = None
           /\ storedMessages id s' = []
           /\ forall id', id' <> id ->
                JsMap.get id' (chatSessions (storage s'))
                = JsMap.get id' (chatSessions (storage s))
                /\ storedMessages id' s' = storedMessages id' s).
Proof.
  intros user param s R s'.
  destruct (owns_dec user param s) as [O|[->|(uid & -> & Run & U)]].
  - destruct O as (uid & id & session & -> & -> & G & E).
    assert (Rt : deleteSessionRoute (Some uid) (Some id) s
                 = (Ok (sendStatus 200), snd (deleteChatSession id s))).
    { unfold deleteSessionRoute, try_catch, bind at 1.
      unfold getChatSessionParam, getChatSession, gets. rewrite G.
      cbn [unauthorized]. rewrite E, Z.eqb_refl. reflexivity. }
    subst s'. rewrite Rt. cbn [snd fst].
    split; [discriminate|].
    split; [intros _ N; exfalso; apply N; now exists uid, id, session|].
    intros uid' id' session' Hu Hp G' E'. injection Hp as <-.
    destruct (deleteChatSession_in_wellFormed s id (reachable_wellFormed _ R))
      as (Em & Hother).
    split; [reflexivity|]. split; [apply JsMap_get_delete_same|].
    split; [|exact Hother].
    unfold storedMessages. apply filter_none. intros m Hm.
    apply Z.eqb_neq.
    exact (deleteChatSession_no_message s id m
             (wf_keyed _ (reachable_wellFormed _ R)) Hm).
  - split; [reflexivity|]. split; [intros N; now contradiction N|]. discriminate.
  - assert (Rt : deleteSessionRoute (Some uid) param s
                 = (Ok (jsonMessage 404 "Chat session not found"), s)).
    { unfold deleteSessionRoute, try_catch, bind. rewrite Run, U. reflexivity. }
    split; [discriminate|]. split; [intros _ _; exact Rt|].
    intros uid' id session Hu Hp G E. exfalso.
    injection Hu as <-. subst param. rewrite G in U. cbn in U.
    rewrite E, Z.eqb_refl in U. discriminate.
Qed.

(** X23.  The session list route answers 401 without a login; with one it
    answers 200 with the caller's own sessions, all of them and no session
    of anybody else, most recently updated first.  It changes nothing. *)
Theorem getSessionsRoute_own_sessions :
  forall (user : option Z) (s : Sys),
    snd (getSessionsRoute user s) = s
    /\ match user with
       | None => fst (getSessionsRoute user s) = Ok (sendStatus 401)
       | Some uid =>
           exists body,
             fst (getSessionsRoute user s) = Ok (jsonSessions body)
             /\ StronglySorted later body
             /\ (forall c, In c body -> session_userId c = uid)
             /\ (forall k c, JsMap.get k (chatSessions (storage s)) = Some c ->
                             session_userId c = uid -> In c body)
       end.
Proof.
  intros [uid|] s; [|split; reflexivity].
  set (own := filter (fun session => session_userId session =? uid)
                     (JsMap.values (chatSessions (storage s)))).
  destruct (sortByUpdatedAtDesc_from own []) as [P S].
  assert (R : getSessionsRoute (Some uid) s
              = (Ok (jsonSessions (sortByUpdatedAtDesc own)), s)) by reflexivity.
  rewrite R. split; [reflexivity|]. eexists. split; [reflexivity|].
  split; [apply S; constructor|]. split.
  - intros c H. apply (Permutation_in _ P) in H. apply filter_In in H.
    now apply Z.eqb_eq.
  - intros k c G U. apply (Permutation_in _ (Permutation_sym P)).
    apply filter_In. split; [|now apply Z.eqb_eq].
    unfold JsMap.values. apply in_map_iff. exists (k, c).
    split; [reflexivity | now apply JsMap_get_in].
Qed.

Lemma getMessagesRoute_owner_only_witness :
  fst (getMessagesRoute (Some 8) (Some 1) exampleHistory)
  = Ok (jsonMessage 404 "Chat session not found")
  /\ exists body,
      fst (getMessagesRoute (Some 7) (Some 1) exampleHistory)
      = Ok (jsonMessages body)
      /\ forall m, In m body -> sessionId m = 1.
Proof.
  split.
  - apply (getMessagesRoute_owner_only (Some 8) (Some 1) exampleHistory);
      [discriminate|].
    intros (uid & id & session & Hu & Hp & G & E).
    injection Hu as <-. injection Hp as <-. cbn in G. injection G as <-.
    discriminate E.
  - destruct (getMessagesRoute_owner_only (Some 7) (Some 1) exampleHistory)
      as (_ & _ & _ & H).
    destruct (H 7 1 (mkChatSession 1 7 "a" None 0 0) eq_refl eq_refl eq_refl
                eq_refl) as (body & Eb & _ & _ & I).
    exists body. split; assumption.
Defined.

Lemma deleteSessionRoute_owner_only_witness :
  deleteSessionRoute (Some 8) (Some 1) exampleHistory
  = (Ok (jsonMessage 404 "Chat session not found"), exampleHistory)
  /\ fst (deleteSessionRoute (Some 7) (Some 1) exampleHistory)
     = Ok (sendStatus 200)
  /\ storedMessages 1 (snd (deleteSessionRoute (Some 7) (Some 1) exampleHistory))
     = [].
Proof.
  assert (R : reachable (storage exampleHistory))
    by (unfold exampleHistory; repeat apply reachable_call; apply reachable_new).
  destruct (deleteSessionRoute_owner_only (Some 8) (Some 1) exampleHistory R)
    as (_ & Hforeign & _).
  destruct (deleteSessionRoute_owner_only (Some 7) (Some 1) exampleHistory R)
    as (_ & _ & Hown).
  destruct (Hown 7 1 (mkChatSession 1 7 "a" None 0 0) eq_refl eq_refl eq_refl
              eq_refl) as (H200 & _ & Hnone & _).
  split; [|split; assumption].
  apply Hforeign; [discriminate|].
  intros (uid & id & session & Hu & Hp & G & E).
  injection Hu as <-. injection Hp as <-. cbn in G. injection G as <-.
  discriminate E.
Defined.

(* ====================================================================== *)
(** * Documents: the table and the upload route                            *)
(* ====================================================================== *)

(** Modelled from the spec: the row types [Document] and [InsertDocument] are
    declared in [@shared/schema], which is not part of the sources at hand.
    Section 3 gives a document an identity, an owning user, a display name,
    a byte size, a content type, a processing status, an optional page
    count and a storage location; the upload route fills in exactly these
    fields, plus the original name. *)
Record Document := mkDocument {
  doc_id : Z;
  doc_userId : Z;
  doc_name : string;
  doc_originalName : string;
  doc_size : Z;
  doc_mimeType : string;
  doc_status : string;
  doc_pageCount : option Z;
  doc_filePath : string;
  doc_createdAt : Z
}.

Record InsertDocument := mkInsertDocument {
  ins_doc_userId : Z;
  ins_doc_name : string;
  ins_doc_originalName : string;
  ins_doc_size : Z;
  ins_doc_mimeType : string;
  ins_doc_status : option string;
  ins_doc_filePath : string;
  ins_doc_pageCount : option Z
}.

(** The [documents] map of [MemStorage] with its counter. *)
Record DocumentTable := mkDocumentTable {
  documents : JsMap.t Document;
  currentDocumentId : Z
}.

(** [n || d] where [n : number | null | undefined] is an integer. *)
Definition or_count (n d : option Z) : option Z :=
  match n with
  | Some x => if x =? 0 then d else Some x
  | None => d
  end.

(** [MemStorage.getDocument] *)
Definition getDocument (id : Z) (t : DocumentTable) : option Document :=
  JsMap.get id (documents t).

(** [MemStorage.getDocumentsByUserId] *)
Definition getDocumentsByUserId (userId : Z) (t : DocumentTable)
  : list Document :=
  filter (fun doc => doc_userId doc =? userId) (JsMap.values (documents t)).

(** [MemStorage.createDocument]; [now] is [new Date()]. *)
Definition createDocument (insertDocument : InsertDocument) (now : Z)
           (t : DocumentTable) : Document * DocumentTable :=
  let id := currentDocumentId t in
  let document :=
    mkDocument id (ins_doc_userId insertDocument)
      (ins_doc_name insertDocument) (ins_doc_originalName insertDocument)
      (ins_doc_size insertDocument) (ins_doc_mimeType insertDocument)
      (Js.or_string (ins_doc_status insertDocument) "processing")
      (or_count (ins_doc_pageCount insertDocument) None)
      (ins_doc_filePath insertDocument) now in
  (document, mkDocumentTable (JsMap.set id document (documents t)) (id + 1)).

(** [MemStorage.updateDocumentStatus] *)
Definition updateDocumentStatus (id : Z) (status : string)
           (pageCount : option Z) (t : DocumentTable)
  : option Document * DocumentTable :=
  match JsMap.get id (documents t) with
  | None => (None, t)
  | Some document =>
      let updated :=
        mkDocument (doc_id document) (doc_userId document) (doc_name document)
          (doc_originalName document) (doc_size document)
          (doc_mimeType document) status
          (or_count pageCount (doc_pageCount document))
          (doc_filePath document) (doc_createdAt document) in
      (Some updated,
       mkDocumentTable (JsMap.set id updated (documents t))
                       (currentDocumentId t))
  end.

(** The file part of an upload request: its name, size and content type,
    and the path under which multer stores it. *)
Record UploadedFile := mkUploadedFile {
  originalname : string;
  file_size : Z;
  mimetype : string;
  file_path : string
}.

(** The [fileFilter] of the upload: [allowedTypes.includes(file.mimetype)]. *)
Definition allowedTypes : list string :=
  [ "application/pdf";
    "application/vnd.openxmlformats-officedocument.wordprocessingml.document";
    "text/plain" ].

Definition fileFilter (file : UploadedFile) : bool :=
  existsb (fun t => (t =? mimetype file)%string) allowedTypes.

(** [limits: { fileSize: 10 * 1024 * 1024 }] *)
Definition fileSizeLimit : Z := 10 * 1024 * 1024.

(** [upload.single("file")], which runs before the handler and so before
    the check of the login.  A request without a file part goes on with
    [req.file] undefined.  A part that [fileFilter] refuses, or that is
    larger than the limit, ends there: multer hands the error to [next] and
    the handler does not run. *)
Definition uploadSingle (part : option UploadedFile)
  : Res (option UploadedFile) :=
  match part with
  | None => Ok None
  | Some f =>
      if negb (fileFilter f)
      then Throw (mkError "Invalid file type. Only PDF, DOCX, and TXT files are allowed.")
      else if fileSizeLimit <? file_size f
           then Throw (mkError "File too large")
           else Ok (Some f)
  end.

(** The whole server state: what the services see and the document table. *)
Record App := mkApp {
  sys : Sys;
  docs : DocumentTable
}.

(** What the upload answers; [uploadError] is the answer to an error that
    a middleware handed to [next].  Neither of multer's two errors has a
    status of its own, and Express answers such an error with 500. *)
Inductive UploadResponse :=
| uploadStatus (code : Z)
| uploadMessage (code : Z) (msg : string)
| uploadCreated (code : Z) (document : Document)
| uploadError (code : Z) (error : Error).

(** The handler of [app.post("/api/documents/upload", ...)], with the
    detached processing carried to its end: the response is the document as
    created, and the resulting state is the one in which the [then] or the
    [catch] of the processing has run.  The [catch] around the handler's
    body is never entered, since [createDocument] does not throw and
    [processDocument] reports through its promise. *)
Definition uploadHandler (env : Env) (user : option Z)
           (file : option UploadedFile) (a : App) : UploadResponse * App :=
  match user with
  | None => (uploadStatus 401, a)
  | Some uid =>
      match file with
      | None => (uploadMessage 400 "No file uploaded", a)
      | Some f =>
          let (document, docs1) :=
            createDocument
              (mkInsertDocument uid (originalname f) (originalname f)
                 (file_size f) (mimetype f) (Some "processing") (file_path f)
                 None)
              (clock (sys a)) (docs a) in
          let (outcome, sys1) :=
            processDocument env (file_path f) (doc_id document)
                            (doc_name document) uid (mimetype f) (sys a) in
          match outcome with
          | Ok result =>
              (uploadCreated 201 document,
               mkApp sys1
                     (snd (updateDocumentStatus (doc_id document) "processed"
                             (pageCount result) docs1)))
          | Throw error =>
              (uploadCreated 201 document,
               mkApp (record_console "Document processing failed:" sys1)
                     (snd (updateDocumentStatus (doc_id document) "failed"
                             None docs1)))
          end
      end
  end.

(** [app.post("/api/documents/upload", upload.single("file"), handler)] *)
Definition uploadRoute (env : Env) (user : option Z)
           (part : option UploadedFile) (a : App) : UploadResponse * App :=
  match uploadSingle part with
  | Throw error => (uploadError 500 error, a)
  | Ok file => uploadHandler env user file a
  end.

(** The upload passes multer: its type is allowed and it is not larger
    than the limit. *)
Definition accepted (f : UploadedFile) : bool :=
  fileFilter f && (file_size f <=? fileSizeLimit).

(** The document [d] with another status and page count. *)
Definition withStatus (d : Document) (status : string) (pages : option Z)
  : Document :=
  mkDocument (doc_id d) (doc_userId d) (doc_name d) (doc_originalName d)
             (doc_size d) (doc_mimeType d) status pages (doc_filePath d)
             (doc_createdAt d).

Lemma JsMap_set_last {V} (m : JsMap.t V) (k : Z) (v v' : V) :
  ~ In k (keys m) ->
  JsMap.set k v' (m ++ [(k, v)])%list = (m ++ [(k, v')])%list.
Proof.
  intros H. unfold JsMap.set.
  assert (Has : JsMap.has k (m ++ [(k, v)])%list = true).
  { apply JsMap_has_keys. unfold keys. rewrite map_app. apply in_or_app.
    right. now left. }
  rewrite Has, map_app. cbn. rewrite Z.eqb_refl. f_equal.
  rewrite <- (map_id m) at 2. apply map_ext_in. intros p Hp.
  destruct (Z.eqb_spec (fst p) k) as [E|_]; [|reflexivity].
  exfalso. apply H. unfold keys. apply in_map_iff. now exists p.
Qed.

Lemma processDocument_pageCount (env : Env) (filePath : string) (documentId : Z)
      (documentName : string) (uid : Z) (mimeType : string) (s s' : Sys)
      (doc : ProcessedDocument) :
  processDocument env filePath documentId documentName uid mimeType s
  = (Ok doc, s') ->
  pageCount doc = Some 1.
Proof.
  intros H.
  destruct (processDocument_Ok_inv env _ _ _ _ _ _ _ _ H)
    as (text & _ & _ & _ & Hi).
  unfold indexText in Hi. cbv zeta in Hi.
  apply bind_Ok_inv in Hi. destruct Hi as (embeddings & s1 & _ & Hi).
  apply bind_Ok_inv in Hi. destruct Hi as ([] & s2 & _ & Hi).
  unfold ret in Hi. injection Hi as <- _. reflexivity.
Qed.

Lemma processDocument_keeps_storage (env : Env) (filePath : string)
      (documentId : Z) (documentName : string) (uid : Z) (mimeType : string) :
  keeps storage
        (processDocument env filePath documentId documentName uid mimeType).
Proof.
  unfold processDocument.
  apply keeps_try_catch; [|intros e; unfold console_error; keeps_auto].
  apply keeps_bind.
  { unfold fs_readFileSync. keeps_auto. }
  intros text. apply keeps_bind; [keeps_auto|]. intros _. cbv zeta.
  apply keeps_bind.
  { apply keeps_promise_all. apply Forall_forall. intros p Hp.
    apply in_map_iff in Hp. destruct Hp as (c & <- & _).
    apply generateEmbedding_keeps_storage. }
  intros embeddings. apply keeps_bind; [|intros; keeps_auto].
  unfold upsertDocumentChunks, initializePinecone, Pinecone.listIndexes,
    Pinecone.createIndex, Pinecone.upsert, sleep, console_error.
  keeps_auto.
Qed.

Definition newDocument (uid : Z) (f : UploadedFile) (a : App) : Document :=
  mkDocument (currentDocumentId (docs a)) uid (originalname f) (originalname f)
             (file_size f) (mimetype f) "processing" None (file_path f)
             (clock (sys a)).

Lemma uploadSingle_accepted (f : UploadedFile) :
  accepted f = true -> uploadSingle (Some f) = Ok (Some f).
Proof.
  unfold accepted, uploadSingle. intros H. apply andb_true_iff in H.
  destruct H as [H1 H2]. rewrite H1. cbn [negb].
  destruct (Z.ltb_spec fileSizeLimit (file_size f)); [|reflexivity].
  apply Z.leb_le in H2. lia.
Qed.

Lemma uploadSingle_refused (f : UploadedFile) :
  accepted f = false -> exists e, uploadSingle (Some f) = Throw e.
Proof.
  unfold accepted, uploadSingle. intros H.
  destruct (fileFilter f); cbn [negb andb] in *; [|eexists; reflexivity].
  destruct (Z.ltb_spec fileSizeLimit (file_size f)); [eexists; reflexivity|].
  apply Z.leb_gt in H. lia.
Qed.

(** The handler for a logged-in caller with a file, step by step. *)
Lemma uploadHandler_run (env : Env) (uid : Z) (f : UploadedFile) (a : App) :
  uploadHandler env (Some uid) (Some f) a =
  let document := newDocument uid f a in
  let docs1 :=
    mkDocumentTable
      (JsMap.set (doc_id document) document (documents (docs a)))
      (doc_id document + 1) in
  match processDocument env (file_path f) (currentDocumentId (docs a))
                        (originalname f) uid (mimetype f) (sys a) with
  | (Ok result, sys1) =>
      (uploadCreated 201 document,
       mkApp sys1
             (snd (updateDocumentStatus (doc_id document) "processed"
                     (pageCount result) docs1)))
  | (Throw _, sys1) =>
      (uploadCreated 201 document,
       mkApp (record_console "Document processing failed:" sys1)
             (snd (updateDocumentStatus (doc_id document) "failed" None docs1)))
  end.
Proof.
  cbv beta iota zeta delta
      [uploadHandler createDocument newDocument ins_doc_userId ins_doc_name
         ins_doc_originalName ins_doc_size ins_doc_mimeType ins_doc_status
         ins_doc_filePath ins_doc_pageCount doc_id doc_name Js.or_string
         Js.truthy or_count].
  destruct (processDocument env _ _ _ _ _ _) as [[r|e] s1]; reflexivity.
Qed.

Lemma updateDocumentStatus_after_create (d : Document) (status : string)
      (pages : option Z) (m : JsMap.t Document) (c : Z) :
  updateDocumentStatus (doc_id d) status pages
    (mkDocumentTable (JsMap.set (doc_id d) d m) c)
  = (Some (withStatus d status (or_count pages (doc_pageCount d))),
     mkDocumentTable
       (JsMap.set (doc_id d)
          (withStatus d status (or_count pages (doc_pageCount d)))
          (JsMap.set (doc_id d) d m))
       c).
Proof.
  unfold updateDocumentStatus. cbn [documents currentDocumentId].
  now rewrite JsMap_get_set_same.
Qed.

Lemma fileFilter_readable (file : UploadedFile) :
  fileFilter file = true <-> readable (mimetype file).
Proof.
  unfold fileFilter, allowedTypes, readable, docx.
  cbn [existsb]. rewrite !orb_true_iff, !String.eqb_eq.
  split.
  - intros [H|[H|[H|H]]]; [right; left | right; right | left | discriminate H];
      now symmetry.
  - intros [H|[H|H]]; [right; right; left | left | right; left]; now symmetry.
Qed.

(** X24.  An upload that multer refuses, for its content type or for its
    size, is answered 500 and leaves no document behind, whoever sends it
    and logged in or not.  Of the others, one without a login is answered
    401 and one without a file 400, and neither leaves a document.
    Otherwise the answer is 201 with a new document of the caller in status
    [processing], and once the processing has ended the document is
    [processed] with page count 1 if [processDocument] succeeded and
    [failed] with no page count if it threw: it never stays in
    [processing].  No other document and no chat data changes. *)
Theorem uploadRoute_outcome :
  forall (env : Env) (user : option Z) (part : option UploadedFile) (a : App),
    let a' := snd (uploadRoute env user part a) in
    match part with
    | None =>
        match user with
        | None => uploadRoute env user part a = (uploadStatus 401, a)
        | Some _ =>
            uploadRoute env user part a
            = (uploadMessage 400 "No file uploaded", a)
        end
    | Some f =>
        (accepted f = false ->
         exists e, uploadRoute env user part a = (uploadError 500 e, a))
        /\ (fileFilter f = false ->
            uploadRoute env user part a
            = (uploadError 500
                 (mkError "Invalid file type. Only PDF, DOCX, and TXT files are allowed."),
               a))
        /\ (accepted f = true ->
            match user with
            | None => uploadRoute env user part a = (uploadStatus 401, a)
            | Some uid =>
                exists document,
                  fst (uploadRoute env user part a) = uploadCreated 201 document
                  /\ document = newDocument uid f a
                  /\ getDocument (doc_id document) (docs a')
                     = Some (match fst (processDocument env (file_path f)
                                          (doc_id document) (originalname f) uid
                                          (mimetype f) (sys a)) with
                             | Ok _ => withStatus document "processed" (Some 1)
                             | Throw _ => withStatus document "failed" None
                             end)
                  /\ (forall id, id <> doc_id document ->
                                 getDocument id (docs a') = getDocument id (docs a))
                  /\ storage (sys a') = storage (sys a)
            end)
    end.
Proof.
  intros env user [f|] a a'; [|destruct user; reflexivity].
  split; [|split].
  - intros H. destruct (uploadSingle_refused f H) as [e E].
    exists e. unfold uploadRoute. now rewrite E.
  - intros H. unfold uploadRoute, uploadSingle. now rewrite H.
  - intros H. subst a'. unfold uploadRoute.
    rewrite (uploadSingle_accepted f H).
    destruct user as [uid|]; [|reflexivity].
    rewrite uploadHandler_run. cbv zeta.
    pose proof (processDocument_keeps_storage env (file_path f)
                  (currentDocumentId (docs a)) (originalname f) uid
                  (mimetype f) (sys a)) as K.
    destruct (processDocument env (file_path f) (currentDocumentId (docs a))
                              (originalname f) uid (mimetype f) (sys a))
      as [[r|e] s1] eqn:P; cbn [snd fst] in *;
      exists (newDocument uid f a);
      (split; [reflexivity|]); (split; [reflexivity|]);
      rewrite updateDocumentStatus_after_create; cbn [snd docs sys];
      unfold getDocument; cbn [documents].
    + assert (Pf : fst (processDocument env (file_path f)
                          (doc_id (newDocument uid f a)) (originalname f) uid
                          (mimetype f) (sys a)) = Ok r)
        by exact (f_equal fst P).
      rewrite Pf, (processDocument_pageCount env _ _ _ _ _ _ _ _ P).
      split; [apply JsMap_get_set_same|]. split; [|exact K].
      intros id Hne. rewrite !JsMap_get_set_other by congruence. reflexivity.
    + assert (Pf : fst (processDocument env (file_path f)
                          (doc_id (newDocument uid f a)) (originalname f) uid
                          (mimetype f) (sys a)) = Throw e)
        by exact (f_equal fst P).
      rewrite Pf.
      split; [apply JsMap_get_set_same|]. split; [|exact K].
      intros id Hne. rewrite !JsMap_get_set_other by congruence. reflexivity.
Qed.

Definition exampleApp : App := mkApp exampleSys (mkDocumentTable [] 1).

Lemma uploadRoute_outcome_witness :
  uploadRoute exampleEnv None
              (Some (mkUploadedFile "x.png" 36 "image/png" "/uploads/x.png"))
              exampleApp
  = (uploadError 500
       (mkError "Invalid file type. Only PDF, DOCX, and TXT files are allowed."),
     exampleApp)
  /\ (exists e,
         uploadRoute exampleEnv (Some 7)
                     (Some (mkUploadedFile "big.txt" 10485761 "text/plain"
                                           "/uploads/big.txt"))
                     exampleApp
         = (uploadError 500 e, exampleApp))
  /\ exists document,
      fst (uploadRoute exampleEnv (Some 7)
             (Some (mkUploadedFile "a.txt" 36 "text/plain" "/uploads/a.txt"))
             exampleApp)
      = uploadCreated 201 document
      /\ doc_status document = "processing".
Proof.
  split; [|split].
  - apply (uploadRoute_outcome exampleEnv None
             (Some (mkUploadedFile "x.png" 36 "image/png" "/uploads/x.png"))
             exampleApp).
    reflexivity.
  - apply (uploadRoute_outcome exampleEnv (Some 7)
             (Some (mkUploadedFile "big.txt" 10485761 "text/plain"
                                   "/uploads/big.txt"))
             exampleApp).
    reflexivity.
  - destruct (proj2 (proj2
                (uploadRoute_outcome exampleEnv (Some 7)
                   (Some (mkUploadedFile "a.txt" 36 "text/plain"
                                         "/uploads/a.txt"))
                   exampleApp)) eq_refl)
      as (document & E & -> & _).
    exists (newDocument 7 (mkUploadedFile "a.txt" 36 "text/plain" "/uploads/a.txt")
                        exampleApp).
    split; [exact E | reflexivity].
Defined.

Section FilterAndPipeline.
Variable env : Env.

(** X25.  The upload filter and the pipeline agree on the content types.
    For a file that the filter lets through, [processDocument] has a branch:
    its first step is to read the file.  For a file that the filter
    refuses, [processDocument] would stop at once with
    [Unsupported file type], without reading anything.  So an upload that
    passes the filter is never refused by the pipeline for its type. *)
Theorem fileFilter_accepts_readable :
  forall (file : UploadedFile) (documentId : Z) (documentName : string)
         (uid : Z) (s : Sys),
    let run := processDocument env (file_path file) documentId documentName
                               uid (mimetype file) s in
    (fileFilter file = true ->
     exists rest,
       trace (snd run) = (trace s ++ EvReadFile (file_path file) :: rest)%list)
    /\ (fileFilter file = false ->
        fst run
        = Throw (mkError ("Failed to process document: Unsupported file type: "
                            ++ mimetype file))
        /\ trace (snd run) = trace s).
Proof.
  intros file documentId documentName uid s run. subst run. split.
  - intros H. apply fileFilter_readable in H.
    destruct (readFileSync env (file_path file)) as [text|cause] eqn:Hr.
    + rewrite (processDocument_read env _ documentId documentName uid _ text s
                 H Hr).
      destruct (Js.truthy (Js.trim text)) eqn:T.
      * assert (E : forall s1,
                   try_catch
                     ((if negb true then throw (mkError emptyDocumentMessage)
                       else ret tt) ;;;
                      indexText env documentId documentName uid text)
                     rethrow s1
                   = try_catch (indexText env documentId documentName uid text)
                               rethrow s1) by reflexivity.
        rewrite E.
        destruct (indexText_trace env documentId documentName uid text
                    (record_event (EvReadFile (file_path file)) s))
          as [rest R].
        eexists. rewrite R. cbn [trace record_event].
        rewrite <- app_assoc. reflexivity.
      * exists []. reflexivity.
    + rewrite (processDocument_unreadable_run env _ documentId documentName uid
                 _ cause s H Hr).
      exists []. reflexivity.
  - intros H.
    assert (N : ~ readable (mimetype file)).
    { intros R. apply fileFilter_readable in R. congruence. }
    rewrite (processDocument_unsupported_run env _ documentId documentName uid
               _ s N).
    split; reflexivity.
Qed.
End FilterAndPipeline.

Lemma fileFilter_accepts_readable_witness :
  (exists rest,
      trace (snd (processDocument exampleEnv "/uploads/a.txt" 1 "a.txt" 7
                                  "text/plain" exampleSys))
      = EvReadFile "/uploads/a.txt" :: rest)
  /\ trace (snd (processDocument exampleEnv "/uploads/x.png" 1 "x.png" 7
                                 "image/png" exampleSys)) = [].
Proof.
  split.
  - exact (proj1 (fileFilter_accepts_readable exampleEnv
                    (mkUploadedFile "a.txt" 36 "text/plain" "/uploads/a.txt")
                    1 "a.txt" 7 exampleSys) eq_refl).
  - exact (proj2 (proj2 (fileFilter_accepts_readable exampleEnv
                           (mkUploadedFile "x.png" 36 "image/png"
                                           "/uploads/x.png")
                           1 "x.png" 7 exampleSys) eq_refl)).
Defined.

(** X26.  [getDocumentsByUserId] lists exactly the stored documents of the
    given user.  After an upload that multer accepts, into a table whose
    counter is ahead of its keys, the caller's list has the new document at
    its end and nothing else is different, and the list of any other user
    is what it was; after an upload that multer refuses, every list is what
    it was. *)
Theorem upload_visible_to_owner_only :
  forall (env : Env) (uid : Z) (f : UploadedFile) (a : App),
    ~ In (currentDocumentId (docs a)) (keys (documents (docs a))) ->
    let a' := snd (uploadRoute env (Some uid) (Some f) a) in
    (forall u d, In d (getDocumentsByUserId u (docs a))
                 <-> In d (JsMap.values (documents (docs a)))
                     /\ doc_userId d = u)
    /\ (accepted f = true ->
        (exists document,
            getDocument (currentDocumentId (docs a)) (docs a') = Some document
            /\ getDocumentsByUserId uid (docs a')
               = (getDocumentsByUserId uid (docs a) ++ [document])%list)
        /\ (forall u, u <> uid ->
                      getDocumentsByUserId u (docs a')
                      = getDocumentsByUserId u (docs a)))
    /\ (accepted f = false ->
        forall u, getDocumentsByUserId u (docs a')
                  = getDocumentsByUserId u (docs a)).
Proof.
  intros env uid f a Fresh a'. split.
  { intros u d. unfold getDocumentsByUserId. rewrite filter_In, Z.eqb_eq.
    reflexivity. }
  split.
  - intros Acc.
    assert (Shape : exists document,
               doc_userId document = uid
               /\ documents (docs a')
                  = (documents (docs a)
                       ++ [(currentDocumentId (docs a), document)])%list).
    { subst a'. unfold uploadRoute. rewrite (uploadSingle_accepted f Acc).
      rewrite uploadHandler_run. cbv zeta.
      destruct (processDocument env _ _ _ _ _ _) as [[r|e] s1];
        cbn [snd docs]; rewrite updateDocumentStatus_after_create;
        cbn [snd documents];
        change (doc_id (newDocument uid f a)) with (currentDocumentId (docs a));
        rewrite (JsMap_set_fresh _ _ _ Fresh), (JsMap_set_last _ _ _ _ Fresh);
        eexists; (split; [|reflexivity]); reflexivity. }
    destruct Shape as (document & Hu & Hd).
    assert (Hf : forall u, getDocumentsByUserId u (docs a')
                           = (getDocumentsByUserId u (docs a)
                                ++ (if doc_userId document =? u then [document]
                                    else []))%list).
    { intros u. unfold getDocumentsByUserId, JsMap.values.
      rewrite Hd, map_app, filter_app. cbn.
      destruct (doc_userId document =? u); reflexivity. }
    split.
    + exists document. split.
      * unfold getDocument. rewrite Hd. rewrite JsMap_get_app_absent.
        -- unfold JsMap.get. cbn. now rewrite Z.eqb_refl.
        -- destruct (JsMap.has _ _) eqn:H; [|reflexivity].
           apply JsMap_has_keys in H. contradiction.
      * rewrite Hf, Hu, Z.eqb_refl. reflexivity.
    + intros u Hne. rewrite Hf.
      destruct (Z.eqb_spec (doc_userId document) u) as [E|_];
        [congruence | apply app_nil_r].
  - intros Ref u. subst a'. unfold uploadRoute.
    destruct (uploadSingle_refused f Ref) as [e ->]. reflexivity.
Qed.

Lemma upload_visible_to_owner_only_witness :
  let a' := snd (uploadRoute exampleEnv (Some 7)
                   (Some (mkUploadedFile "a.txt" 36 "text/plain" "/uploads/a.txt"))
                   exampleApp) in
  getDocumentsByUserId 8 (docs a') = []
  /\ (exists document, getDocumentsByUserId 7 (docs a') = [document])
  /\ getDocumentsByUserId 7
       (docs (snd (uploadRoute exampleEnv (Some 7)
                     (Some (mkUploadedFile "x.png" 36 "image/png"
                                           "/uploads/x.png"))
                     exampleApp)))
     = [].
Proof.
  intros a'.
  destruct (upload_visible_to_owner_only exampleEnv 7
              (mkUploadedFile "a.txt" 36 "text/plain" "/uploads/a.txt")
              exampleApp (fun H => H)) as (_ & Hacc & _).
  destruct (Hacc eq_refl) as ((document & _ & Hown) & Hother).
  destruct (upload_visible_to_owner_only exampleEnv 7
              (mkUploadedFile "x.png" 36 "image/png" "/uploads/x.png")
              exampleApp (fun H => H)) as (_ & _ & Href).
  split; [apply (Hother 8); discriminate|]. split.
  - exists document. exact Hown.
  - exact (Href eq_refl 7).
Defined.
